(** * The row-based list-of-lists sparse matrix (scipy/sparse/lil.py)

    A shallow embedding of [lil_matrix] and the properties of its element
    access, index normalisation, compressed-row and dense conversion,
    reshape, scalar multiplication, row copies and views, and storage
    sharing.

    Conventions of the embedding.
    - Python integers and numpy integer indices are [Z]; positions inside a
      Python list are [nat] (they are produced by [bisect_left], [len] and
      [enumerate], hence never negative).
    - A Python call that may raise returns a [result]; a call that mutates
      its arguments and may raise returns an [outcome], which keeps the
      mutated state in both cases, as Python does.
    - The element type of a matrix ([self.dtype]) is a type [T] with the
      operations the file uses on it, class [Dtype]; the default dtype,
      IEEE binary64, is the instance [float64].
    - Matrices are values first: every row owns its two lists.  Module
      [Shared] then puts the same row operations on an object store, where
      two matrices can refer to the same lists.
    - Definitions come first: the embedding, the notions the properties are
      stated with, the objects of the examples.  The properties follow. *)

From Stdlib Require Import ZArith List Lia Bool Sorted Floats.PrimFloat.
From stdpp Require Import base list numbers option sorting.

Open Scope Z_scope.

(** ** Exceptions, results and outcomes *)

Inductive exn : Set :=
| IndexError
| ValueError
| TypeError
| AttributeError.

Inductive result (A : Type) : Type :=
| Ok (a : A)
| Raise (e : exn).
Arguments Ok {A} a.
Arguments Raise {A} e.

#[global] Instance result_ret : MRet result := fun A a => Ok a.
#[global] Instance result_bind : MBind result := fun A B k r =>
  match r with
  | Ok a => k a
  | Raise e => Raise e
  end.

#[global] Instance result_fmap : FMap result := fun A B f r =>
  match r with
  | Ok a => Ok (f a)
  | Raise e => Raise e
  end.

(** The state after a mutating call, with the exception that ended it if
    there was one. *)
Inductive outcome (S : Type) : Type :=
| Done (s : S)
| Failed (e : exn) (s : S).
Arguments Done {S} s.
Arguments Failed {S} e s.

Definition obind {S : Type} (o : outcome S) (k : S -> outcome S) : outcome S :=
  match o with
  | Done s => k s
  | Failed e s => Failed e s
  end.

Definition state_of {S : Type} (o : outcome S) : S :=
  match o with
  | Done s => s
  | Failed _ s => s
  end.

(** A loop [for a in l: body(a)] over a mutable state. *)
Fixpoint for_each {A S : Type} (body : A -> S -> outcome S) (l : list A) (s : S)
  : outcome S :=
  match l with
  | [] => Done s
  | a :: l' => obind (body a s) (for_each body l')
  end.

(** [[f(a) for a in l]] where [f] may raise. *)
Fixpoint map_result {A B : Type} (f : A -> result B) (l : list A) : result (list B) :=
  match l with
  | [] => Ok []
  | a :: l' => b ← f a; bs ← map_result f l'; Ok (b :: bs)
  end.

(** ** Python and numpy primitives used by the file *)

(** [a[i]] on a one-dimensional numpy array: a negative index counts from the
    end, an index outside the array raises [IndexError]. *)
Definition np_resolve (len : nat) (i : Z) : result nat :=
  let i' := if i <? 0 then i + Z.of_nat len else i in
  if (i' <? 0) || (Z.of_nat len <=? i') then Raise IndexError
  else Ok (Z.to_nat i').

Definition np_index {A : Type} (a : list A) (i : Z) : result A :=
  k ← np_resolve (length a) i;
  match a !! k with
  | Some v => Ok v
  | None => Raise IndexError
  end.

(** [l[k]] on a Python list at a non-negative position. *)
Definition py_index {A : Type} (l : list A) (k : nat) : result A :=
  match l !! k with
  | Some v => Ok v
  | None => Raise IndexError
  end.

(** [l.insert(k, v)]: a position past the end appends. *)
Definition py_insert {A : Type} (k : nat) (v : A) (l : list A) : list A :=
  take k l ++ v :: drop k l.

(** [l[k] = v]. *)
Definition py_setitem {A : Type} (k : nat) (v : A) (l : list A) : result (list A) :=
  if (k <? length l)%nat then Ok (<[k := v]> l) else Raise IndexError.

(** [del l[k]]. *)
Definition py_del {A : Type} (k : nat) (l : list A) : result (list A) :=
  if (k <? length l)%nat then Ok (delete k l) else Raise IndexError.

(** [list(range(start, stop, step))] for a step that is not zero. *)
Definition range_len (start stop step : Z) : nat :=
  if 0 <? step then Z.to_nat ((stop - start + step - 1) / step)
  else Z.to_nat ((start - stop - step - 1) / (- step)).

Definition py_range (start stop step : Z) : list Z :=
  map (fun k => start + Z.of_nat k * step) (seq 0 (range_len start stop step)).

(** [bisect.bisect_left(a, x)]: the loop
    [while lo < hi: mid = (lo+hi)//2; if a[mid] < x: lo = mid+1 else: hi = mid].
    The interval [hi - lo] shrinks at every turn, so [length a] turns are
    enough; that is the fuel. *)
Fixpoint bisect_loop (fuel : nat) (a : list Z) (x : Z) (lo hi : nat) : nat :=
  match fuel with
  | O => lo
  | S fuel' =>
      if (lo <? hi)%nat then
        let mid := ((lo + hi) / 2)%nat in
        match a !! mid with
        | Some v =>
            if v <? x then bisect_loop fuel' a x (S mid) hi
            else bisect_loop fuel' a x lo mid
        | None => lo
        end
      else lo
  end.

Definition bisect_left (a : list Z) (x : Z) : nat :=
  bisect_loop (length a) a x 0 (length a).

(** ** Two-dimensional numpy arrays

    Shape and row-major buffer.  An array built by the functions below has
    [length (elems a) = nrows a * ncols a]. *)
Record arr2 (A : Type) : Type := Arr2 { nrows : nat; ncols : nat; elems : list A }.
Arguments Arr2 {A} nrows ncols elems.
Arguments nrows {A} a.
Arguments ncols {A} a.
Arguments elems {A} a.

Definition wf_arr2 {A : Type} (a : arr2 A) : Prop :=
  length (elems a) = (nrows a * ncols a)%nat.

(** [a.shape == b.shape] and [a.shape == (r, c)]. *)
Definition shape_eqb {A B : Type} (a : arr2 A) (b : arr2 B) : bool :=
  (nrows a =? nrows b)%nat && (ncols a =? ncols b)%nat.

Definition shape_is {A : Type} (a : arr2 A) (r c : nat) : bool :=
  (nrows a =? r)%nat && (ncols a =? c)%nat.

(** [a[ii, jj]] for positions produced by [xrange]. *)
Definition arr2_get {A : Type} (a : arr2 A) (ii jj : nat) : result A :=
  if (ii <? nrows a)%nat && (jj <? ncols a)%nat
  then py_index (elems a) (ii * ncols a + jj)
  else Raise IndexError.

(** [v * np.ones(shape, dtype=int)]. *)
Definition np_full {A : Type} (r c : nat) (v : A) : arr2 A :=
  Arr2 r c (replicate (r * c) v).

(** [np.outer(i, np.ones(c, dtype=int))] for a one-dimensional [i]. *)
Definition np_outer_ones (i : list Z) (c : nat) : arr2 Z :=
  Arr2 (length i) c (concat (map (replicate c) i)).

(** [np.vstack([a] * n)]: stacking no array at all raises [ValueError]. *)
Definition np_vstack_rep {A : Type} (a : arr2 A) (n : nat) : result (arr2 A) :=
  match n with
  | O => Raise ValueError
  | _ => Ok (Arr2 (n * nrows a) (ncols a) (concat (replicate n (elems a))))
  end.

(** The same for a one-dimensional [j], read as one row. *)
Definition np_vstack_rep1 {A : Type} (j : list A) (n : nat) : result (arr2 A) :=
  np_vstack_rep (Arr2 1 (length j) j) n.

(** [np.unravel_index(f, (r, c))]: row and column of a flat row-major
    position, [ValueError] when the position is outside the shape. *)
Definition np_unravel_index (f : Z) (shape : Z * Z) : result (Z * Z) :=
  if (f <? 0) || (fst shape * snd shape <=? f) || (fst shape <? 0) || (snd shape <? 0)
  then Raise ValueError
  else Ok (f / snd shape, f mod snd shape).

(** Conversion to a C [int] ([dtype=np.intc], 32 bits, two's complement) and
    to the platform integer that [np.cumsum] accumulates in (64 bits). *)
Definition wrap_signed (bits : Z) (z : Z) : Z :=
  (z + 2 ^ (bits - 1)) mod 2 ^ bits - 2 ^ (bits - 1).

Definition intc (z : Z) : Z := wrap_signed 32 z.
Definition intp (z : Z) : Z := wrap_signed 64 z.

(** [np.cumsum] of an array of platform integers. *)
Fixpoint np_cumsum_from (acc : Z) (l : list Z) : list Z :=
  match l with
  | [] => []
  | x :: l' => let acc' := intp (acc + x) in acc' :: np_cumsum_from acc' l'
  end.

Definition np_cumsum (l : list Z) : list Z := np_cumsum_from 0 l.

(** ** Element types *)

(** What the file needs of [self.dtype]: the value [dtype.type(0)], the test
    [x != 0], and the product [val * other].  A value of type [T] is already
    of the dtype, so the conversion [self.dtype.type(x)] is the identity on
    it and the checks of [_insertat2] that [x] is a scalar that converts
    cannot fail. *)
Class Dtype (T : Type) : Type := {
  zero : T;
  nonzero : T -> bool;
  mul : T -> T -> T;
  nonzero_zero : nonzero zero = false
}.

(** IEEE binary64, [dtype='d'], the default.  Both zeros compare equal to 0,
    a NaN does not. *)
#[global, refine] Instance float64 : Dtype float := {
  zero := 0%float;
  nonzero x := negb (PrimFloat.eqb x 0%float);
  mul := PrimFloat.mul
}.
Proof. reflexivity. Defined.

(** ** Index expressions *)

(** One axis of an index: an integer, a slice, a one-dimensional sequence or
    array of integers, a two-dimensional array (or nested list) of integers. *)
Inductive axis : Type :=
| AInt (z : Z)
| ASlice (start stop step : option Z)
| ASeq (l : list Z)
| AArr (a : arr2 Z).

(** What is written between the brackets: a pair [m[i, j]] or one object
    [m[a]]. *)
Inductive index : Type :=
| IPair (i j : axis)
| ISingle (a : axis).

Definition is_slice (a : axis) : bool :=
  match a with
  | ASlice _ _ _ => true
  | _ => false
  end.

(** [slice(None)]. *)
Definition slice_all : axis := ASlice None None None.

(** [_slicetoseq(j, shape)].  [j.step or 1] turns both an absent step and
    the step 0 into 1. *)
Definition _slicetoseq (start stop step : option Z) (shape : Z) : list Z :=
  let step := match step with
              | Some s => if s =? 0 then 1 else s
              | None => 1
              end in
  let start := match start with
               | Some s => if s <? 0 then shape + s else s
               | None => if 0 <? step then 0 else shape
               end in
  let stop := match stop with
              | Some s => if s <? 0 then shape + s else s
              | None => if 0 <? step then shape else -1
              end in
  py_range start stop step.

(** ** The matrix, as a value *)

(** [self.shape], [self.rows] and [self.data]: the two object arrays hold one
    Python list per row. *)
Record lil (T : Type) : Type := Lil {
  shape : Z * Z;
  rows : list (list Z);
  data : list (list T)
}.
Arguments Lil {T} shape rows data.
Arguments shape {T} l.
Arguments rows {T} l.
Arguments data {T} l.

Section Matrix.
Context {T : Type} `{DT : Dtype T}.

(** [lil_matrix((M, N), dtype)]: [np.empty((M,))] refuses a negative [M],
    every row gets two fresh empty lists.  (The shape is stored through the
    setter of the base class, which is not part of this file.) *)
Definition lil_empty (M N : Z) : result (lil T) :=
  if M <? 0 then Raise ValueError
  else Ok (Lil (M, N) (replicate (Z.to_nat M) []) (replicate (Z.to_nat M) [])).

(** [getnnz]. *)
Definition getnnz (m : lil T) : Z :=
  fold_right Z.add 0 (map (fun rowvals => Z.of_nat (length rowvals)) (data m)).

(** [_get1(i, j)]. *)
Definition _get1 (m : lil T) (i j : Z) : result T :=
  let i := if i <? 0 then i + fst (shape m) else i in
  if (i <? 0) || (fst (shape m) <=? i) then Raise IndexError else
  let j := if j <? 0 then j + snd (shape m) else j in
  if (j <? 0) || (snd (shape m) <=? j) then Raise IndexError else
  row ← np_index (rows m) i;
  dat ← np_index (data m) i;
  let pos := bisect_left row j in
  if (pos =? length dat)%nat then Ok zero else
  c ← py_index row pos;
  if c =? j then py_index dat pos else Ok zero.

(** [_insertat2(row, data, j, x)] on the two lists of one row; [N] is
    [self.shape[1]].  The lists are mutated in place, so the outcome holds
    them also when the call raises. *)
Definition _insertat2 (N : Z) (row : list Z) (dat : list T) (j : Z) (x : T)
  : outcome (list Z * list T) :=
  let j := if j <? 0 then j + N else j in
  if (j <? 0) || (N <=? j) then Failed IndexError (row, dat) else
  let pos := bisect_left row j in
  if nonzero x then
    if (pos =? length row)%nat then Done (row ++ [j], dat ++ [x])
    else match row !! pos with
         | None => Failed IndexError (row, dat)
         | Some c =>
             if negb (c =? j) then Done (py_insert pos j row, py_insert pos x dat)
             else match py_setitem pos x dat with
                  | Ok dat' => Done (row, dat')
                  | Raise e => Failed e (row, dat)
                  end
         end
  else
    if (pos <? length row)%nat &&
       match row !! pos with Some c => c =? j | None => false end then
      match py_del pos row with
      | Raise e => Failed e (row, dat)
      | Ok row' =>
          match py_del pos dat with
          | Ok dat' => Done (row', dat')
          | Raise e => Failed e (row', dat)
          end
      end
    else Done (row, dat).

(** One turn of the loops of [__setitem__]:
    [self._insertat2(self.rows[ii], self.data[ii], jj, xx)]. *)
Definition insert_cell (ii jj : Z) (xx : T) (m : lil T) : outcome (lil T) :=
  match np_resolve (length (rows m)) ii, np_resolve (length (data m)) ii with
  | Raise e, _ => Failed e m
  | Ok _, Raise e => Failed e m
  | Ok kr, Ok kd =>
      match rows m !! kr, data m !! kd with
      | Some row, Some dat =>
          let store (rd : list Z * list T) :=
            Lil (shape m) (<[kr := fst rd]> (rows m)) (<[kd := snd rd]> (data m)) in
          match _insertat2 (snd (shape m)) row dat jj xx with
          | Done rd => Done (store rd)
          | Failed e rd => Failed e (store rd)
          end
      | _, _ => Failed IndexError m
      end
  end.

(** [toarray]: a zero-filled [shape] array in which [d[i, j]] is overwritten
    with every stored entry; [d[i, j] = v] follows numpy's indexing (negative
    [j] counts from the end, an index outside the array raises). *)
Definition dense_store (i : nat) (j : Z) (v : T) (d : arr2 T) : result (arr2 T) :=
  if (i <? nrows d)%nat then
    k ← np_resolve (ncols d) j;
    Ok (Arr2 (nrows d) (ncols d) (<[(i * ncols d + k)%nat := v]> (elems d)))
  else Raise IndexError.

Fixpoint toarray_row (i : nat) (row : list Z) (dat : list T) (pos : nat)
  (d : arr2 T) : result (arr2 T) :=
  match row with
  | [] => Ok d
  | j :: row' =>
      v ← py_index dat pos;
      d' ← dense_store i j v d;
      toarray_row i row' dat (S pos) d'
  end.

Fixpoint toarray_rows (m : lil T) (i : nat) (rs : list (list Z))
  (d : arr2 T) : result (arr2 T) :=
  match rs with
  | [] => Ok d
  | row :: rs' =>
      dat ← py_index (data m) i;
      d' ← toarray_row i row dat 0 d;
      toarray_rows m (S i) rs' d'
  end.

Definition toarray (m : lil T) : result (arr2 T) :=
  if (fst (shape m) <? 0) || (snd (shape m) <? 0) then Raise ValueError else
  let M := Z.to_nat (fst (shape m)) in
  let N := Z.to_nat (snd (shape m)) in
  toarray_rows m 0 (rows m) (np_full M N zero).

(** *** Index normalisation *)

(** [i, j = index], with the fallback of the [except] clause.  Unpacking an
    integer or a slice raises [TypeError], unpacking a sequence that has not
    two items raises [ValueError]; [__getitem__] catches the first only,
    [__setitem__] both ([catches_value_error]).  A caught error makes a list,
    array or slice the row part of the index and [slice(None)] the column
    part; anything else is an invalid index. *)
Definition unpack_index (catches_value_error : bool) (ix : index)
  : result (axis * axis) :=
  match ix with
  | IPair i j => Ok (i, j)
  | ISingle (AInt _) => Raise IndexError
  | ISingle (ASlice a b c) => Ok (ASlice a b c, slice_all)
  | ISingle (ASeq [a; b]) => Ok (AInt a, AInt b)
  | ISingle (ASeq l) =>
      if catches_value_error then Ok (ASeq l, slice_all) else Raise ValueError
  | ISingle (AArr a) =>
      if (nrows a =? 2)%nat
      then Ok (ASeq (take (ncols a) (elems a)), ASeq (drop (ncols a) (elems a)))
      else if catches_value_error then Ok (AArr a, slice_all) else Raise ValueError
  end.

(** What [np.atleast_1d] returns: a one-dimensional array, or the
    two-dimensional one it was given. *)
Inductive nd : Type :=
| N1 (l : list Z)
| N2 (a : arr2 Z).

(** One axis of the slice branch: [if isinstance(i, slice): i =
    self._slicetoseq(i, extent); if not i: return] and then
    [np.atleast_1d(i)].  [None] stands for the early [return]. *)
Definition slice_axis (a : axis) (extent : Z) : option nd :=
  match a with
  | AInt z => Some (N1 [z])
  | ASeq l => Some (N1 l)
  | AArr a => Some (N2 a)
  | ASlice start stop step =>
      match _slicetoseq start stop step extent with
      | [] => None
      | l => Some (N1 l)
      end
  end.

(** [.ravel()]. *)
Definition nd_ravel (a : nd) : list Z :=
  match a with
  | N1 l => l
  | N2 a => elems a
  end.

(** [np.atleast_2d] of an axis that is not a slice (a slice never reaches
    it: it takes the other branch). *)
Definition atleast_2d (a : axis) : arr2 Z :=
  match a with
  | AInt z => Arr2 1 1 [z]
  | ASeq l => Arr2 1 (length l) l
  | AArr a => a
  | ASlice _ _ _ => Arr2 1 1 []
  end.

(** [i[0][0]]. *)
Definition first_elem (a : arr2 Z) : Z := default 0 (head (elems a)).

(** The grid of the slice branch: every row index against every column
    index. *)
Definition outer_grid (i j : list Z) : result (arr2 Z * arr2 Z) :=
  let Ia := np_outer_ones i (length j) in
  Ja ← np_vstack_rep1 j (nrows Ia);
  Ok (Ia, Ja).

(** "Make i and j into same shape", the branch without slices. *)
Definition broadcast_pair (i j : arr2 Z) : result (arr2 Z * arr2 Z) :=
  if shape_eqb j i then Ok (i, j)
  else if shape_is i 1 1 then Ok (np_full (nrows j) (ncols j) (first_elem i), j)
  else if shape_is j 1 1 then Ok (i, np_full (nrows i) (ncols i) (first_elem j))
  else if (ncols i =? ncols j)%nat then
    if (nrows i =? 1)%nat then Ia ← np_vstack_rep i (nrows j); Ok (Ia, j)
    else if (nrows j =? 1)%nat then Ja ← np_vstack_rep j (nrows i); Ok (i, Ja)
    else Raise ValueError
  else Raise ValueError.

(** The coordinate arrays of [__getitem__]; [Ok None] is its bare [return]
    on an empty slice. *)
Definition getitem_coords (sh : Z * Z) (i j : axis)
  : result (option (arr2 Z * arr2 Z)) :=
  if is_slice i || is_slice j then
    match slice_axis i (fst sh) with
    | None => Ok None
    | Some i1 =>
        match slice_axis j (snd sh) with
        | None => Ok None
        | Some j1 =>
            match i1, j1 with
            | N1 il, N1 jl => Some <$> outer_grid il jl
            | _, _ => Raise IndexError
            end
        end
    end
  else Some <$> broadcast_pair (atleast_2d i) (atleast_2d j).

(** The coordinate arrays of [__setitem__]: the slice branch ravels the two
    axes instead of refusing a two-dimensional one. *)
Definition setitem_coords (sh : Z * Z) (i j : axis)
  : result (option (arr2 Z * arr2 Z)) :=
  if is_slice i || is_slice j then
    match slice_axis i (fst sh) with
    | None => Ok None
    | Some i1 =>
        match slice_axis j (snd sh) with
        | None => Ok None
        | Some j1 => Some <$> outer_grid (nd_ravel i1) (nd_ravel j1)
        end
    end
  else Some <$> broadcast_pair (atleast_2d i) (atleast_2d j).

(** *** Construction from other sources *)

(** [copy]: a fresh matrix of the same shape with deep copies of the two
    arrays. *)
Definition copy (m : lil T) : result (lil T) :=
  new ← lil_empty (fst (shape m)) (snd (shape m));
  Ok (Lil (shape new) (rows m) (data m)).

(** [tolil(copy)]. *)
Definition tolil (m : lil T) (cp : bool) : result (lil T) :=
  if cp then copy m else Ok m.

(** [lil_matrix(S, copy=cp)] for a source [S] that is itself a [lil_matrix].
    As values, the rows and data of the result are those of the source;
    whether they are the same objects is the subject of module [Shared]. *)
Definition lil_of_lil (s : lil T) (cp : bool) : result (lil T) :=
  A ← (if cp then copy s else tolil s false);
  Ok (Lil (shape A) (rows A) (data A)).

(** Modelled from the spec: the constructor from a dense source,
    [csr_matrix(np.asmatrix(D)).tolil()], whose code is in the compressed-row
    module and not in this file.  The spec has it convert the contents, and
    the data model stores, row by row, the columns of the entries that are
    not zero, in increasing order, with their values. *)
Fixpoint dense_cols (j : Z) (r : list T) : list Z :=
  match r with
  | [] => []
  | v :: r' => if nonzero v then j :: dense_cols (j + 1) r' else dense_cols (j + 1) r'
  end.

Fixpoint dense_vals (r : list T) : list T :=
  match r with
  | [] => []
  | v :: r' => if nonzero v then v :: dense_vals r' else dense_vals r'
  end.

Definition lil_of_dense (d : list (list T)) : lil T :=
  Lil (Z.of_nat (length d), Z.of_nat (length (default [] (head d))))
      (map (dense_cols 0) d) (map dense_vals d).

(** *** Reading *)

(** What [__getitem__] returns: a value of the element type, a new matrix,
    or [None]. *)
Inductive got : Type :=
| GScalar (v : T)
| GMatrix (m : lil T)
| GNone.

(** [_get1(i[ii, jj], j[ii, jj])]. *)
Definition get_at (m : lil T) (Ia Ja : arr2 Z) (ii jj : nat) : result T :=
  i ← arr2_get Ia ii jj;
  j ← arr2_get Ja ii jj;
  _get1 m i j.

(** [__getitem__(index)].  The warning about slow indexing changes nothing
    and is left out. *)
Definition __getitem__ (m : lil T) (ix : index) : result got :=
  '(i, j) ← unpack_index false ix;
  let slicemat := is_slice i || is_slice j in
  coords ← getitem_coords (shape m) i j;
  match coords with
  | None => Ok GNone
  | Some (Ia, Ja) =>
      if shape_eqb Ia Ja && shape_is Ia 1 1 && negb slicemat
      then GScalar <$> get_at m Ia Ja 0 0
      else
        d ← map_result
              (fun ii => map_result (fun jj => get_at m Ia Ja ii jj) (seq 0 (ncols Ia)))
              (seq 0 (nrows Ia));
        Ok (GMatrix (lil_of_dense d))
  end.

(** *** Writing *)

(** The right-hand side of an assignment: a scalar, a sequence, a
    two-dimensional array, or a sparse matrix (of this format: the other
    formats are in other files). *)
Inductive rhs : Type :=
| XScalar (x : T)
| XSeq (l : list T)
| XArr (a : arr2 T)
| XSparse (s : lil T).

Definition is_full_slice (a : axis) : bool :=
  match a with
  | ASlice None None None => true
  | _ => false
  end.

(** [np.atleast_2d(np.asarray(x, dtype=self.dtype))]. *)
Definition rhs_dense (x : rhs) : arr2 T :=
  match x with
  | XScalar v => Arr2 1 1 [v]
  | XSeq l => Arr2 1 (length l) l
  | XArr a => a
  | XSparse s => Arr2 0 0 []
  end.

(** [for ii, jj, xx in zip(i.ravel(), j.ravel(), x.ravel()):
       self._insertat2(self.rows[ii], self.data[ii], jj, xx)]. *)
Definition insert_zip (Ia Ja : arr2 Z) (xs : list T) (m : lil T) : outcome (lil T) :=
  for_each (fun c : Z * Z * T => insert_cell (fst (fst c)) (snd (fst c)) (snd c))
           (zip (zip (elems Ia) (elems Ja)) xs) m.

(** [for ii, jj in zip(i.ravel(), j.ravel()):
       self._insertat2(self.rows[ii], self.data[ii], jj, x[0, 0])]
    for a dense [x] of shape (1, 1). *)
Definition insert_same (Ia Ja : arr2 Z) (x : arr2 T) (m : lil T) : outcome (lil T) :=
  for_each (fun c : Z * Z => fun m =>
              match arr2_get x 0 0 with
              | Ok xx => insert_cell (fst c) (snd c) xx m
              | Raise e => Failed e m
              end)
           (zip (elems Ia) (elems Ja)) m.

(** One turn of the loop for a sparse [x] of shape (1, 1), which passes
    [j[jj]], a row of the column array, where the other loops pass [jj]:
    [self._insertat2(self.rows[ii], self.data[ii], j[jj], x[0, 0])].
    - The turn [p] reads [ii] and [jj] from the ravelled arrays ([zip] is
      lazy, the ravelled array is a view of [j]).
    - [j[jj]] is a view of one row of [j].  In [_insertat2] the test
      [if j < 0] on an array raises [ValueError] unless the array has one
      element (an array without columns has no element, hence no turn), and
      [j += self.shape[1]] adds to that element of [j] in place.
    - The one-element array then takes the place of the column index in all
      comparisons and is what the row list receives; it is modelled by its
      element. *)
Definition sparse_scalar_turn (s : lil T) (Ia : arr2 Z) (p : nat)
  (st : lil T * arr2 Z) : outcome (lil T * arr2 Z) :=
  let m := fst st in
  let Ja := snd st in
  match elems Ia !! p, elems Ja !! p with
  | Some ii, Some jj =>
      match np_resolve (length (rows m)) ii, np_resolve (length (data m)) ii with
      | Raise e, _ => Failed e st
      | Ok _, Raise e => Failed e st
      | Ok kr, Ok kd =>
          match rows m !! kr, data m !! kd, np_resolve (nrows Ja) jj with
          | Some row, Some dat, Ok k =>
              match _get1 s 0 0 with
              | Raise e => Failed e st
              | Ok xx =>
                  if negb (ncols Ja =? 1)%nat then Failed ValueError st else
                  match elems Ja !! k with
                  | None => Failed IndexError st
                  | Some c =>
                      let Ja' := if c <? 0
                                then Arr2 (nrows Ja) (ncols Ja)
                                          (<[k := c + snd (shape m)]> (elems Ja))
                                else Ja in
                      let store (rd : list Z * list T) :=
                        Lil (shape m) (<[kr := fst rd]> (rows m))
                            (<[kd := snd rd]> (data m)) in
                      match _insertat2 (snd (shape m)) row dat c xx with
                      | Done rd => Done (store rd, Ja')
                      | Failed e rd => Failed e (store rd, Ja')
                      end
                  end
              end
          | _, _, _ => Failed IndexError st
          end
      end
  | _, _ => Done st
  end.

Definition insert_sparse_scalar (s : lil T) (Ia Ja : arr2 Z) (m : lil T)
  : outcome (lil T) :=
  let turns := seq 0 (Nat.min (length (elems Ia)) (length (elems Ja))) in
  match for_each (sparse_scalar_turn s Ia) turns (m, Ja) with
  | Done st => Done (fst st)
  | Failed e st => Failed e (fst st)
  end.

(** The loops for a sparse right-hand side.  The third one calls
    [np.concatenat], a name numpy does not have: evaluating it raises
    [AttributeError] before the first turn. *)
Definition setitem_sparse (s : lil T) (Ia Ja : arr2 Z) (m : lil T) : outcome (lil T) :=
  if (fst (shape s) =? 1) && (snd (shape s) =? 1) then insert_sparse_scalar s Ia Ja m
  else if (fst (shape s) =? Z.of_nat (nrows Ia)) && (snd (shape s) =? Z.of_nat (ncols Ia))
  then match toarray s with
       | Ok d => insert_zip Ia Ja (elems d) m
       | Raise e => Failed e m
       end
  else if (snd (shape s) =? Z.of_nat (ncols Ia)) && (fst (shape s) =? 1)
  then Failed AttributeError m
  else Failed ValueError m.

(** The loops for a dense right-hand side, already two-dimensional. *)
Definition setitem_dense (x : arr2 T) (Ia Ja : arr2 Z) (m : lil T) : outcome (lil T) :=
  if shape_is x 1 1 then insert_same Ia Ja x m
  else if shape_eqb Ia x then insert_zip Ia Ja (elems x) m
  else if (ncols x =? ncols Ia)%nat && (nrows x =? 1)%nat
  then match np_vstack_rep x (nrows Ia) with
       | Ok x' => insert_zip Ia Ja (elems x') m
       | Raise e => Failed e m
       end
  else Failed ValueError m.

(** [__setitem__(index, x)]. *)
Definition __setitem__ (m : lil T) (ix : index) (x : rhs) : outcome (lil T) :=
  match unpack_index true ix with
  | Raise e => Failed e m
  | Ok (i, j) =>
      let whole := match x with
                   | XSparse s => if is_full_slice i && is_full_slice j then Some s else None
                   | _ => None
                   end in
      match whole with
      | Some s =>
          match lil_of_lil s false with
          | Ok x' => Done (Lil (shape m) (rows x') (data x'))
          | Raise e => Failed e m
          end
      | None =>
          match setitem_coords (shape m) i j with
          | Raise e => Failed e m
          | Ok None => Done m
          | Ok (Some (Ia, Ja)) =>
              match x with
              | XSparse s => setitem_sparse s Ia Ja m
              | _ => setitem_dense (rhs_dense x) Ia Ja m
              end
          end
      end
  end.

(** [m[i, j] = x] and [m[i, j]] for integers and a scalar: the single-element
    [set] and [get] of the specification. *)
Definition set (m : lil T) (i j : Z) (x : T) : outcome (lil T) :=
  __setitem__ m (IPair (AInt i) (AInt j)) (XScalar x).

Definition get (m : lil T) (i j : Z) : result got :=
  __getitem__ m (IPair (AInt i) (AInt j)).

(** A sequence of [set] calls; it ends at the first one that raises. *)
Definition set_all (calls : list (Z * Z * T)) (m : lil T) : outcome (lil T) :=
  for_each (fun c : Z * Z * T => fun m => set m (fst (fst c)) (snd (fst c)) (snd c))
           calls m.

(** *** Conversions *)

(** The three arrays and the shape that [tocsr] hands to [csr_matrix]. *)
Record csr : Type := Csr {
  csr_data : list T;
  csr_indices : list Z;
  csr_indptr : list Z;
  csr_shape : Z * Z
}.

(** [tocsr]. *)
Definition tocsr (m : lil T) : csr :=
  let indptr := map (fun x : list Z => intc (Z.of_nat (length x))) (rows m) in
  let indptr := 0 :: np_cumsum indptr in
  let indices := map intc (concat (rows m)) in
  Csr (concat (data m)) indices indptr (shape m).

(** [getrow(i)]. *)
Definition getrow (m : lil T) (i : Z) : result (lil T) :=
  new ← lil_empty 1 (snd (shape m));
  row ← np_index (rows m) i;
  dat ← np_index (data m) i;
  Ok (Lil (shape new) (<[0%nat := row]> (rows new)) (<[0%nat := dat]> (data new))).

(** [new[new_r, new_c] = v] where [v] is what [self[i, j]] returned. *)
Definition assign_got (new : lil T) (r c : Z) (v : got) : result (lil T) :=
  let x := match v with
           | GScalar x => Ok (XScalar x)
           | GMatrix s => Ok (XSparse s)
           | GNone => Raise TypeError
           end in
  x ← x;
  match __setitem__ new (IPair (AInt r) (AInt c)) x with
  | Done new' => Ok new'
  | Failed e _ => Raise e
  end.

(** [reshape(shape)]: the two nested loops over the stored entries. *)
Fixpoint reshape_row (m : lil T) (sh : Z * Z) (i : nat) (row : list Z) (new : lil T)
  : result (lil T) :=
  match row with
  | [] => Ok new
  | j :: row' =>
      '(new_r, new_c) ← np_unravel_index (Z.of_nat i * snd (shape m) + j) sh;
      v ← __getitem__ m (IPair (AInt (Z.of_nat i)) (AInt j));
      new' ← assign_got new new_r new_c v;
      reshape_row m sh i row' new'
  end.

Fixpoint reshape_rows (m : lil T) (sh : Z * Z) (i : nat) (rs : list (list Z))
  (new : lil T) : result (lil T) :=
  match rs with
  | [] => Ok new
  | row :: rs' =>
      new' ← reshape_row m sh i row new;
      reshape_rows m sh (S i) rs' new'
  end.

Definition reshape (m : lil T) (sh : Z * Z) : result (lil T) :=
  new ← lil_empty (fst sh) (snd sh);
  reshape_rows m sh 0 (rows m) new.

(** [_mul_scalar(other)].  The branch for a multiplier that is not zero
    stores the scaled rows with [new.data[:] = ...], numpy's assignment of a
    nested list to an object array; what numpy does with it is not part of
    this file and is taken as [np_assign_all], from the array and the nested
    list to the new contents of the array. *)
Variable np_assign_all : list (list T) -> list (list T) -> result (list (list T)).

Definition _mul_scalar (m : lil T) (other : T) : result (lil T) :=
  if negb (nonzero other) then lil_empty (fst (shape m)) (snd (shape m))
  else
    new ← copy m;
    dat ← np_assign_all (data new) (map (map (fun val => mul val other)) (data new));
    Ok (Lil (shape new) (rows new) dat).

End Matrix.

Arguments got T : clear implicits.
Arguments rhs T : clear implicits.
Arguments csr T : clear implicits.

(** * Notions used to state the properties *)

(** The index that [_get1], [_insertat2] and numpy's indexing work with
    when they are given [j] on an axis of extent [N]. *)
Definition wrap (N j : Z) : Z := if j <? 0 then j + N else j.

(** [p] splits [a] at [x]: what is before [p] is below [x], the rest is not. *)
Definition splits_at (a : list Z) (x : Z) (p : nat) : Prop :=
  (p <= length a)%nat /\
  (forall k v, (k < p)%nat -> a !! k = Some v -> v < x) /\
  (forall k v, (p <= k)%nat -> a !! k = Some v -> x <= v).

(** The flat row-major coordinate of a cell, and the flat coordinates of
    the stored entries of the rows [rs], the first of which is row [i]. *)
Definition flat_of (N : Z) (i : nat) (j : Z) : Z := Z.of_nat i * N + j.

Fixpoint flat_coords (N : Z) (i : nat) (rs : list (list Z)) : list Z :=
  match rs with
  | [] => []
  | row :: rs' => map (flat_of N i) row ++ flat_coords N (S i) rs'
  end.

(** The entry with flat coordinate [flat_of N i j] has a place in a matrix
    of shape [sh]; so have all stored entries of the rows [rs], the first
    of which is row [i0]. *)
Definition has_place (N : Z) (sh : Z * Z) (i : nat) (j : Z) : Prop :=
  flat_of N i j < fst sh * snd sh.

Definition rows_have_place (N : Z) (sh : Z * Z) (i0 : nat) (rs : list (list Z)) : Prop :=
  forall k row, rs !! k = Some row -> Forall (has_place N sh (i0 + k)) row.

(** A slice that expands to no index at all. *)
Definition empty_slice (a : axis) (extent : Z) : Prop :=
  exists start stop step,
    a = ASlice start stop step /\ _slicetoseq start stop step extent = [].

(** The columns of a row are inside a matrix with [N] columns. *)
Definition cols_below (N : Z) (row : list Z) : Prop :=
  Forall (fun c => 0 <= c < N) row.

(** The cell at row [i'] and column [j'] is one of the cells that the
    coordinates [cells] name in a matrix of shape [sh]. *)
Definition targets (sh : Z * Z) (cells : list (Z * Z)) (i' : nat) (j' : Z) : Prop :=
  Exists (fun c => Z.to_nat (wrap (fst sh) (fst c)) = i' /\ wrap (snd sh) (snd c) = j')
         cells.

Definition cell_in_range (sh : Z * Z) (c : Z * Z) : Prop :=
  - fst sh <= fst c < fst sh /\ - snd sh <= snd c < snd sh.

Section Notions.
Context {T : Type} `{DT : Dtype T}.

(** One row read as a finite map from columns to values: the value paired
    with the first occurrence of the column. *)
Fixpoint lookup_col (row : list Z) (dat : list T) (j : Z) : option T :=
  match row, dat with
  | c :: row', v :: dat' => if c =? j then Some v else lookup_col row' dat' j
  | _, _ => None
  end.

(** The invariant of one row: strictly increasing columns, as many values
    as columns, no value that compares equal to 0. *)
Definition row_inv (row : list Z) (dat : list T) : Prop :=
  StronglySorted Z.lt row /\ length dat = length row /\
  Forall (fun v => nonzero v = true) dat.

(** The row invariant in the words of the specification. *)
Definition row_stated (row : list Z) (dat : list T) : Prop :=
  StronglySorted Z.lt row /\ NoDup row /\ length dat = length row /\
  Forall (fun v => v <> zero) dat.

(** The invariant of a matrix: as many rows as the shape says, each with
    its list of values, each satisfying the row invariant. *)
Record lil_inv (m : lil T) : Prop := {
  inv_shape : Z.of_nat (length (rows m)) = fst (shape m);
  inv_rows : Forall2 row_inv (rows m) (data m)
}.

(** What the cell at row [i] and column [j] holds. *)
Definition entry (m : lil T) (i : nat) (j : Z) : T :=
  match rows m !! i, data m !! i with
  | Some row, Some dat => default zero (lookup_col row dat j)
  | _, _ => zero
  end.

(** Indices that are valid after the wrap-around of negative ones, and the
    row and column they stand for. *)
Definition in_range (m : lil T) (i j : Z) : Prop :=
  - fst (shape m) <= i < fst (shape m) /\ - snd (shape m) <= j < snd (shape m).

Definition row_of (m : lil T) (i : Z) : nat := Z.to_nat (wrap (fst (shape m)) i).
Definition col_of (m : lil T) (j : Z) : Z := wrap (snd (shape m)) j.

(** The search of [_get1] in the two lists of one row. *)
Definition get1_row (row : list Z) (dat : list T) (j : Z) : result T :=
  let pos := bisect_left row j in
  if (pos =? length dat)%nat then Ok zero else
  c ← py_index row pos;
  if c =? j then py_index dat pos else Ok zero.

(** Every column index and the number of stored entries fit a C [int]. *)
Definition fits_intc (m : lil T) : Prop :=
  Forall (Forall (fun c => - 2 ^ 31 <= c < 2 ^ 31)) (rows m) /\
  Z.of_nat (length (concat (rows m))) < 2 ^ 31.

(** What a cell holds after [x] was written to it. *)
Definition stored (x : T) : T := if nonzero x then x else zero.

(** The value of the last of the [calls] that is aimed at the cell at row
    [i'] and column [j'] of a matrix of shape [sh], if one is. *)
Fixpoint last_write (sh : Z * Z) (calls : list (Z * Z * T)) (i' : nat) (j' : Z)
  : option T :=
  match calls with
  | [] => None
  | c :: calls' =>
      match last_write sh calls' i' j' with
      | Some x => Some x
      | None =>
          if bool_decide (Z.to_nat (wrap (fst sh) (fst (fst c))) = i') &&
             (wrap (snd sh) (snd (fst c)) =? j')
          then Some (snd c) else None
      end
  end.

(** The state of the new matrix while [reshape] moves the entries of [m]:
    it holds the entries whose flat coordinates are in [W], and zero
    elsewhere. *)
Definition moved (m : lil T) (sh : Z * Z) (W : list Z) (new : lil T) : Prop :=
  lil_inv new /\ shape new = sh /\
  forall f, 0 <= f < fst sh * snd sh ->
    entry new (Z.to_nat (f / snd sh)) (f mod snd sh) =
    if bool_decide (f ∈ W)
    then entry m (Z.to_nat (f / snd (shape m))) (f mod snd (shape m))
    else zero.

(** What [reshape] keeps of the matrix it fills, whatever it reads from:
    the invariant, the new shape, the columns inside the shape. *)
Definition filled (sh : Z * Z) (new : lil T) : Prop :=
  lil_inv new /\ shape new = sh /\ Forall (cols_below (snd sh)) (rows new).

End Notions.

(** * Matrices and index expressions of the examples *)

(** The 3 x 3 matrix [[1,0,3],[0,2,0],[0,0,0]]. *)
Definition m33 : lil float := Lil (3, 3) [[0; 2]; [1]; []] [[1; 3]; [2]; []]%float.

(** The scenario of the specification: the empty 3 x 3 matrix of reals after
    [set(0,0,1.0)], [set(0,2,3.0)], [set(1,1,2.0)]. *)
Definition scenario_calls : list (Z * Z * float) :=
  [(0, 0, 1%float); (0, 2, 3%float); (1, 1, 2%float)].

Definition scenario : result (outcome (lil float)) :=
  m0 ← lil_empty 3 3; Ok (set_all scenario_calls m0).

(** The empty 5 x 1 and 3 x 3 matrices, the index [0:2, 0:2], and the
    sparse 1 x 1 matrix [[7.0]]. *)
Definition column5 : lil float := Lil (5, 1) [[]; []; []; []; []] [[]; []; []; []; []].
Definition empty33 : lil float := Lil (3, 3) [[]; []; []] [[]; []; []].
Definition block22 : index :=
  IPair (ASlice (Some 0) (Some 2) None) (ASlice (Some 0) (Some 2) None).
Definition sparse7 : lil float := Lil (1, 1) [[0]] [[7%float]].

(** ** The matrix, as an object in a store

    [self.rows] and [self.data] are references to two numpy object arrays,
    and every slot of such an array is a reference to a Python list.  The
    store keeps the four kinds of objects apart; a reference is a position
    in the part of the store for its kind.  Python has no dangling
    reference: where a definition below must say what happens at one, it
    raises or takes the empty list, and no theorem depends on it. *)
Module Shared.

Record store (T : Type) : Type := Store {
  row_arrays : list (list nat);
  dat_arrays : list (list nat);
  col_lists : list (list Z);
  val_lists : list (list T)
}.
Arguments Store {T} row_arrays dat_arrays col_lists val_lists.
Arguments row_arrays {T} s.
Arguments dat_arrays {T} s.
Arguments col_lists {T} s.
Arguments val_lists {T} s.

(** A [lil_matrix] object: its shape and the two references it holds. *)
Record obj : Type := Obj {
  o_shape : Z * Z;
  o_rows : nat;
  o_data : nat
}.

Section Store.
Context {T : Type} `{DT : Dtype T}.
Implicit Types (h : store T) (b : obj).

(** The matrix an object stands for. *)
Definition contents (b : obj) (h : store T) : option (lil T) :=
  ra ← row_arrays h !! o_rows b;
  da ← dat_arrays h !! o_data b;
  rs ← mapM (fun r => col_lists h !! r) ra;
  ds ← mapM (fun r => val_lists h !! r) da;
  Some (Lil (o_shape b) rs ds).

(** [lil_matrix((M, N))]: two new arrays whose slots refer to new empty
    lists. *)
Definition lil_empty (M N : Z) (h : store T) : result (store T * obj) :=
  if M <? 0 then Raise ValueError else
  let n := Z.to_nat M in
  let h' := Store (row_arrays h ++ [seq (length (col_lists h)) n])
                  (dat_arrays h ++ [seq (length (val_lists h)) n])
                  (col_lists h ++ replicate n [])
                  (val_lists h ++ replicate n []) in
  Ok (h', Obj (M, N) (length (row_arrays h)) (length (dat_arrays h))).

(** [copy.deepcopy] of an object array: every list is copied once, and two
    slots that refer to one list refer to one copy (the memo). *)
Fixpoint memo_find (memo : list (nat * nat)) (r : nat) : option nat :=
  match memo with
  | [] => None
  | p :: memo' => if (fst p =? r)%nat then Some (snd p) else memo_find memo' r
  end.

Fixpoint deepcopy_slots {A : Type} (lists : list (list A)) (memo : list (nat * nat))
  (slots : list nat) : list (list A) * list nat :=
  match slots with
  | [] => (lists, [])
  | r :: slots' =>
      match memo_find memo r with
      | Some r' =>
          let res := deepcopy_slots lists memo slots' in
          (fst res, r' :: snd res)
      | None =>
          let r' := length lists in
          let res := deepcopy_slots (lists ++ [default [] (lists !! r)])
                                    ((r, r') :: memo) slots' in
          (fst res, r' :: snd res)
      end
  end.

(** [copy]: the fresh matrix of [lil_matrix(self.shape)] gets deep copies
    of the two arrays, the data first. *)
Definition copy (b : obj) (h : store T) : result (store T * obj) :=
  '(h1, new) ← lil_empty (fst (o_shape b)) (snd (o_shape b)) h;
  match row_arrays h1 !! o_rows b, dat_arrays h1 !! o_data b with
  | Some ra, Some da =>
      let dc := deepcopy_slots (val_lists h1) [] da in
      let rc := deepcopy_slots (col_lists h1) [] ra in
      Ok (Store (row_arrays h1 ++ [snd rc]) (dat_arrays h1 ++ [snd dc]) (fst rc) (fst dc),
          Obj (o_shape new) (length (row_arrays h1)) (length (dat_arrays h1)))
  | _, _ => Raise IndexError
  end.

(** [tolil(copy)]: the object itself unless a copy is asked for. *)
Definition tolil (b : obj) (cp : bool) (h : store T) : result (store T * obj) :=
  if cp then copy b h else Ok (h, b).

(** [astype], inherited from the base class and not part of this file. *)
Variable astype : obj -> store T -> result (store T * obj).

(** [lil_matrix(S, dtype=..., copy=cp)] for a source [S] that is a
    [lil_matrix]: the new object takes the shape and the two references of
    [A], which is the source itself unless a copy or a dtype is given. *)
Definition lil_of_lil (s : obj) (with_dtype cp : bool) (h : store T)
  : result (store T * obj) :=
  '(h1, A) ← (if cp then copy s h else tolil s false h);
  '(h2, A) ← (if with_dtype then astype A h1 else Ok (h1, A));
  Ok (h2, Obj (o_shape A) (o_rows A) (o_data A)).

(** [self._insertat2(self.rows[ii], self.data[ii], jj, xx)] on the store:
    the two lists are changed in place. *)
Definition insert_cell (ii jj : Z) (xx : T) (b : obj) (h : store T) : outcome (store T) :=
  match row_arrays h !! o_rows b, dat_arrays h !! o_data b with
  | Some ra, Some da =>
      match np_resolve (length ra) ii, np_resolve (length da) ii with
      | Raise e, _ => Failed e h
      | Ok _, Raise e => Failed e h
      | Ok kr, Ok kd =>
          match ra !! kr, da !! kd with
          | Some rr, Some dr =>
              match col_lists h !! rr, val_lists h !! dr with
              | Some row, Some dat =>
                  let put (rd : list Z * list T) :=
                    Store (row_arrays h) (dat_arrays h)
                          (<[rr := fst rd]> (col_lists h))
                          (<[dr := snd rd]> (val_lists h)) in
                  match _insertat2 (snd (o_shape b)) row dat jj xx with
                  | Done rd => Done (put rd)
                  | Failed e rd => Failed e (put rd)
                  end
              | _, _ => Failed IndexError h
              end
          | _, _ => Failed IndexError h
          end
      end
  | _, _ => Failed IndexError h
  end.

(** [m[i, j] = x] for integers and a scalar is one turn of that loop (lemma
    [set_insert_cell] for matrices as values). *)
Definition set (b : obj) (i j : Z) (x : T) (h : store T) : outcome (store T) :=
  insert_cell i j x b h.

(** [m[:, :] = x] for a sparse [x], the shortcut of [__setitem__]:
    [x = lil_matrix(x, dtype=self.dtype); self.rows = x.rows;
     self.data = x.data].  The object [self] keeps its shape. *)
Definition setitem_whole (self x : obj) (h : store T) : result (store T * obj) :=
  '(h1, x') ← lil_of_lil x true false h;
  Ok (h1, Obj (o_shape self) (o_rows x') (o_data x')).

(** [getrowview(i)]: a new 1 x N matrix whose only slots are made to refer
    to the lists of row [i]. *)
Definition getrowview (b : obj) (i : Z) (h : store T) : result (store T * obj) :=
  '(h1, new) ← lil_empty 1 (snd (o_shape b)) h;
  match row_arrays h1 !! o_rows b, dat_arrays h1 !! o_data b with
  | Some ra, Some da =>
      rr ← np_index ra i;
      dr ← np_index da i;
      Ok (Store (alter (fun a => <[0%nat := rr]> a) (o_rows new) (row_arrays h1))
                (alter (fun a => <[0%nat := dr]> a) (o_data new) (dat_arrays h1))
                (col_lists h1) (val_lists h1), new)
  | _, _ => Raise IndexError
  end.

(** [getrow(i)]: a new 1 x N matrix whose only slots are made to refer to
    new lists, the copies [self.rows[i][:]] and [self.data[i][:]]. *)
Definition getrow (b : obj) (i : Z) (h : store T) : result (store T * obj) :=
  '(h1, new) ← lil_empty 1 (snd (o_shape b)) h;
  match row_arrays h1 !! o_rows b, dat_arrays h1 !! o_data b with
  | Some ra, Some da =>
      rr ← np_index ra i;
      match col_lists h1 !! rr with
      | None => Raise IndexError
      | Some row =>
          dr ← np_index da i;
          match val_lists h1 !! dr with
          | None => Raise IndexError
          | Some dat =>
              Ok (Store (alter (fun a => <[0%nat := length (col_lists h1)]> a)
                               (o_rows new) (row_arrays h1))
                        (alter (fun a => <[0%nat := length (val_lists h1)]> a)
                               (o_data new) (dat_arrays h1))
                        (col_lists h1 ++ [row]) (val_lists h1 ++ [dat]), new)
          end
      end
  | _, _ => Raise IndexError
  end.

(** An object whose references all refer to objects of the store. *)
Definition valid (b : obj) (h : store T) : Prop := is_Some (contents b h).

(** The lists an object reaches: the slots of its two arrays. *)
Definition col_refs (b : obj) (h : store T) : list nat :=
  default [] (row_arrays h !! o_rows b).

Definition val_refs (b : obj) (h : store T) : list nat :=
  default [] (dat_arrays h !! o_data b).

(** [h'] keeps every object of [h] where it is and as it is. *)
Definition extends (h h' : store T) : Prop :=
  row_arrays h `prefix_of` row_arrays h' /\ dat_arrays h `prefix_of` dat_arrays h' /\
  col_lists h `prefix_of` col_lists h' /\ val_lists h `prefix_of` val_lists h'.

(** The object [b] of [h'] reaches no list and no array that [h] has. *)
Definition fresh_for (h : store T) (b : obj) (h' : store T) : Prop :=
  (length (row_arrays h) <= o_rows b)%nat /\ (length (dat_arrays h) <= o_data b)%nat /\
  Forall (fun r => (length (col_lists h) <= r)%nat) (col_refs b h') /\
  Forall (fun r => (length (val_lists h) <= r)%nat) (val_refs b h').

(** What the full-matrix write needs of [astype] to leave the source alone:
    that it returns a matrix of its own, in a store that keeps the objects
    there were. *)
Definition returns_own_storage : Prop :=
  forall b h h' b',
    valid b h -> astype b h = Ok (h', b') ->
    extends h h' /\ valid b' h' /\ fresh_for h b' h'.

End Store.

(** A store with two 1 x 2 matrices: one with the entry 1.0 at column 0,
    one empty. *)
Definition one_row_store : store float :=
  Store [[0%nat]; [1%nat]] [[0%nat]; [1%nat]] [[0]; []] [[1%float]; []].
Definition one_row : obj := Obj (1, 2) 0 0.
Definition other_row : obj := Obj (1, 2) 1 1.

End Shared.

(** * Properties *)

(** ** Binary search *)

(** Strictly increasing lists, by positions. *)
Lemma sorted_lookup_lt (a : list Z) (i k : nat) (u v : Z) :
  StronglySorted Z.lt a -> (i < k)%nat -> a !! i = Some u -> a !! k = Some v -> u < v.
Proof.
  intros Hs. revert i k. induction Hs as [|c a Hs IH Hc]; intros i k Hik Hi Hk.
  - by rewrite lookup_nil in Hi.
  - destruct k as [|k]; [lia|]. destruct i as [|i]; simpl in *.
    + injection Hi as <-. rewrite Forall_forall in Hc. apply Hc.
      eapply list_elem_of_lookup_2; eauto.
    + apply (IH i k); [lia|done|done].
Qed.

Lemma bisect_loop_splits (fuel : nat) (a : list Z) (x : Z) (lo hi : nat) :
  StronglySorted Z.lt a ->
  (lo <= hi <= length a)%nat -> (hi - lo <= fuel)%nat ->
  (forall k v, (k < lo)%nat -> a !! k = Some v -> v < x) ->
  (forall k v, (hi <= k)%nat -> a !! k = Some v -> x <= v) ->
  splits_at a x (bisect_loop fuel a x lo hi).
Proof.
  intros Hs. revert lo hi.
  induction fuel as [|fuel IH]; intros lo hi Hb Hf Hlo Hhi; cbn [bisect_loop].
  - assert (lo = hi) as -> by lia. repeat split; auto; lia.
  - destruct (Nat.ltb_spec lo hi) as [Hlt|Hge].
    2:{ assert (lo = hi) as -> by lia. repeat split; auto; lia. }
    pose proof (Nat.div_mod_eq (lo + hi) 2) as Hd.
    pose proof (Nat.mod_upper_bound (lo + hi) 2 ltac:(lia)) as Hm.
    set (mid := ((lo + hi) / 2)%nat) in *.
    assert (lo <= mid < hi)%nat as Hmid by lia.
    destruct (lookup_lt_is_Some_2 a mid ltac:(lia)) as [v Hv]. rewrite Hv.
    destruct (Z.ltb_spec v x) as [Hvx|Hvx].
    + apply IH; auto; try lia.
      intros k u Hk Hu. destruct (decide (k = mid)) as [->|Hne].
      * congruence.
      * pose proof (sorted_lookup_lt a k mid u v Hs ltac:(lia) Hu Hv). lia.
    + apply IH; auto; try lia.
      intros k u Hk Hu. destruct (decide (k = mid)) as [->|Hne].
      * assert (u = v) by congruence. lia.
      * pose proof (sorted_lookup_lt a mid k v u Hs ltac:(lia) Hv Hu). lia.
Qed.

Lemma bisect_left_splits (a : list Z) (x : Z) :
  StronglySorted Z.lt a -> splits_at a x (bisect_left a x).
Proof.
  intros Hs. apply bisect_loop_splits; auto; try lia.
  intros k v Hk Hv. apply lookup_lt_Some in Hv. lia.
Qed.

(** The loop stops by itself: any fuel that covers the interval gives the
    same position, so the fuel of [bisect_left] never runs out. *)
Lemma bisect_loop_enough_fuel (a : list Z) (x : Z) (fuel1 fuel2 lo hi : nat) :
  (hi - lo <= fuel1)%nat -> (hi - lo <= fuel2)%nat ->
  bisect_loop fuel1 a x lo hi = bisect_loop fuel2 a x lo hi.
Proof.
  revert fuel2 lo hi. induction fuel1 as [|fuel1 IH]; intros fuel2 lo hi H1 H2.
  - destruct fuel2 as [|fuel2]; [done|]. cbn [bisect_loop].
    by replace (lo <? hi)%nat with false by (symmetry; apply Nat.ltb_ge; lia).
  - destruct fuel2 as [|fuel2]; cbn [bisect_loop].
    + by replace (lo <? hi)%nat with false by (symmetry; apply Nat.ltb_ge; lia).
    + destruct (Nat.ltb_spec lo hi) as [Hlt|Hge]; [|done].
      pose proof (Nat.div_mod_eq (lo + hi) 2) as Hd.
      pose proof (Nat.mod_upper_bound (lo + hi) 2 ltac:(lia)) as Hm.
      set (mid := ((lo + hi) / 2)%nat) in *.
      destruct (a !! mid) as [v|]; [|done].
      destruct (v <? x); apply IH; lia.
Qed.

Lemma bisect_left_splits_witness : splits_at [1; 3; 5] 3 (bisect_left [1; 3; 5] 3).
Proof. apply bisect_left_splits. repeat constructor; lia. Defined.

Section Rows.
Context {T : Type} `{DT : Dtype T}.
Implicit Types (row : list Z) (dat : list T).

Lemma bisect_cut row j :
  StronglySorted Z.lt row ->
  (bisect_left row j <= length row)%nat /\
  Forall (fun c => c < j) (take (bisect_left row j) row) /\
  Forall (fun c => j <= c) (drop (bisect_left row j) row).
Proof.
  intros Hs. destruct (bisect_left_splits row j Hs) as (Hp & Hlo & Hhi).
  split; [done|]. split; apply Forall_lookup; intros k v Hk.
  - apply lookup_take_Some in Hk as [Hk ?]. eauto.
  - rewrite lookup_drop in Hk. eapply Hhi; [|done]. lia.
Qed.

Lemma lookup_col_app row1 row2 dat1 dat2 j :
  length dat1 = length row1 ->
  lookup_col (row1 ++ row2) (dat1 ++ dat2) j =
  match lookup_col row1 dat1 j with
  | Some v => Some v
  | None => lookup_col row2 dat2 j
  end.
Proof.
  revert dat1. induction row1 as [|c row1 IH]; intros [|v dat1] Hl; simplify_eq/=; auto.
  destruct (c =? j); auto.
Qed.

Lemma lookup_col_absent row dat j :
  Forall (fun c => c <> j) row -> lookup_col row dat j = None.
Proof.
  intros Hr. revert dat. induction Hr as [|c row Hc Hr IH]; intros [|v dat]; simpl; auto.
  destruct (Z.eqb_spec c j); [done|auto].
Qed.

Lemma lookup_col_Some row dat j v :
  lookup_col row dat j = Some v ->
  exists k, row !! k = Some j /\ dat !! k = Some v.
Proof.
  revert dat. induction row as [|c row IH]; intros [|u dat] Hl; simplify_eq/=.
  destruct (Z.eqb_spec c j) as [->|Hne].
  - exists 0%nat. by simplify_eq.
  - destruct (IH _ Hl) as (k & ? & ?). by exists (S k).
Qed.

Lemma lookup_col_at row dat k j v :
  StronglySorted Z.lt row -> row !! k = Some j -> dat !! k = Some v ->
  lookup_col row dat j = Some v.
Proof.
  intros Hs. revert dat k. induction Hs as [|c row Hs IH Hc]; intros [|u dat] [|k] Hr Hd;
    simplify_eq/=.
  - by rewrite Z.eqb_refl.
  - destruct (Z.eqb_spec c j) as [->|Hne]; [|eauto].
    rewrite Forall_forall in Hc. apply list_elem_of_lookup_2 in Hr. apply Hc in Hr. lia.
Qed.

Lemma sorted_tail_above c row :
  StronglySorted Z.lt (c :: row) -> forall j, j <= c -> Forall (fun c' => j < c') row.
Proof.
  intros Hs j Hj. apply StronglySorted_inv in Hs as [_ Hc].
  eapply Forall_impl; [exact Hc|]. simpl. intros; lia.
Qed.

(** The two ways a call of [_insertat2] with a column in range goes: the
    column is absent from the row, or it is stored at the place found. *)
Lemma insertat2_cases N row dat j x :
  row_inv row dat -> 0 <= wrap N j < N ->
  exists r1 r2 d1 d2,
    row = r1 ++ r2 /\ dat = d1 ++ d2 /\ length d1 = length r1 /\
    Forall (fun c => c < wrap N j) r1 /\
    ((Forall (fun c => wrap N j < c) r2 /\
      _insertat2 N row dat j x =
        Done (if nonzero x then (r1 ++ wrap N j :: r2, d1 ++ x :: d2) else (row, dat)))
     \/
     (exists v r2' d2',
        r2 = wrap N j :: r2' /\ d2 = v :: d2' /\
        Forall (fun c => wrap N j < c) r2' /\
        _insertat2 N row dat j x =
          Done (if nonzero x then (row, d1 ++ x :: d2') else (r1 ++ r2', d1 ++ d2')))).
Proof.
  intros (Hs & Hl & Hnz) Hj.
  destruct (bisect_cut row (wrap N j) Hs) as (Hp & Hlo & Hhi).
  unfold _insertat2. fold (wrap N j).
  set (p := bisect_left row (wrap N j)) in *.
  replace ((wrap N j <? 0) || (N <=? wrap N j)) with false
    by (symmetry; apply orb_false_iff; split; [apply Z.ltb_ge|apply Z.leb_gt]; lia).
  exists (take p row), (drop p row), (take p dat), (drop p dat).
  rewrite !take_drop, !length_take, Hl.
  split; [done|]. split; [done|]. split; [done|]. split; [done|].
  destruct (row !! p) as [c|] eqn:Hc.
  - pose proof (lookup_lt_Some _ _ _ Hc) as Hlt.
    destruct (lookup_lt_is_Some_2 dat p ltac:(lia)) as [v Hv].
    pose proof (drop_S _ _ _ Hc) as Hdr. pose proof (drop_S _ _ _ Hv) as Hdd.
    assert (StronglySorted Z.lt (c :: drop (S p) row)) as Hs2.
    { rewrite <- Hdr. rewrite <- (take_drop p row) in Hs.
      by apply StronglySorted_app_1_r in Hs. }
    assert (wrap N j <= c) as Hle.
    { rewrite Hdr in Hhi. by apply Forall_cons in Hhi as [? _]. }
    replace (p =? length row)%nat with false by (symmetry; apply Nat.eqb_neq; lia).
    replace (p <? length row)%nat with true by (symmetry; apply Nat.ltb_lt; lia).
    destruct (Z.eqb_spec c (wrap N j)) as [->|Hne].
    + right. exists v, (drop (S p) row), (drop (S p) dat).
      split; [done|]. split; [done|].
      split; [by eapply sorted_tail_above|].
      simpl. unfold py_setitem, py_del.
      replace (p <? length dat)%nat with true by (symmetry; apply Nat.ltb_lt; lia).
      replace (p <? length row)%nat with true by (symmetry; apply Nat.ltb_lt; lia).
      rewrite insert_take_drop by lia. rewrite !delete_take_drop.
      by destruct (nonzero x).
    + left. split.
      { rewrite Hdr. apply Forall_cons. split; [lia|].
        eapply sorted_tail_above; [done|]. lia. }
      simpl. by destruct (nonzero x).
  - apply lookup_ge_None in Hc. assert (p = length row) as Hpe by lia.
    left. rewrite Hpe at 1. rewrite drop_all. split; [done|].
    replace (p =? length row)%nat with true by (symmetry; apply Nat.eqb_eq; lia).
    replace (p <? length row)%nat with false by (symmetry; apply Nat.ltb_ge; lia).
    simpl. rewrite Hpe. rewrite <- Hl at 3 4. rewrite !take_ge, !drop_all by lia.
    by destruct (nonzero x).
Qed.

Lemma Forall_lt_ne (j : Z) row : Forall (fun c => c < j) row -> Forall (fun c => c <> j) row.
Proof. intros Hr. eapply Forall_impl; [exact Hr|]. simpl. intros; lia. Qed.

Lemma Forall_gt_ne (j : Z) row : Forall (fun c => j < c) row -> Forall (fun c => c <> j) row.
Proof. intros Hr. eapply Forall_impl; [exact Hr|]. simpl. intros; lia. Qed.

Lemma sorted_around (j : Z) r1 r2 :
  StronglySorted Z.lt r1 -> StronglySorted Z.lt r2 ->
  Forall (fun c => c < j) r1 -> Forall (fun c => j < c) r2 ->
  StronglySorted Z.lt (r1 ++ j :: r2).
Proof.
  intros H1 H2 Hlo Hhi. apply StronglySorted_app. split; [|split; [done|]].
  - intros x1 x2 Hx1 Hx2. rewrite Forall_forall in Hlo, Hhi.
    apply Hlo in Hx1. apply elem_of_cons in Hx2 as [->|Hx2]; [done|].
    apply Hhi in Hx2. lia.
  - apply SSorted_cons; [done|]. done.
Qed.

Lemma sorted_without (j : Z) r1 r2 :
  StronglySorted Z.lt (r1 ++ j :: r2) -> StronglySorted Z.lt (r1 ++ r2).
Proof.
  rewrite !StronglySorted_app. intros (Hx & H1 & H2).
  apply StronglySorted_inv in H2 as [H2 _]. split; [|done].
  intros x1 x2 ? ?. apply Hx; [done|]. by apply elem_of_cons; right.
Qed.

(** [_insertat2] on a row that satisfies the invariant, with a column in
    range: it returns, the row satisfies the invariant again, and read as a
    map from columns to values the row is updated at the one column. *)
Lemma insertat2_spec N row dat j x :
  row_inv row dat -> 0 <= wrap N j < N ->
  exists row' dat',
    _insertat2 N row dat j x = Done (row', dat') /\
    row_inv row' dat' /\
    (forall j', lookup_col row' dat' j' =
                if j' =? wrap N j then (if nonzero x then Some x else None)
                else lookup_col row dat j') /\
    (cols_below N row -> cols_below N row') /\
    length row' =
      (if nonzero x
       then match lookup_col row dat (wrap N j) with
            | Some _ => length row
            | None => S (length row)
            end
       else match lookup_col row dat (wrap N j) with
            | Some _ => pred (length row)
            | None => length row
            end).
Proof.
  intros Hinv Hj.
  destruct (insertat2_cases N row dat j x Hinv Hj)
    as (r1 & r2 & d1 & d2 & -> & -> & Hl1 & Hlo & Hcase).
  destruct Hinv as (Hs & Hl & Hnz).
  rewrite !length_app in Hl.
  apply StronglySorted_app in Hs as Hs'. destruct Hs' as (_ & Hs1 & Hs2).
  apply Forall_app in Hnz as Hnz'. destruct Hnz' as [Hnz1 Hnz2].
  assert (lookup_col r1 d1 (wrap N j) = None) as Hn1
    by (apply lookup_col_absent; by apply Forall_lt_ne).
  destruct Hcase as [(Hhi & ->)|(v & r2' & d2' & -> & -> & Hhi & ->)].
  - assert (lookup_col r2 d2 (wrap N j) = None) as Hn2
      by (apply lookup_col_absent; by apply Forall_gt_ne).
    assert (lookup_col (r1 ++ r2) (d1 ++ d2) (wrap N j) = None) as Hn
      by (rewrite lookup_col_app, Hn1, Hn2; done).
    rewrite Hn.
    destruct (nonzero x) eqn:Hx; eexists _, _; (split; [reflexivity|]).
    + split; [|split; [|split]].
      * split; [by apply sorted_around|]. split.
        { rewrite !length_app; simpl. lia. }
        apply Forall_app; split; [done|]. by apply Forall_cons.
      * intros j'. rewrite !lookup_col_app by done. simpl.
        destruct (lookup_col r1 d1 j') eqn:E1.
        { destruct (Z.eqb_spec j' (wrap N j)) as [->|]; [congruence|done]. }
        rewrite (Z.eqb_sym j'). by destruct (wrap N j =? j').
      * unfold cols_below. rewrite !Forall_app, Forall_cons. tauto.
      * rewrite !length_app; simpl. lia.
    + split; [|split; [|split]].
      * split; [done|]. split; [rewrite !length_app; lia|done].
      * intros j'. destruct (Z.eqb_spec j' (wrap N j)) as [->|]; done.
      * done.
      * done.
  - simpl in Hl. apply Forall_cons in Hnz2 as [Hv Hnz2].
    assert (lookup_col (r1 ++ wrap N j :: r2') (d1 ++ v :: d2') (wrap N j) = Some v) as Hn
      by (rewrite lookup_col_app, Hn1 by done; simpl; by rewrite Z.eqb_refl).
    rewrite Hn.
    destruct (nonzero x) eqn:Hx; eexists _, _; (split; [reflexivity|]).
    + split; [|split; [|split]].
      * split; [done|]. split; [rewrite !length_app; simpl; lia|].
        apply Forall_app; split; [done|]. by apply Forall_cons.
      * intros j'. rewrite !lookup_col_app by done. simpl.
        destruct (lookup_col r1 d1 j') eqn:E1.
        { destruct (Z.eqb_spec j' (wrap N j)) as [->|]; [congruence|done]. }
        rewrite (Z.eqb_sym j'). by destruct (wrap N j =? j').
      * done.
      * done.
    + assert (lookup_col r2' d2' (wrap N j) = None) as Hn2
        by (apply lookup_col_absent; by apply Forall_gt_ne).
      split; [|split; [|split]].
      * split; [by eapply sorted_without|]. split; [rewrite !length_app; lia|].
        by apply Forall_app.
      * intros j'. rewrite !lookup_col_app by done. simpl.
        destruct (lookup_col r1 d1 j') eqn:E1.
        { destruct (Z.eqb_spec j' (wrap N j)) as [->|]; [congruence|done]. }
        rewrite (Z.eqb_sym j').
        destruct (Z.eqb_spec (wrap N j) j') as [<-|]; done.
      * unfold cols_below. rewrite !Forall_app, Forall_cons. tauto.
      * rewrite !length_app; simpl. lia.
Qed.

Lemma get1_row_spec row dat j :
  row_inv row dat -> get1_row row dat j = Ok (default zero (lookup_col row dat j)).
Proof.
  intros (Hs & Hl & Hnz). unfold get1_row.
  destruct (bisect_cut row j Hs) as (Hp & Hlo & Hhi).
  set (p := bisect_left row j) in *.
  assert (lookup_col (take p row) (take p dat) j = None) as Hn1
    by (apply lookup_col_absent; by apply Forall_lt_ne).
  assert (lookup_col row dat j = lookup_col (drop p row) (drop p dat) j) as ->.
  { rewrite <- (take_drop p row), <- (take_drop p dat) at 1.
    rewrite lookup_col_app, Hn1 by (rewrite !length_take; lia). done. }
  destruct (row !! p) as [c|] eqn:Hc.
  - pose proof (lookup_lt_Some _ _ _ Hc) as Hlt.
    destruct (lookup_lt_is_Some_2 dat p ltac:(lia)) as [v Hv].
    replace (p =? length dat)%nat with false by (symmetry; apply Nat.eqb_neq; lia).
    unfold py_index. rewrite Hc. simpl.
    rewrite (drop_S _ _ _ Hc), (drop_S _ _ _ Hv). simpl.
    destruct (Z.eqb_spec c j) as [->|Hne]; [by rewrite Hv|].
    rewrite lookup_col_absent; [done|].
    apply Forall_gt_ne. rewrite (drop_S _ _ _ Hc) in Hhi.
    apply Forall_cons in Hhi as [? _].
    eapply sorted_tail_above with (c := c); [|lia].
    rewrite <- (drop_S _ _ _ Hc). rewrite <- (take_drop p row) in Hs.
    by apply StronglySorted_app_1_r in Hs.
  - apply lookup_ge_None in Hc.
    replace (p =? length dat)%nat with true by (symmetry; apply Nat.eqb_eq; lia).
    rewrite drop_ge by lia. by destruct (drop p dat).
Qed.
End Rows.

Section Cells.
Context {T : Type} `{DT : Dtype T}.
Implicit Types (m : lil T).

Lemma wrap_range N j : - N <= j < N -> 0 <= wrap N j < N.
Proof. unfold wrap. destruct (Z.ltb_spec j 0); lia. Qed.

Lemma np_resolve_wrap (len : nat) (i : Z) :
  0 <= wrap (Z.of_nat len) i < Z.of_nat len ->
  np_resolve len i = Ok (Z.to_nat (wrap (Z.of_nat len) i)).
Proof.
  intros Hi. unfold np_resolve. fold (wrap (Z.of_nat len) i).
  replace ((wrap (Z.of_nat len) i <? 0) || (Z.of_nat len <=? wrap (Z.of_nat len) i))
    with false; [done|].
  symmetry; apply orb_false_iff; split; [apply Z.ltb_ge|apply Z.leb_gt]; lia.
Qed.

Lemma np_resolve_nonneg (len : nat) (i : Z) :
  0 <= i < Z.of_nat len -> np_resolve len i = Ok (Z.to_nat i).
Proof.
  intros Hi. rewrite np_resolve_wrap; unfold wrap;
    destruct (Z.ltb_spec i 0); try lia; done.
Qed.

Lemma set_insert_cell m i j x : set m i j x = insert_cell i j x m.
Proof.
  unfold set, __setitem__, setitem_dense, insert_same. simpl.
  by destruct (insert_cell i j x m).
Qed.

Lemma get_get1 m i j : get m i j = GScalar <$> _get1 m i j.
Proof. reflexivity. Qed.

Lemma get1_spec m i j :
  lil_inv m -> in_range m i j ->
  _get1 m i j = Ok (entry m (row_of m i) (col_of m j)).
Proof.
  intros [Hsh Hrows] [Hi Hj]. unfold _get1, row_of, col_of.
  fold (wrap (fst (shape m)) i). fold (wrap (snd (shape m)) j).
  pose proof (wrap_range _ _ Hi) as Hi'. pose proof (wrap_range _ _ Hj) as Hj'.
  set (ri := wrap (fst (shape m)) i) in *. set (rj := wrap (snd (shape m)) j) in *.
  replace ((ri <? 0) || (fst (shape m) <=? ri)) with false
    by (symmetry; apply orb_false_iff; split; [apply Z.ltb_ge|apply Z.leb_gt]; lia).
  replace ((rj <? 0) || (snd (shape m) <=? rj)) with false
    by (symmetry; apply orb_false_iff; split; [apply Z.ltb_ge|apply Z.leb_gt]; lia).
  pose proof (Forall2_length _ _ _ Hrows) as Hlen.
  unfold np_index. rewrite !np_resolve_nonneg by lia. simpl.
  destruct (lookup_lt_is_Some_2 (rows m) (Z.to_nat ri) ltac:(lia)) as [row Hrow].
  destruct (lookup_lt_is_Some_2 (data m) (Z.to_nat ri) ltac:(lia)) as [dat Hdat].
  unfold entry. rewrite Hrow, Hdat. simpl.
  apply (get1_row_spec row dat rj). eapply Forall2_lookup_lr; eauto.
Qed.

(** [insert_cell] on a matrix that satisfies the invariant, at a cell in
    range. *)
Lemma insert_cell_spec m i j x :
  lil_inv m -> in_range m i j ->
  exists m',
    insert_cell i j x m = Done m' /\
    lil_inv m' /\
    shape m' = shape m /\
    (forall i' j', entry m' i' j' =
       if bool_decide (i' = row_of m i) && (j' =? col_of m j)
       then (if nonzero x then x else zero) else entry m i' j') /\
    (forall i', i' <> row_of m i ->
       rows m' !! i' = rows m !! i' /\ data m' !! i' = data m !! i') /\
    (Forall (cols_below (snd (shape m))) (rows m) ->
     Forall (cols_below (snd (shape m))) (rows m')) /\
    exists row dat row' dat',
      rows m !! row_of m i = Some row /\ data m !! row_of m i = Some dat /\
      rows m' !! row_of m i = Some row' /\ data m' !! row_of m i = Some dat' /\
      _insertat2 (snd (shape m)) row dat j x = Done (row', dat').
Proof.
  intros [Hsh Hrows] [Hi Hj]. unfold insert_cell, row_of, col_of.
  pose proof (wrap_range _ _ Hi) as Hi'. pose proof (wrap_range _ _ Hj) as Hj'.
  pose proof (Forall2_length _ _ _ Hrows) as Hlen.
  set (k := Z.to_nat (wrap (fst (shape m)) i)) in *.
  assert (np_resolve (length (rows m)) i = Ok k) as Hk
    by (rewrite np_resolve_wrap; rewrite Hsh; done).
  rewrite <- Hlen, Hk.
  destruct (lookup_lt_is_Some_2 (rows m) k ltac:(lia)) as [row Hrow].
  destruct (lookup_lt_is_Some_2 (data m) k ltac:(lia)) as [dat Hdat].
  rewrite Hrow, Hdat.
  assert (row_inv row dat) as Hinv by (eapply Forall2_lookup_lr; eauto).
  destruct (insertat2_spec (snd (shape m)) row dat j x Hinv Hj')
    as (row' & dat' & Hins & Hinv' & Hlk & Hcb & _).
  rewrite Hins. eexists. split; [reflexivity|]. simpl.
  split; [|split; [done|split; [|split; [|split]]]].
  - split; simpl; [by rewrite length_insert|]. by apply Forall2_insert.
  - intros i' j'. unfold entry. simpl.
    destruct (decide (i' = k)) as [->|Hne].
    + rewrite bool_decide_eq_true_2 by done.
      rewrite !list_lookup_insert_eq by lia. rewrite Hrow, Hdat, Hlk. simpl.
      destruct (j' =? wrap (snd (shape m)) j); [|done].
      by destruct (nonzero x).
    + rewrite bool_decide_eq_false_2 by done.
      by rewrite !list_lookup_insert_ne by done.
  - intros i' Hne. by rewrite !list_lookup_insert_ne by done.
  - intros Hall. apply Forall_insert; [done|]. apply Hcb.
    eapply Forall_lookup_1; eauto.
  - exists row, dat, row', dat'.
    by rewrite !list_lookup_insert_eq by lia.
Qed.
End Cells.

Section Claims.
Context {T : Type} `{DT : Dtype T}.
Implicit Types (m : lil T).

Lemma sorted_NoDup (row : list Z) : StronglySorted Z.lt row -> NoDup row.
Proof.
  induction 1 as [|c row Hs IH Hc]; [apply NoDup_nil_2|].
  apply NoDup_cons_2; [|done]. intros Hin.
  rewrite Forall_forall in Hc. apply Hc in Hin. lia.
Qed.

Lemma row_inv_stated (row : list Z) (dat : list T) : row_inv row dat -> row_stated row dat.
Proof.
  intros (Hs & Hl & Hnz). split; [done|]. split; [by apply sorted_NoDup|]. split; [done|].
  eapply Forall_impl; [exact Hnz|]. simpl. intros v Hv ->.
  rewrite nonzero_zero in Hv. discriminate.
Qed.

Lemma lookup_col_None (row : list Z) (dat : list T) j :
  length dat = length row -> lookup_col row dat j = None <-> j ∉ row.
Proof.
  revert dat. induction row as [|c row IH]; intros [|v dat] Hl; simplify_eq/=.
  - split; [intros _; apply not_elem_of_nil|done].
  - rewrite not_elem_of_cons. destruct (Z.eqb_spec c j) as [->|Hne].
    + split; [done|]. intros [? _]; done.
    + rewrite IH by done. split; [intros ?; split; [congruence|done]|tauto].
Qed.

Lemma lil_empty_inv M N m : lil_empty M N = Ok m -> lil_inv m /\ shape m = (M, N).
Proof.
  unfold lil_empty. destruct (Z.ltb_spec M 0); [done|]. intros [= <-]. split; [|done].
  split; simpl; [rewrite length_replicate; lia|].
  apply Forall2_replicate. repeat split; [constructor|constructor].
Qed.

Lemma in_range_shape m m' i j : shape m' = shape m -> in_range m i j -> in_range m' i j.
Proof. unfold in_range. by intros ->. Qed.

Lemma set_all_inv m (calls : list (Z * Z * T)) :
  lil_inv m ->
  Forall (fun c => in_range m (fst (fst c)) (snd (fst c))) calls ->
  exists m', set_all calls m = Done m' /\ shape m' = shape m /\ lil_inv m'.
Proof.
  revert m. induction calls as [|[[i j] x] calls IH]; intros m Hinv Hr.
  - by exists m.
  - apply Forall_cons in Hr as [Hc Hr]. simpl in Hc.
    destruct (insert_cell_spec m i j x Hinv Hc) as (m1 & H1 & Hinv1 & Hsh1 & _).
    destruct (IH m1 Hinv1) as (m' & H' & Hsh' & Hinv').
    { eapply Forall_impl; [exact Hr|]. intros c. apply in_range_shape. done. }
    exists m'. unfold set_all in *. cbn [for_each]. simpl fst; simpl snd.
    rewrite set_insert_cell, H1. simpl. split; [done|]. split; [congruence|done].
Qed.

(** The columns of a matrix stay inside its shape under [set], and are
    inside it in the empty matrix. *)
Lemma set_all_cols m (calls : list (Z * Z * T)) m' :
  lil_inv m ->
  Forall (fun c => in_range m (fst (fst c)) (snd (fst c))) calls ->
  Forall (cols_below (snd (shape m))) (rows m) ->
  set_all calls m = Done m' ->
  Forall (cols_below (snd (shape m'))) (rows m').
Proof.
  revert m. induction calls as [|[[i j] x] calls IH]; intros m Hinv Hr Hc Hs.
  - by injection Hs as <-.
  - apply Forall_cons in Hr as [Hc1 Hr]. simpl in Hc1.
    destruct (insert_cell_spec m i j x Hinv Hc1)
      as (m1 & H1 & Hinv1 & Hsh1 & _ & _ & Hcols & _).
    unfold set_all in Hs. cbn [for_each] in Hs. simpl fst in Hs; simpl snd in Hs.
    rewrite set_insert_cell, H1 in Hs. simpl in Hs.
    apply (IH m1); [done| |by rewrite Hsh1; apply Hcols|done].
    eapply Forall_impl; [exact Hr|]. intros c. by apply in_range_shape.
Qed.

Lemma lil_empty_cols M N m :
  lil_empty M N = Ok m -> Forall (cols_below (snd (shape m))) (rows m).
Proof.
  unfold lil_empty. destruct (M <? 0); [done|]. intros [= <-]. simpl.
  apply Forall_replicate. constructor.
Qed.

(** C1.  On a matrix whose rows satisfy the invariant, every finite sequence
    of [set(i, j, x)] calls whose indices are in range, negative ones
    included, runs to its end, and afterwards every row's column list is
    strictly increasing without duplicates, its value list has the length of
    its column list, and no stored value is the zero of the element type. *)
Theorem set_calls_keep_rows_sorted m (calls : list (Z * Z * T)) :
  lil_inv m ->
  Forall (fun c => in_range m (fst (fst c)) (snd (fst c))) calls ->
  exists m',
    set_all calls m = Done m' /\ lil_inv m' /\
    Forall2 row_stated (rows m') (data m').
Proof.
  intros Hinv Hr. destruct (set_all_inv m calls Hinv Hr) as (m' & H' & _ & Hinv').
  exists m'. split; [done|]. split; [done|].
  eapply Forall2_impl; [apply Hinv'|]. apply row_inv_stated.
Qed.

(** C2.  After [set(i, j, x)] with indices in range and [x] not zero,
    [get(i, j)] returns [x]. *)
Theorem get_after_set m i j x :
  lil_inv m -> in_range m i j -> nonzero x = true ->
  exists m', set m i j x = Done m' /\ get m' i j = Ok (GScalar x).
Proof.
  intros Hinv Hr Hx.
  destruct (insert_cell_spec m i j x Hinv Hr) as (m' & H' & Hinv' & Hsh & He & _).
  exists m'. rewrite set_insert_cell. split; [done|].
  rewrite get_get1, get1_spec by (try done; by eapply in_range_shape).
  unfold row_of, col_of. rewrite Hsh. fold (row_of m i). fold (col_of m j).
  rewrite He, bool_decide_eq_true_2, Z.eqb_refl, Hx by done. done.
Qed.

(** C9.  After [set(i, j, zero)] with indices in range, [get(i, j)] returns
    zero, the column is in no stored pair of row [i], and the two lists of
    the row are one shorter when the column was stored and as long as before
    when it was not. *)
Theorem set_zero_erases m i j :
  lil_inv m -> in_range m i j ->
  exists m' row dat row' dat',
    set m i j zero = Done m' /\
    get m' i j = Ok (GScalar zero) /\
    rows m !! row_of m i = Some row /\ data m !! row_of m i = Some dat /\
    rows m' !! row_of m i = Some row' /\ data m' !! row_of m i = Some dat' /\
    (col_of m j ∉ row') /\
    lookup_col row' dat' (col_of m j) = None /\
    length dat' = length row' /\
    (col_of m j ∈ row -> S (length row') = length row) /\
    (col_of m j ∉ row -> length row' = length row).
Proof.
  intros Hinv Hr.
  destruct (insert_cell_spec m i j zero Hinv Hr)
    as (m' & H' & Hinv' & Hsh & He & _ & _ & row & dat & row' & dat' & Hrow & Hdat &
        Hrow' & Hdat' & Hins).
  exists m', row, dat, row', dat'. rewrite set_insert_cell.
  split; [done|]. split.
  { rewrite get_get1, get1_spec by (try done; by eapply in_range_shape).
    unfold row_of, col_of. rewrite Hsh. fold (row_of m i). fold (col_of m j).
    by rewrite He, bool_decide_eq_true_2, Z.eqb_refl, nonzero_zero by done. }
  do 4 (split; [done|]).
  assert (row_inv row dat) as Hri
    by (eapply Forall2_lookup_lr; [apply Hinv|done|done]).
  destruct Hr as [_ Hj]. apply wrap_range in Hj.
  destruct (insertat2_spec (snd (shape m)) row dat j zero Hri Hj)
    as (row2 & dat2 & Hins2 & (Hs2 & Hl2 & _) & Hlk & _ & Hlen).
  rewrite Hins in Hins2. injection Hins2 as <- <-.
  rewrite nonzero_zero in Hlk, Hlen. fold (col_of m j) in Hlk, Hlen.
  assert (lookup_col row' dat' (col_of m j) = None) as Hnone
    by (by rewrite Hlk, Z.eqb_refl).
  split; [by apply (lookup_col_None row' dat')|]. split; [done|]. split; [done|].
  destruct Hri as (_ & Hl & _).
  destruct (lookup_col row dat (col_of m j)) eqn:E.
  - assert (col_of m j ∈ row) as Hin.
    { destruct (decide (col_of m j ∈ row)) as [|Hn]; [done|].
      apply (lookup_col_None row dat) in Hn; [congruence|done]. }
    split; [|done]. intros _. destruct row; [by apply elem_of_nil in Hin|simpl in *; lia].
  - apply (lookup_col_None row dat) in E; [|done]. split; [done|]. intros _. lia.
Qed.
(** X3.  A [set] changes one cell: [get] at every other cell in range returns
    what it returned before. *)
Lemma set_leaves_other_cells m i j x i' j' :
  lil_inv m -> in_range m i j -> in_range m i' j' ->
  (row_of m i', col_of m j') <> (row_of m i, col_of m j) ->
  exists m', set m i j x = Done m' /\ get m' i' j' = get m i' j'.
Proof.
  intros Hinv Hr Hr' Hne.
  destruct (insert_cell_spec m i j x Hinv Hr) as (m' & H' & Hinv' & Hsh & He & _).
  exists m'. rewrite set_insert_cell. split; [done|].
  rewrite !get_get1, !get1_spec by (try done; by eapply in_range_shape).
  unfold row_of, col_of. rewrite Hsh. fold (row_of m i'). fold (col_of m j').
  rewrite He.
  destruct (decide (row_of m i' = row_of m i)) as [Hi|Hi];
    [|by rewrite bool_decide_eq_false_2 by done].
  destruct (Z.eqb_spec (col_of m j') (col_of m j)) as [Hj|Hj];
    [|by rewrite andb_false_r].
  exfalso. apply Hne. congruence.
Qed.
End Claims.

Lemma m33_inv : lil_inv m33.
Proof.
  split; [reflexivity|].
  repeat (first [apply Forall2_nil_2 | apply Forall2_cons_2]);
    (split; [repeat constructor; lia|split; [reflexivity|repeat constructor]]).
Qed.

Lemma in_range_m33 i j : - 3 <= i < 3 -> - 3 <= j < 3 -> in_range m33 i j.
Proof. done. Qed.

Lemma get_after_set_witness :
  exists m', set m33 (-1) (-2) 9%float = Done m' /\
             get m' (-1) (-2) = Ok (GScalar 9%float).
Proof.
  apply (get_after_set m33 (-1) (-2) 9%float);
    [exact m33_inv|apply in_range_m33; lia|reflexivity].
Defined.

Lemma set_zero_erases_witness :
  exists m' row dat row' dat',
    set m33 0 2 zero = Done m' /\
    get m' 0 2 = Ok (GScalar zero) /\
    rows m33 !! row_of m33 0 = Some row /\ data m33 !! row_of m33 0 = Some dat /\
    rows m' !! row_of m33 0 = Some row' /\ data m' !! row_of m33 0 = Some dat' /\
    (col_of m33 2 ∉ row') /\
    lookup_col row' dat' (col_of m33 2) = None /\
    length dat' = length row' /\
    (col_of m33 2 ∈ row -> S (length row') = length row) /\
    (col_of m33 2 ∉ row -> length row' = length row).
Proof.
  apply (set_zero_erases m33 0 2); [exact m33_inv|apply in_range_m33; lia].
Defined.

Lemma set_leaves_other_cells_witness :
  exists m', set m33 0 1 9%float = Done m' /\ get m' 0 2 = get m33 0 2.
Proof.
  apply (set_leaves_other_cells m33 0 1 9%float 0 2);
    [exact m33_inv|apply in_range_m33; lia|apply in_range_m33; lia|].
  vm_compute. congruence.
Defined.

Lemma set_calls_keep_rows_sorted_witness :
  exists m',
    set_all [(0, -1, 5%float); (-3, 2, 0%float); (1, 1, 4%float)] m33 = Done m' /\
    lil_inv m' /\ Forall2 row_stated (rows m') (data m').
Proof.
  apply (set_calls_keep_rows_sorted m33); [exact m33_inv|].
  repeat constructor; vm_compute; congruence.
Defined.

Section Csr.
Context {T : Type} `{DT : Dtype T}.
Implicit Types (m : lil T).

Lemma intc_id z : - 2 ^ 31 <= z < 2 ^ 31 -> intc z = z.
Proof.
  intros Hz. unfold intc, wrap_signed.
  change (2 ^ (32 - 1)) with (2 ^ 31). change (2 ^ 32) with (2 * 2 ^ 31).
  rewrite Z.mod_small; lia.
Qed.

Lemma intp_id z : - 2 ^ 63 <= z < 2 ^ 63 -> intp z = z.
Proof.
  intros Hz. unfold intp, wrap_signed.
  change (2 ^ (64 - 1)) with (2 ^ 63). change (2 ^ 64) with (2 * 2 ^ 63).
  rewrite Z.mod_small; lia.
Qed.

Lemma map_intc_id (l : list Z) :
  Forall (fun c => - 2 ^ 31 <= c < 2 ^ 31) l -> map intc l = l.
Proof. induction 1 as [|c l Hc _ IH]; simpl; [done|]. by rewrite intc_id, IH. Qed.

(** The row starts, read off the array: consecutive entries differ by the
    length of the row between them. *)
Lemma cumsum_steps (rs : list (list Z)) (acc : Z) :
  0 <= acc -> acc + Z.of_nat (length (concat rs)) < 2 ^ 31 ->
  let starts := acc :: np_cumsum_from acc
                  (map (fun x : list Z => intc (Z.of_nat (length x))) rs) in
  length starts = S (length rs) /\
  (forall i row, rs !! i = Some row ->
     exists s, starts !! i = Some s /\
               starts !! S i = Some (s + Z.of_nat (length row))) /\
  last starts = Some (acc + Z.of_nat (length (concat rs))).
Proof.
  revert acc. induction rs as [|r rs IH]; intros acc Ha Hb; cbn zeta.
  - simpl. split; [done|]. split; [intros i row Hi; by rewrite lookup_nil in Hi|].
    f_equal. lia.
  - simpl in Hb. rewrite length_app in Hb.
    cbn [map np_cumsum_from].
    rewrite intc_id by lia. rewrite intp_id by lia.
    destruct (IH (acc + Z.of_nat (length r)) ltac:(lia) ltac:(lia)) as (Hl & Hs & Hlast).
    cbn zeta in Hl, Hs, Hlast.
    split; [simpl in *; lia|]. split.
    + intros [|i] row Hi; simpl in Hi.
      * injection Hi as <-. exists acc. done.
      * destruct (Hs i row Hi) as (s & H1 & H2). exists s. done.
    + rewrite last_cons, Hlast. simpl. rewrite length_app. f_equal. lia.
Qed.

Lemma getnnz_concat m :
  getnnz m = Z.of_nat (length (concat (data m))).
Proof.
  unfold getnnz. induction (data m) as [|d ds IH]; simpl; [done|].
  rewrite IH, length_app. lia.
Qed.

Lemma concat_length_Forall2 {A B : Type} (P : list A -> list B -> Prop)
  (xs : list (list A)) (ys : list (list B)) :
  (forall x y, P x y -> length y = length x) ->
  Forall2 P xs ys -> length (concat ys) = length (concat xs).
Proof.
  intros HP. induction 1 as [|x y xs ys Hxy _ IH]; simpl; [done|].
  rewrite !length_app, IH, (HP _ _ Hxy). done.
Qed.
End Csr.

(** C3 (amended).  For a matrix that satisfies the invariant and whose
    column indices and number of stored entries fit a C [int], [tocsr]
    hands over row starts that begin at 0, grow by the length of each row
    and end at the number of stored entries, the concatenation of the rows'
    column lists and the concatenation of their value lists; and in the
    scenario of the specification the count is 3 and the arrays are
    [0,2,3,3], [0,2,1] and [1.0,3.0,2.0]. *)
Theorem tocsr_concatenates_rows {T : Type} `{DT : Dtype T} (m : lil T) :
  lil_inv m -> fits_intc m ->
  (length (csr_indptr (tocsr m)) = S (length (rows m)) /\
   csr_indptr (tocsr m) !! 0%nat = Some 0 /\
   (forall i row, rows m !! i = Some row ->
      exists s, csr_indptr (tocsr m) !! i = Some s /\
                csr_indptr (tocsr m) !! S i = Some (s + Z.of_nat (length row))) /\
   last (csr_indptr (tocsr m)) = Some (getnnz m) /\
   csr_indices (tocsr m) = concat (rows m) /\
   csr_data (tocsr m) = concat (data m) /\
   csr_shape (tocsr m) = shape m) /\
  (exists m3, scenario = Ok (Done m3) /\ getnnz m3 = 3 /\
              tocsr m3 = Csr [1; 3; 2]%float [0; 2; 1] [0; 2; 3; 3] (3, 3)).
Proof.
  intros Hinv [Hcols Hcount]. split.
  - destruct (cumsum_steps (rows m) 0 ltac:(lia) ltac:(lia)) as (Hl & Hs & Hlast).
    cbn zeta in Hl, Hs, Hlast. unfold tocsr, np_cumsum. cbn [csr_indptr csr_indices csr_data csr_shape].
    split; [done|]. split; [done|]. split; [done|]. split.
    + rewrite Hlast, getnnz_concat. f_equal.
      rewrite (concat_length_Forall2 row_inv (rows m) (data m)); [lia| |apply Hinv].
      by intros x y (_ & ? & _).
    + split; [|done]. apply map_intc_id. by apply Forall_concat.
  - eexists. split; [reflexivity|]. split; reflexivity.
Qed.

Lemma tocsr_concatenates_rows_witness :
  csr_indices (tocsr m33) = concat (rows m33) /\
  last (csr_indptr (tocsr m33)) = Some 3.
Proof.
  destruct (tocsr_concatenates_rows m33) as [(_ & _ & _ & Hlast & Hind & _) _].
  - exact m33_inv.
  - split; [repeat constructor; lia|vm_compute; reflexivity].
  - split; [exact Hind|exact Hlast].
Defined.

(** A column index that needs more than 31 bits: the 1 x 2^32 matrix with
    one entry at column 2^31 is built by the constructor and one [set], and
    [tocsr] does not hand over its column list. *)
Lemma tocsr_wide_column_wraps :
  exists m0 m : lil float,
    lil_empty 1 (2 ^ 32) = Ok m0 /\ set m0 0 (2 ^ 31) 1%float = Done m /\
    lil_inv m /\ concat (rows m) = [2 ^ 31] /\
    csr_indices (tocsr m) <> concat (rows m).
Proof.
  eexists _, _. split; [reflexivity|]. split; [vm_compute; reflexivity|].
  split; [|split; [reflexivity|vm_compute; congruence]].
  split; [reflexivity|]. repeat constructor.
Qed.

Lemma slicetoseq_reversed_head (E : Z) :
  0 <= E -> head (_slicetoseq None None (Some (-1)) E) = Some E.
Proof.
  intros HE. unfold _slicetoseq, py_range, range_len.
  change (-1 =? 0) with false. cbv iota zeta.
  change (0 <? -1) with false. cbv iota.
  replace ((E - -1 - -1 - 1) / - -1) with (E + 1)
    by (change (- -1) with 1; rewrite Z.div_1_r; lia).
  rewrite Z2Nat.inj_add, Nat.add_1_r by lia.
  simpl. f_equal. lia.
Qed.

(** C4.  [_slicetoseq] on an axis of extent 5: the start -2 resolves to 3;
    the slice with step -1 and no bounds starts at the extent itself, so
    that it expands to 5,4,3,2,1,0 and not to 4,3,2,1,0, and its first
    index, 5, is outside [0, 5).  For every extent the first index of the
    reversed slice is the extent, and reading with the reversed slice
    raises [IndexError]. *)
Theorem slicetoseq_reversed_starts_at_extent :
  _slicetoseq (Some (-2)) None None 5 = [3; 4] /\
  _slicetoseq None None (Some (-1)) 5 = [5; 4; 3; 2; 1; 0] /\
  (forall E, 0 <= E -> head (_slicetoseq None None (Some (-1)) E) = Some E) /\
  __getitem__ column5 (IPair (ASlice None None (Some (-1))) (AInt 0)) = Raise IndexError.
Proof.
  split; [reflexivity|]. split; [reflexivity|].
  split; [exact slicetoseq_reversed_head|reflexivity].
Qed.

Section Scalar.
Context {T : Type} `{DT : Dtype T}.
Variable np_assign_all : list (list T) -> list (list T) -> result (list (list T)).

Lemma sum_lengths_replicate_nil (n : nat) :
  fold_right Z.add 0
    (map (fun rowvals : list T => Z.of_nat (length rowvals)) (replicate n [])) = 0.
Proof. induction n as [|n IH]; simpl; [done|]. by rewrite IH. Qed.

(** C10.  Multiplying a matrix, whose shape has a row count that is not
    negative, by a scalar that compares equal to 0 returns a new matrix of
    the same shape, with one row per row of the shape, in which every
    column list and every value list is empty: it stores nothing, and it
    satisfies the invariant. *)
Theorem mul_scalar_zero_is_empty (m : lil T) (other : T) :
  0 <= fst (shape m) -> nonzero other = false ->
  exists new,
    _mul_scalar np_assign_all m other = Ok new /\
    shape new = shape m /\
    Z.of_nat (length (rows new)) = fst (shape m) /\
    Z.of_nat (length (data new)) = fst (shape m) /\
    Forall (fun row => row = []) (rows new) /\
    Forall (fun dat => dat = []) (data new) /\
    getnnz new = 0 /\
    lil_inv new.
Proof.
  intros HM Hz. unfold _mul_scalar. rewrite Hz. simpl.
  destruct (lil_empty (fst (shape m)) (snd (shape m))) as [new|e] eqn:E.
  2:{ unfold lil_empty in E. destruct (Z.ltb_spec (fst (shape m)) 0); [lia|done]. }
  exists new. split; [done|].
  destruct (lil_empty_inv _ _ _ E) as [Hinv Hsh].
  unfold lil_empty in E. destruct (Z.ltb_spec (fst (shape m)) 0); [lia|].
  injection E as <-. simpl.
  split; [by destruct (shape m)|].
  rewrite !length_replicate, !Z2Nat.id by done. split; [done|]. split; [done|].
  split; [by apply Forall_replicate|]. split; [by apply Forall_replicate|].
  split; [|done]. unfold getnnz. simpl. apply sum_lengths_replicate_nil.
Qed.
End Scalar.

Lemma mul_scalar_zero_is_empty_witness :
  exists new,
    _mul_scalar (fun _ new => Ok new) m33 (-0)%float = Ok new /\
    rows new = [[]; []; []] /\ data new = [[]; []; []].
Proof.
  destruct (mul_scalar_zero_is_empty (fun _ new => Ok new) m33 (-0)%float)
    as (new & Hnew & _); [vm_compute; congruence|reflexivity|].
  exists new. split; [exact Hnew|].
  vm_compute in Hnew. injection Hnew as <-. split; reflexivity.
Defined.

Section Dense.
Context {T : Type} `{DT : Dtype T}.
Implicit Types (m : lil T) (r : list T).







(** What [_get1] returns on a matrix that satisfies the invariant. *)
Lemma get1_Ok m i j v :
  lil_inv m -> _get1 m i j = Ok v ->
  in_range m i j /\ v = entry m (row_of m i) (col_of m j).
Proof.
  intros Hinv Hg. assert (in_range m i j) as Hr.
  { unfold _get1 in Hg. unfold in_range.
    destruct (Z.ltb_spec i 0), (Z.ltb_spec j 0);
      repeat match type of Hg with
             | context [if ?b || ?c then _ else _] =>
                 let E1 := fresh in let E2 := fresh in
                 destruct b eqn:E1; [discriminate|]; destruct c eqn:E2; [discriminate|];
                 simpl in Hg
             end;
      repeat match goal with
             | H : (_ <? _) = false |- _ => apply Z.ltb_ge in H
             | H : (_ <=? _) = false |- _ => apply Z.leb_gt in H
             end; lia. }
  split; [done|]. rewrite get1_spec in Hg by done. congruence.
Qed.

Lemma entry_stored_or_zero m i j :
  lil_inv m -> nonzero (entry m i j) = true \/ entry m i j = zero.
Proof.
  intros [_ Hrows]. unfold entry.
  destruct (rows m !! i) as [row|] eqn:Hrow; [|by right].
  destruct (data m !! i) as [dat|] eqn:Hdat; [|by right].
  destruct (lookup_col row dat j) as [v|] eqn:Hv; [|by right]. left. simpl.
  destruct (lookup_col_Some _ _ _ _ Hv) as (k & _ & Hk).
  destruct (Forall2_lookup_lr _ _ _ _ _ _ Hrows Hrow Hdat) as (_ & _ & Hnz).
  rewrite Forall_forall in Hnz. apply Hnz. by eapply list_elem_of_lookup_2.
Qed.
End Dense.

Section Reading.
Context {T : Type} `{DT : Dtype T}.
Implicit Types (m : lil T).









End Reading.



Section Writing.
Context {T : Type} `{DT : Dtype T}.
Implicit Types (m : lil T).

(** Writing one value to every cell of a list. *)
Lemma insert_cells_same m (cells : list (Z * Z)) (x : T) :
  lil_inv m -> Forall (cell_in_range (shape m)) cells ->
  exists m',
    for_each (fun c : Z * Z => insert_cell (fst c) (snd c) x) cells m = Done m' /\
    lil_inv m' /\ shape m' = shape m /\
    (forall i' j', targets (shape m) cells i' j' -> entry m' i' j' = stored x) /\
    (forall i' j', ~ targets (shape m) cells i' j' -> entry m' i' j' = entry m i' j').
Proof.
  revert m. induction cells as [|[i j] cells IH]; intros m Hinv Hr.
  - exists m. split; [done|]. split; [done|]. split; [done|]. split; [|done].
    intros i' j' Ht. by apply Exists_nil in Ht.
  - apply Forall_cons in Hr as [Hc Hr].
    destruct (insert_cell_spec m i j x Hinv Hc) as (m1 & H1 & Hinv1 & Hsh1 & He1 & _).
    destruct (IH m1 Hinv1) as (m' & H' & Hinv' & Hsh' & Hin & Hout);
      [by rewrite Hsh1|].
    exists m'. cbn [for_each]. simpl fst; simpl snd. rewrite H1. simpl.
    split; [done|]. split; [done|]. split; [congruence|]. rewrite Hsh1 in Hin, Hout.
    split.
    + intros i' j' Ht.
      destruct (decide (Exists (fun c : Z * Z =>
                                  Z.to_nat (wrap (fst (shape m)) (fst c)) = i' /\
                                  wrap (snd (shape m)) (snd c) = j') cells)) as [Hd|Hd].
      * by apply Hin.
      * rewrite Hout by done. apply Exists_cons in Ht as [[Hi Hj]|Ht]; [|done].
        simpl in Hi, Hj. rewrite He1. unfold row_of, col_of.
        rewrite bool_decide_eq_true_2 by done.
        replace (j' =? wrap (snd (shape m)) j) with true
          by (symmetry; apply Z.eqb_eq; done). done.
    + intros i' j' Ht. rewrite Hout.
      2:{ intros Ht'. apply Ht. by apply Exists_cons; right. }
      rewrite He1. unfold row_of, col_of.
      destruct (decide (i' = Z.to_nat (wrap (fst (shape m)) i))) as [->|Hne];
        [|by rewrite bool_decide_eq_false_2 by done].
      destruct (Z.eqb_spec j' (wrap (snd (shape m)) j)) as [->|Hne];
        [|by rewrite andb_false_r].
      exfalso. apply Ht. by apply Exists_cons; left.
Qed.

Lemma insert_same_cells m (Ia Ja : arr2 Z) (v : T) :
  insert_same Ia Ja (Arr2 1 1 [v]) m =
  for_each (fun c : Z * Z => insert_cell (fst c) (snd c) v) (zip (elems Ia) (elems Ja)) m.
Proof. reflexivity. Qed.

(** X14.  Writing a dense 1 x 1 right-hand side, or a scalar, at a fancy index
    whose coordinates are all in range: every coordinate named by the
    index reads as the value afterwards, every other cell reads as before. *)
Lemma setitem_dense_scalar_broadcast m (i j : axis) (x : rhs T) (v : T) (Ia Ja : arr2 Z) :
  lil_inv m ->
  rhs_dense x = Arr2 1 1 [v] ->
  setitem_coords (shape m) i j = Ok (Some (Ia, Ja)) ->
  Forall (cell_in_range (shape m)) (zip (elems Ia) (elems Ja)) ->
  exists m',
    __setitem__ m (IPair i j) x = Done m' /\ lil_inv m' /\ shape m' = shape m /\
    (forall c, c ∈ zip (elems Ia) (elems Ja) -> _get1 m' (fst c) (snd c) = Ok (stored v)) /\
    (forall i' j', in_range m i' j' ->
       ~ targets (shape m) (zip (elems Ia) (elems Ja)) (row_of m i') (col_of m j') ->
       _get1 m' i' j' = _get1 m i' j').
Proof.
  intros Hinv Hx Hc Hr.
  destruct (insert_cells_same m (zip (elems Ia) (elems Ja)) v Hinv Hr)
    as (m' & Hm' & Hinv' & Hsh & Hin & Hout).
  exists m'. split.
  { unfold __setitem__. cbn [unpack_index].
    assert (match x with
            | XSparse s => if is_full_slice i && is_full_slice j then Some s else None
            | _ => None
            end = None) as -> by (by destruct x).
    rewrite Hc.
    assert (match x with
            | XSparse s => setitem_sparse s Ia Ja m
            | _ => setitem_dense (rhs_dense x) Ia Ja m
            end = setitem_dense (rhs_dense x) Ia Ja m) as -> by (by destruct x).
    rewrite Hx. unfold setitem_dense. simpl. by rewrite insert_same_cells. }
  split; [done|]. split; [done|]. split.
  - intros [ci cj] Hcell. simpl.
    assert (cell_in_range (shape m) (ci, cj)) as Hcr
      by (rewrite Forall_forall in Hr; by apply Hr).
    rewrite get1_spec; [|done|by (unfold in_range; rewrite Hsh)].
    f_equal. unfold row_of, col_of. rewrite Hsh. apply Hin.
    apply Exists_exists. by exists (ci, cj).
  - intros i' j' Hir Hnt.
    rewrite !get1_spec; [|done|done|done|by (unfold in_range; rewrite Hsh)].
    f_equal. unfold row_of, col_of. rewrite Hsh. by apply Hout.
Qed.

(** The loop for a sparse 1 x 1 right-hand side over a grid with more than
    one column: the first turn raises, nothing is written. *)
Lemma insert_sparse_scalar_wide_grid (s : lil T) (Ia Ja : arr2 Z) m :
  elems Ia <> [] -> elems Ja <> [] -> ncols Ja <> 1%nat ->
  exists e, insert_sparse_scalar s Ia Ja m = Failed e m.
Proof.
  intros Hi Hj Hc. unfold insert_sparse_scalar.
  destruct (elems Ia) as [|ii ia] eqn:Ei; [done|].
  destruct (elems Ja) as [|jj ja] eqn:Ej; [done|].
  cbn [length Nat.min seq for_each].
  assert (exists e, sparse_scalar_turn s Ia 0 (m, Ja) = Failed e (m, Ja)) as [e ->];
    [|by exists e].
  unfold sparse_scalar_turn. cbn [fst snd]. rewrite Ei, Ej. cbn [lookup list_lookup].
  destruct (np_resolve (length (rows m)) ii); [|by eexists].
  destruct (np_resolve (length (data m)) ii); [|by eexists].
  destruct (rows m !! a); [|by eexists].
  destruct (data m !! a0); [|by eexists].
  destruct (np_resolve (nrows Ja) jj); [|by eexists].
  destruct (_get1 s 0 0); [|by eexists].
  replace (ncols Ja =? 1)%nat with false by (symmetry; by apply Nat.eqb_neq).
  by eexists.
Qed.
End Writing.

(** C6.  The 1 x 1 right-hand side written to the four cells of
    [m[0:2, 0:2]] of the empty 3 x 3 matrix.  As a dense array it reaches
    the four cells and no other.  As a sparse matrix it raises [ValueError]
    at the first cell and writes nothing: that loop hands [j[jj]], a row of
    the column array, to [_insertat2] where the other loops hand [jj]; so
    does every sparse 1 x 1 write over a grid that has more than one
    column. *)
Theorem setitem_sparse_scalar_raises :
  lil_empty 3 3 = Ok empty33 /\
  __setitem__ empty33 block22 (XArr (Arr2 1 1 [7%float])) =
    Done (Lil (3, 3) [[0; 1]; [0; 1]; []] [[7; 7]; [7; 7]; []]%float) /\
  __setitem__ empty33 block22 (XSparse sparse7) = Failed ValueError empty33 /\
  (forall (s m : lil float) (Ia Ja : arr2 Z),
     elems Ia <> [] -> elems Ja <> [] -> ncols Ja <> 1%nat ->
     exists e, insert_sparse_scalar s Ia Ja m = Failed e m).
Proof.
  split; [reflexivity|]. split; [reflexivity|]. split; [reflexivity|].
  intros s m Ia Ja. apply insert_sparse_scalar_wide_grid.
Qed.

Lemma setitem_dense_scalar_broadcast_witness :
  exists m',
    __setitem__ empty33 block22 (XScalar 7%float) = Done m' /\
    _get1 m' 1 1 = Ok 7%float /\ _get1 m' 2 2 = _get1 empty33 2 2.
Proof.
  destruct (setitem_dense_scalar_broadcast empty33
              (ASlice (Some 0) (Some 2) None) (ASlice (Some 0) (Some 2) None)
              (XScalar 7%float) 7%float
              (Arr2 2 2 [0; 0; 1; 1]) (Arr2 2 2 [0; 1; 0; 1]))
    as (m' & Hset & _ & _ & Hin & Hout).
  - split; [reflexivity|]. repeat constructor.
  - reflexivity.
  - reflexivity.
  - repeat constructor; simpl; lia.
  - exists m'. split; [exact Hset|]. split.
    + apply (Hin (1, 1)). simpl. repeat constructor.
    + apply Hout; [done|]. intros Ht. unfold targets in Ht.
      rewrite Exists_exists in Ht. destruct Ht as (c & Hc & Hi & Hj).
      simpl in Hc. vm_compute in Hi, Hj.
      repeat (apply elem_of_cons in Hc as [->|Hc]; [vm_compute in Hi; lia|]).
      by apply elem_of_nil in Hc.
Defined.

Section Reshape.
Context {T : Type} `{DT : Dtype T}.
Implicit Types (m new : lil T).

Lemma elem_of_flat_coords N i0 rs f :
  f ∈ flat_coords N i0 rs <->
  exists k row j, rs !! k = Some row /\ j ∈ row /\ f = flat_of N (i0 + k) j.
Proof.
  revert i0. induction rs as [|row rs IH]; intros i0; simpl.
  - split; [intros H; by apply elem_of_nil in H|]. intros (k & row & j & Hk & _).
    by rewrite lookup_nil in Hk.
  - rewrite elem_of_app, list_elem_of_fmap, IH. split.
    + intros [(j & -> & Hj)|(k & row' & j & Hk & Hj & ->)].
      * exists 0%nat, row, j. by rewrite Nat.add_0_r.
      * exists (S k), row', j. split; [done|]. split; [done|]. f_equal. lia.
    + intros ([|k] & row' & j & Hk & Hj & ->); simpl in Hk.
      * injection Hk as ->. left. exists j. by rewrite Nat.add_0_r.
      * right. exists k, row', j. split; [done|]. split; [done|]. f_equal. lia.
Qed.

Lemma flat_of_div_mod N i j :
  0 <= j < N -> flat_of N i j / N = Z.of_nat i /\ flat_of N i j mod N = j.
Proof.
  intros Hj. unfold flat_of. split.
  - rewrite Z.add_comm, Z.div_add by lia. rewrite Z.div_small by lia. lia.
  - rewrite Z.add_comm, Z.mod_add by lia. by apply Z.mod_small.
Qed.

Lemma div_mod_inj N f g :
  0 < N -> f / N = g / N -> f mod N = g mod N -> f = g.
Proof.
  intros HN Hd Hm. rewrite (Z.div_mod f N), (Z.div_mod g N) by lia. congruence.
Qed.

Lemma stored_entry m i j : lil_inv m -> stored (entry m i j) = entry m i j.
Proof.
  intros Hinv. unfold stored.
  destruct (entry_stored_or_zero m i j Hinv) as [->| ->]; [done|].
  by rewrite nonzero_zero.
Qed.

(** One turn of the inner loop of [reshape], for an entry that has a place
    in the new shape. *)
Lemma reshape_cell_moves m sh (i : nat) (j : Z) new (W : list Z) :
  lil_inv m -> (Z.of_nat i < fst (shape m)) ->
  0 <= j < snd (shape m) ->
  flat_of (snd (shape m)) i j < fst sh * snd sh ->
  moved m sh W new ->
  exists new1,
    moved m sh (W ++ [flat_of (snd (shape m)) i j]) new1 /\
    forall row, reshape_row m sh i (j :: row) new = reshape_row m sh i row new1.
Proof.
  intros Hinv Hi Hj Hf Hmv.
  set (f0 := flat_of (snd (shape m)) i j) in *.
  assert (0 <= f0) as Hf0 by (unfold f0, flat_of; nia).
  assert (0 <= fst sh) as HM'.
  { destruct Hmv as ([Hl _] & <- & _). lia. }
  assert (0 < snd sh) as HN' by nia.
  destruct Hmv as (Hinvn & Hshn & Hent).
  assert (0 <= f0 / snd sh < fst sh) as Hdiv.
  { split; [apply Z.div_pos; lia|]. apply Z.div_lt_upper_bound; lia. }
  pose proof (Z.mod_pos_bound f0 (snd sh) HN') as Hmod.
  destruct (insert_cell_spec new (f0 / snd sh) (f0 mod snd sh)
              (entry m (row_of m (Z.of_nat i)) (col_of m j)) Hinvn)
    as (new1 & Hins & Hinv1 & Hsh1 & He1 & _).
  { unfold in_range. rewrite Hshn. lia. }
  exists new1. split.
  - split; [done|]. split; [congruence|].
    intros f Hfr. rewrite He1. unfold row_of, col_of, wrap. rewrite Hshn.
    destruct (Z.ltb_spec (f0 / snd sh) 0); [lia|].
    destruct (Z.ltb_spec (f0 mod snd sh) 0); [lia|].
    destruct (Z.ltb_spec (Z.of_nat i) 0); [lia|].
    destruct (Z.ltb_spec j 0); [lia|].
    destruct (flat_of_div_mod (snd (shape m)) i j Hj) as [Hd0 Hm0]. fold f0 in Hd0, Hm0.
    destruct (decide (f = f0)) as [->|Hne].
    + rewrite bool_decide_eq_true_2 by done. rewrite Z.eqb_refl. simpl.
      rewrite bool_decide_eq_true_2 by (apply elem_of_app; right; by left).
      rewrite Hd0, Hm0, Nat2Z.id. fold (stored (entry m i j)). by apply stored_entry.
    + replace (bool_decide (Z.to_nat (f / snd sh) = Z.to_nat (f0 / snd sh)) &&
               (f mod snd sh =? f0 mod snd sh)) with false.
      2:{ symmetry. apply andb_false_iff.
          destruct (decide (f / snd sh = f0 / snd sh)) as [Hde|Hdn].
          - right. apply Z.eqb_neq. intros Hme. apply Hne. by eapply div_mod_inj.
          - left. apply bool_decide_eq_false_2. intros Hz. apply Hdn.
            assert (0 <= f / snd sh) by (apply Z.div_pos; lia). lia. }
      rewrite Hent by done.
      destruct (decide (f ∈ W)) as [Hin|Hnin].
      * rewrite !bool_decide_eq_true_2; [done|apply elem_of_app; by left|done].
      * rewrite !bool_decide_eq_false_2; [done| |done].
        rewrite elem_of_app, list_elem_of_singleton. tauto.
  - intros row. cbn [reshape_row]. fold (flat_of (snd (shape m)) i j). fold f0.
    unfold np_unravel_index.
    replace ((f0 <? 0) || (fst sh * snd sh <=? f0) || (fst sh <? 0) || (snd sh <? 0))
      with false.
    2:{ symmetry. rewrite !orb_false_iff. repeat split;
        [apply Z.ltb_ge|apply Z.leb_gt|apply Z.ltb_ge|apply Z.ltb_ge]; nia. }
    cbn [mbind result_bind].
    change (__getitem__ m (IPair (AInt (Z.of_nat i)) (AInt j)))
      with (get m (Z.of_nat i) j).
    rewrite get_get1, get1_spec by (try done; unfold in_range; lia).
    cbn [fmap result_fmap mbind result_bind assign_got].
    change (__setitem__ new (IPair (AInt (f0 / snd sh)) (AInt (f0 mod snd sh)))
                        (XScalar (entry m (row_of m (Z.of_nat i)) (col_of m j))))
      with (set new (f0 / snd sh) (f0 mod snd sh)
                (entry m (row_of m (Z.of_nat i)) (col_of m j))).
    by rewrite set_insert_cell, Hins.
Qed.

(** One turn for an entry that has no place in the new shape:
    [np.unravel_index] raises. *)
Lemma reshape_cell_raises m sh (i : nat) (j : Z) (row : list Z) new :
  fst sh * snd sh <= flat_of (snd (shape m)) i j ->
  reshape_row m sh i (j :: row) new = Raise ValueError.
Proof.
  intros Hf. cbn [reshape_row]. fold (flat_of (snd (shape m)) i j).
  unfold np_unravel_index.
  destruct (flat_of (snd (shape m)) i j <? 0); [done|].
  replace (fst sh * snd sh <=? flat_of (snd (shape m)) i j) with true
    by (symmetry; by apply Z.leb_le).
  done.
Qed.

(** The inner loop: it moves the whole row when every entry has a place,
    and raises [ValueError] when one has none. *)
Lemma reshape_row_moves m sh (i : nat) (row : list Z) new (W : list Z) :
  lil_inv m -> (Z.of_nat i < fst (shape m)) ->
  Forall (fun j => 0 <= j < snd (shape m)) row ->
  moved m sh W new ->
  (Forall (has_place (snd (shape m)) sh i) row /\
   exists new',
     reshape_row m sh i row new = Ok new' /\
     moved m sh (W ++ map (flat_of (snd (shape m)) i) row) new') \/
  (~ Forall (has_place (snd (shape m)) sh i) row /\
   reshape_row m sh i row new = Raise ValueError).
Proof.
  intros Hinv Hi. revert new W.
  induction row as [|j row IH]; intros new W Hrow Hmv.
  - left. split; [constructor|]. exists new. by rewrite app_nil_r.
  - apply Forall_cons in Hrow as [Hj Hrow].
    destruct (Z.lt_ge_cases (flat_of (snd (shape m)) i j) (fst sh * snd sh)) as [Hf|Hf].
    + destruct (reshape_cell_moves m sh i j new W Hinv Hi Hj Hf Hmv) as (new1 & Hmv1 & ->).
      destruct (IH new1 _ Hrow Hmv1) as [(Hall & new' & Hres & Hmv')|(Hnot & Hres)].
      * left. split; [by apply Forall_cons|]. exists new'. split; [done|].
        by rewrite <- app_assoc in Hmv'.
      * right. split; [|done]. intros Hall. apply Hnot. by apply Forall_cons in Hall as [_ ?].
    + right. split; [|by apply reshape_cell_raises].
      intros Hall. apply Forall_cons in Hall as [Hp _]. unfold has_place in Hp. lia.
Qed.

Lemma reshape_rows_moves m sh (i0 : nat) (rs : list (list Z)) new (W : list Z) :
  lil_inv m -> (Z.of_nat (i0 + length rs) <= fst (shape m)) ->
  Forall (cols_below (snd (shape m))) rs ->
  moved m sh W new ->
  (rows_have_place (snd (shape m)) sh i0 rs /\
   exists new',
     reshape_rows m sh i0 rs new = Ok new' /\
     moved m sh (W ++ flat_coords (snd (shape m)) i0 rs) new') \/
  (~ rows_have_place (snd (shape m)) sh i0 rs /\
   reshape_rows m sh i0 rs new = Raise ValueError).
Proof.
  intros Hinv. revert i0 new W.
  induction rs as [|row rs IH]; intros i0 new W Hi Hcols Hmv.
  - left. split; [intros k row Hk; by rewrite lookup_nil in Hk|].
    exists new. by rewrite app_nil_r.
  - apply Forall_cons in Hcols as [Hrow Hcols]. simpl in Hi.
    cbn [reshape_rows flat_coords].
    destruct (reshape_row_moves m sh i0 row new W Hinv ltac:(lia) Hrow Hmv)
      as [(Hall & new1 & -> & Hmv1)|(Hnot & ->)].
    + cbn [mbind result_bind].
      destruct (IH (S i0) new1 _ ltac:(lia) Hcols Hmv1)
        as [(Hall' & new' & Hres & Hmv')|(Hnot & Hres)].
      * left. split.
        { intros [|k] row' Hk; simpl in Hk.
          - injection Hk as <-. by rewrite Nat.add_0_r.
          - replace (i0 + S k)%nat with (S i0 + k)%nat by lia. by apply Hall'. }
        exists new'. split; [done|]. by rewrite app_assoc.
      * right. split; [|done]. intros Hall'. apply Hnot. intros k row' Hk.
        replace (S i0 + k)%nat with (i0 + S k)%nat by lia. by apply Hall'.
    + right. split; [|done]. intros Hall. apply Hnot.
      specialize (Hall 0%nat row eq_refl). by rewrite Nat.add_0_r in Hall.
Qed.

Lemma moved_empty m (M' N' : Z) new :
  lil_empty M' N' = Ok new -> moved m (M', N') [] new.
Proof.
  intros Hnew. destruct (lil_empty_inv _ _ _ Hnew) as [Hinv Hsh].
  split; [done|]. split; [done|]. intros f _.
  unfold lil_empty in Hnew. destruct (M' <? 0); [done|]. injection Hnew as <-.
  unfold entry. simpl.
  destruct (replicate (Z.to_nat M') [] !! Z.to_nat (f / N')) as [row|] eqn:Hrow; [|done].
  apply lookup_replicate in Hrow as [-> _].
  by destruct (replicate (Z.to_nat M') [] !! Z.to_nat (f / N')).
Qed.

(** A stored entry of a matrix whose columns are below [N] has its flat
    coordinate below [M * N]. *)
Lemma flat_coords_below m f :
  lil_inv m -> Forall (cols_below (snd (shape m))) (rows m) ->
  f ∈ flat_coords (snd (shape m)) 0 (rows m) ->
  0 <= f < fst (shape m) * snd (shape m).
Proof.
  intros [Hsh _] Hcols Hf.
  apply elem_of_flat_coords in Hf as (k & row & j & Hk & Hj & ->).
  pose proof (lookup_lt_Some _ _ _ Hk) as Hlt.
  assert (0 <= j < snd (shape m)) as Hjr.
  { eapply Forall_lookup_1 in Hcols; [|done].
    unfold cols_below in Hcols. rewrite Forall_forall in Hcols. by apply Hcols. }
  unfold flat_of. simpl. nia.
Qed.

(** A cell whose flat coordinate is not one of a stored entry reads zero. *)
Lemma entry_not_stored m f :
  lil_inv m -> 0 < snd (shape m) -> 0 <= f ->
  f ∉ flat_coords (snd (shape m)) 0 (rows m) ->
  entry m (Z.to_nat (f / snd (shape m))) (f mod snd (shape m)) = zero.
Proof.
  intros [Hsh Hrows] HN Hf Hnot. unfold entry.
  destruct (rows m !! Z.to_nat (f / snd (shape m))) as [row|] eqn:Hrow; [|done].
  destruct (data m !! Z.to_nat (f / snd (shape m))) as [dat|] eqn:Hdat; [|done].
  destruct (Forall2_lookup_lr _ _ _ _ _ _ Hrows Hrow Hdat) as (_ & Hl & _).
  replace (lookup_col row dat (f mod snd (shape m))) with (@None T); [done|].
  symmetry. apply lookup_col_None; [done|]. intros Hin. apply Hnot.
  apply elem_of_flat_coords. exists (Z.to_nat (f / snd (shape m))), row, (f mod snd (shape m)).
  split; [done|]. split; [done|]. unfold flat_of. simpl.
  rewrite Z2Nat.id by (apply Z.div_pos; lia).
  rewrite (Z.div_mod f (snd (shape m))) at 1 by lia. lia.
Qed.

Lemma rows_have_place_larger m sh :
  lil_inv m -> Forall (cols_below (snd (shape m))) (rows m) ->
  fst (shape m) * snd (shape m) <= fst sh * snd sh ->
  rows_have_place (snd (shape m)) sh 0 (rows m).
Proof.
  intros Hinv Hcols Hle k row Hk. apply Forall_forall. intros j Hj.
  unfold has_place.
  assert (flat_of (snd (shape m)) (0 + k) j ∈ flat_coords (snd (shape m)) 0 (rows m)) as Hin.
  { apply elem_of_flat_coords. by exists k, row, j. }
  apply flat_coords_below in Hin; [lia|done|done].
Qed.

(** C7 (amended).  [reshape] compares no element counts; what decides is
    whether every stored entry has a place in the new shape, that is, a
    flat coordinate [i * N + j] below [M' * N'].  On a matrix that
    satisfies the invariant, with its columns inside its shape:
    - for [0 <= M'], when every stored entry has a place, it returns a
      matrix of the new shape that satisfies the invariant, in which the
      cell at flat coordinate [i * N + j] holds what the cell [(i, j)] of
      the old matrix holds, and every further cell holds zero;
    - for [0 <= M'], when a stored entry has no place, it raises
      [ValueError];
    - for [M' < 0] it raises [ValueError];
    - every stored entry has a place when the new shape has at least as
      many cells as the old one, the same number included. *)
Theorem reshape_keeps_flat_coordinates m (M' N' : Z) :
  lil_inv m -> Forall (cols_below (snd (shape m))) (rows m) ->
  (0 <= M' -> rows_have_place (snd (shape m)) (M', N') 0 (rows m) ->
   exists new,
     reshape m (M', N') = Ok new /\ lil_inv new /\ shape new = (M', N') /\
     (forall i j, 0 <= i < fst (shape m) -> 0 <= j < snd (shape m) ->
        i * snd (shape m) + j < M' * N' ->
        _get1 new ((i * snd (shape m) + j) / N') ((i * snd (shape m) + j) mod N') =
        _get1 m i j) /\
     (forall f, 0 <= f -> fst (shape m) * snd (shape m) <= f < M' * N' ->
        _get1 new (f / N') (f mod N') = Ok zero)) /\
  (0 <= M' -> ~ rows_have_place (snd (shape m)) (M', N') 0 (rows m) ->
   reshape m (M', N') = Raise ValueError) /\
  (M' < 0 -> reshape m (M', N') = Raise ValueError) /\
  (fst (shape m) * snd (shape m) <= M' * N' ->
   rows_have_place (snd (shape m)) (M', N') 0 (rows m)).
Proof.
  intros Hinv Hcols.
  assert (0 <= fst (shape m)) as HM by (destruct Hinv as [<- _]; lia).
  assert (0 <= M' ->
          (rows_have_place (snd (shape m)) (M', N') 0 (rows m) /\
           exists new,
             reshape m (M', N') = Ok new /\ moved m (M', N') (flat_coords (snd (shape m)) 0 (rows m)) new) \/
          (~ rows_have_place (snd (shape m)) (M', N') 0 (rows m) /\
           reshape m (M', N') = Raise ValueError)) as Hloop.
  { intros HM'. unfold reshape. simpl.
    destruct (lil_empty M' N') as [new0|e] eqn:Hnew0.
    2:{ unfold lil_empty in Hnew0. destruct (Z.ltb_spec M' 0); [lia|done]. }
    cbn [mbind result_bind].
    pose proof (moved_empty m M' N' new0 Hnew0) as Hmv0.
    apply (reshape_rows_moves m (M', N') 0 (rows m) new0 [] Hinv); [|done|done].
    destruct Hinv as [<- _]. simpl. lia. }
  split; [|split; [|split]].
  - intros HM' Hplace.
    destruct (Hloop HM') as [(_ & new & Hres & Hinvn & Hshn & Hent)|(Hnot & _)]; [|done].
    simpl in Hent.
    assert (forall f, 0 <= f < M' * N' ->
              _get1 new (f / N') (f mod N') =
              Ok (if bool_decide (f ∈ flat_coords (snd (shape m)) 0 (rows m))
                  then entry m (Z.to_nat (f / snd (shape m))) (f mod snd (shape m))
                  else zero)) as Hget.
    { intros f Hf. assert (0 < N') as HN' by nia.
      assert (0 <= f / N' < M') as Hdiv.
      { split; [apply Z.div_pos; lia|]. apply Z.div_lt_upper_bound; lia. }
      pose proof (Z.mod_pos_bound f N' HN') as Hmod.
      rewrite get1_spec; [|done|unfold in_range; rewrite Hshn; simpl; lia].
      f_equal. unfold row_of, col_of, wrap. rewrite Hshn. simpl.
      destruct (Z.ltb_spec (f / N') 0); [lia|]. destruct (Z.ltb_spec (f mod N') 0); [lia|].
      by apply Hent. }
    exists new. split; [done|]. split; [done|]. split; [done|]. split.
    + intros i j Hi Hj Hlt.
      set (f := i * snd (shape m) + j) in *.
      assert (0 <= f < fst (shape m) * snd (shape m)) as Hf by (unfold f; nia).
      rewrite Hget by lia.
      rewrite get1_spec by (try done; unfold in_range; lia).
      f_equal. unfold row_of, col_of, wrap.
      destruct (Z.ltb_spec i 0); [lia|]. destruct (Z.ltb_spec j 0); [lia|].
      assert (f / snd (shape m) = i /\ f mod snd (shape m) = j) as [Hd Hm].
      { unfold f. split.
        - rewrite Z.add_comm, Z.div_add by lia. rewrite Z.div_small by lia. lia.
        - rewrite Z.add_comm, Z.mod_add by lia. by apply Z.mod_small. }
      destruct (decide (f ∈ flat_coords (snd (shape m)) 0 (rows m))) as [Hin|Hnin].
      * rewrite bool_decide_eq_true_2 by done. by rewrite Hd, Hm.
      * rewrite bool_decide_eq_false_2 by done.
        rewrite <- (entry_not_stored m f) by (try done; lia). by rewrite Hd, Hm.
    + intros f Hf0 Hf. rewrite Hget by lia.
      rewrite bool_decide_eq_false_2; [done|].
      intros Hin. apply flat_coords_below in Hin; [lia|done|done].
  - intros HM' Hnot. by destruct (Hloop HM') as [(Hall & _)|(_ & Hres)].
  - intros HM'. unfold reshape, lil_empty. simpl.
    by destruct (Z.ltb_spec M' 0); [|lia].
  - intros Hle. by apply (rows_have_place_larger m (M', N')).
Qed.

(** X27.  A stored entry without a place in the new shape makes [reshape] raise
    [ValueError]. *)
Lemma reshape_raises_without_place m (M' N' : Z) :
  lil_inv m -> Forall (cols_below (snd (shape m))) (rows m) -> 0 <= M' ->
  ~ rows_have_place (snd (shape m)) (M', N') 0 (rows m) ->
  reshape m (M', N') = Raise ValueError.
Proof.
  intros Hinv Hcols HM' Hnot. unfold reshape. simpl.
  destruct (lil_empty M' N') as [new0|e] eqn:Hnew0.
  2:{ unfold lil_empty in Hnew0. destruct (Z.ltb_spec M' 0); [lia|done]. }
  cbn [mbind result_bind].
  pose proof (moved_empty m M' N' new0 Hnew0) as Hmv0.
  destruct (reshape_rows_moves m (M', N') 0 (rows m) new0 [] Hinv) as
    [(Hall & _)|(_ & Hres)]; [| |done|done|done].
  { destruct Hinv as [<- _]. simpl. lia. }
  { done. }
Qed.
End Reshape.

Lemma m33_cols : Forall (cols_below (snd (shape m33))) (rows m33).
Proof. repeat constructor; simpl; lia. Qed.

Lemma reshape_keeps_flat_coordinates_witness :
  exists new,
    reshape m33 (1, 5) = Ok new /\ lil_inv new /\ shape new = (1, 5) /\
    _get1 new ((0 * 3 + 2) / 5) ((0 * 3 + 2) mod 5) = _get1 m33 0 2 /\
    _get1 new ((1 * 3 + 1) / 5) ((1 * 3 + 1) mod 5) = _get1 m33 1 1.
Proof.
  destruct (reshape_keeps_flat_coordinates m33 1 5 m33_inv m33_cols) as [Hret _].
  destruct Hret as (new & Hnew & Hinv & Hsh & Hget & _); [lia| |].
  - intros [|[|[|k]]] row Hk; simpl in Hk; try discriminate;
      injection Hk as <-; repeat constructor.
  - exists new. split; [exact Hnew|]. split; [exact Hinv|]. split; [exact Hsh|].
    split; [apply (Hget 0 2)|apply (Hget 1 1)]; simpl; lia.
Defined.

(** Nine cells reshaped to sixteen: the counts differ and [reshape] returns
    a matrix, it does not fail. *)
Lemma reshape_other_count_returns :
  fst (shape m33) * snd (shape m33) <> 4 * 4 /\
  reshape m33 (4, 4) =
    Ok (Lil (4, 4) [[0; 2]; [0]; []; []] [[1; 3]; [2]; []; []]%float).
Proof. split; [vm_compute; congruence|reflexivity]. Qed.

Lemma reshape_raises_without_place_witness : reshape m33 (1, 2) = Raise ValueError.
Proof.
  apply reshape_raises_without_place; [exact m33_inv|exact m33_cols|lia|].
  intros Hall. specialize (Hall 0%nat [0; 2] eq_refl).
  apply Forall_cons in Hall as [_ Hall]. apply Forall_cons in Hall as [Hp _].
  vm_compute in Hp. discriminate.
Defined.

(** ** Single cells: bounds, negative indices, canonical rows *)

Section Canonical.
Context {T : Type} `{DT : Dtype T}.
Implicit Types (m : lil T) (row : list Z) (dat : list T).

Lemma lookup_col_elem row dat j v : lookup_col row dat j = Some v -> j ∈ row.
Proof.
  intros Hl. destruct (lookup_col_Some _ _ _ _ Hl) as (k & Hk & _).
  by eapply list_elem_of_lookup_2.
Qed.

(** A row that satisfies the invariant is determined by what it holds at
    every column. *)
Lemma row_ext row dat row' dat' :
  row_inv row dat -> row_inv row' dat' ->
  (forall j, lookup_col row dat j = lookup_col row' dat' j) ->
  row = row' /\ dat = dat'.
Proof.
  revert dat row' dat'. induction row as [|c row IH]; intros dat row' dat'.
  - intros (_ & Hl & _) (_ & Hl' & _) Heq. destruct dat; [|done].
    destruct row' as [|c' row']; [by destruct dat'|].
    destruct dat' as [|v' dat']; [done|].
    specialize (Heq c'). simpl in Heq. by rewrite Z.eqb_refl in Heq.
  - intros (Hs & Hl & Hnz) (Hs' & Hl' & Hnz') Heq.
    destruct dat as [|v dat]; [done|].
    destruct row' as [|c' row'].
    { specialize (Heq c). simpl in Heq. rewrite Z.eqb_refl in Heq. by destruct dat'. }
    destruct dat' as [|v' dat']; [done|].
    apply StronglySorted_inv in Hs as [Hs Hc]. apply StronglySorted_inv in Hs' as [Hs' Hc'].
    apply Forall_cons in Hnz as [_ Hnz]. apply Forall_cons in Hnz' as [_ Hnz'].
    rewrite Forall_forall in Hc, Hc'.
    assert (c = c') as <-.
    { pose proof (Heq c) as H1. pose proof (Heq c') as H2. simpl in H1, H2.
      rewrite Z.eqb_refl in H1, H2.
      destruct (Z.eqb_spec c' c) as [->|Hne]; [done|].
      destruct (Z.eqb_spec c c') as [->|_]; [done|].
      symmetry in H1. apply lookup_col_elem, Hc' in H1.
      apply lookup_col_elem, Hc in H2. lia. }
    assert (v = v') as <-.
    { specialize (Heq c). simpl in Heq. rewrite Z.eqb_refl in Heq. congruence. }
    assert (row_inv row dat) as Hri by (repeat split; simpl in *; [done|lia|done]).
    assert (row_inv row' dat') as Hri' by (repeat split; simpl in *; [done|lia|done]).
    destruct (IH dat row' dat' Hri Hri') as [-> ->]; [|done].
    intros j. destruct (Z.eqb_spec c j) as [<-|Hne].
    + rewrite !lookup_col_absent; [done| |].
      * apply Forall_forall. intros x Hx. apply Hc' in Hx. lia.
      * apply Forall_forall. intros x Hx. apply Hc in Hx. lia.
    + specialize (Heq j). simpl in Heq.
      destruct (Z.eqb_spec c j); [done|]. done.
Qed.

(** So is a matrix by its shape and what every cell holds. *)
Lemma lil_ext m m' :
  lil_inv m -> lil_inv m' -> shape m = shape m' ->
  (forall i j, entry m i j = entry m' i j) -> m = m'.
Proof.
  intros [Hsh Hrows] [Hsh' Hrows'] Hs He.
  pose proof (Forall2_length _ _ _ Hrows) as Hlen.
  pose proof (Forall2_length _ _ _ Hrows') as Hlen'.
  assert (length (rows m) = length (rows m')) as Hlr by (rewrite Hs in Hsh; lia).
  assert (forall k, rows m !! k = rows m' !! k /\ data m !! k = data m' !! k) as Hk.
  { intros k. destruct (decide (k < length (rows m))%nat) as [Hlt|Hge].
    - destruct (lookup_lt_is_Some_2 (rows m) k Hlt) as [row Hrow].
      destruct (lookup_lt_is_Some_2 (data m) k ltac:(lia)) as [dat Hdat].
      destruct (lookup_lt_is_Some_2 (rows m') k ltac:(lia)) as [row' Hrow'].
      destruct (lookup_lt_is_Some_2 (data m') k ltac:(lia)) as [dat' Hdat'].
      pose proof (Forall2_lookup_lr _ _ _ _ _ _ Hrows Hrow Hdat) as Hri.
      pose proof (Forall2_lookup_lr _ _ _ _ _ _ Hrows' Hrow' Hdat') as Hri'.
      destruct (row_ext row dat row' dat' Hri Hri') as [-> ->]; [|by rewrite Hrow, Hdat].
      intros j. specialize (He k j). unfold entry in He.
      rewrite Hrow, Hdat, Hrow', Hdat' in He.
      assert (forall r d u, row_inv r d -> lookup_col r d j = Some u -> u <> zero) as Hnz.
      { intros r d u (_ & _ & Hn) Hu. destruct (lookup_col_Some _ _ _ _ Hu) as (p & _ & Hp).
        rewrite Forall_forall in Hn. apply list_elem_of_lookup_2, Hn in Hp.
        intros ->. rewrite nonzero_zero in Hp. discriminate. }
      destruct (lookup_col row dat j) as [u|] eqn:E, (lookup_col row' dat' j) as [u'|] eqn:E';
        simpl in He; [by rewrite He| | |done].
      + exfalso. by eapply (Hnz row dat u).
      + exfalso. eapply (Hnz row' dat' u'); [done|done|by symmetry].
    - rewrite !lookup_ge_None_2 by lia. done. }
  destruct m as [sh rs ds], m' as [sh' rs' ds']. simpl in *. subst sh'. f_equal.
  - apply list_eq. intros k. apply Hk.
  - apply list_eq. intros k. apply Hk.
Qed.

(** Outside the shape a matrix holds nothing, when its columns are inside. *)
Lemma entry_outside m (i : nat) (j : Z) :
  lil_inv m -> Forall (cols_below (snd (shape m))) (rows m) ->
  ~ (Z.of_nat i < fst (shape m) /\ 0 <= j < snd (shape m)) ->
  entry m i j = zero.
Proof.
  intros [Hsh Hrows] Hcols Hout. unfold entry.
  destruct (rows m !! i) as [row|] eqn:Hrow; [|done].
  destruct (data m !! i) as [dat|] eqn:Hdat; [|done].
  pose proof (lookup_lt_Some _ _ _ Hrow) as Hlt.
  destruct (Forall2_lookup_lr _ _ _ _ _ _ Hrows Hrow Hdat) as (_ & Hl & _).
  replace (lookup_col row dat j) with (@None T); [done|].
  symmetry. apply lookup_col_None; [done|]. intros Hin.
  eapply Forall_lookup_1 in Hcols; [|done]. unfold cols_below in Hcols.
  rewrite Forall_forall in Hcols. apply Hcols in Hin. lia.
Qed.

Lemma row_of_nonneg m i : 0 <= i < fst (shape m) -> row_of m i = Z.to_nat i.
Proof. intros Hi. unfold row_of, wrap. by destruct (Z.ltb_spec i 0); [lia|]. Qed.

Lemma col_of_nonneg m j : 0 <= j < snd (shape m) -> col_of m j = j.
Proof. intros Hj. unfold col_of, wrap. by destruct (Z.ltb_spec j 0); [lia|]. Qed.

(** X8.  The representation is canonical: two matrices that satisfy the
    invariant, keep their columns inside their shape, have the same shape
    and read the same at every cell are the same rows and the same
    values. *)
Theorem equal_reads_equal_matrices m m' :
  lil_inv m -> lil_inv m' -> shape m = shape m' ->
  Forall (cols_below (snd (shape m))) (rows m) ->
  Forall (cols_below (snd (shape m'))) (rows m') ->
  (forall i j, 0 <= i < fst (shape m) -> 0 <= j < snd (shape m) ->
     _get1 m i j = _get1 m' i j) ->
  m = m'.
Proof.
  intros Hinv Hinv' Hs Hc Hc' Hget. apply lil_ext; [done|done|done|].
  intros i j.
  destruct (decide (Z.of_nat i < fst (shape m) /\ 0 <= j < snd (shape m))) as [[Hi Hj]|Hout].
  - specialize (Hget (Z.of_nat i) j ltac:(lia) Hj).
    rewrite !get1_spec in Hget by (try done; unfold in_range; rewrite <- ?Hs; lia).
    injection Hget as Hget.
    rewrite !row_of_nonneg, !col_of_nonneg, !Nat2Z.id in Hget by (rewrite <- ?Hs; lia).
    done.
  - rewrite !entry_outside; [done|done|done|by rewrite <- Hs|done|done|done].
Qed.
End Canonical.

Lemma equal_reads_equal_matrices_witness :
  state_of (set_all scenario_calls empty33) = m33.
Proof.
  apply equal_reads_equal_matrices.
  - split; [reflexivity|].
    repeat (first [apply Forall2_nil_2 | apply Forall2_cons_2]);
      (split; [repeat constructor; lia|split; [reflexivity|repeat constructor]]).
  - exact m33_inv.
  - reflexivity.
  - repeat constructor; simpl; lia.
  - exact m33_cols.
  - intros i j Hi Hj. simpl in Hi, Hj.
    assert (i = 0 \/ i = 1 \/ i = 2) as [->|[->| ->]] by lia;
      (assert (j = 0 \/ j = 1 \/ j = 2) as [->|[->| ->]] by lia); reflexivity.
Defined.

Section Bounds.
Context {T : Type} `{DT : Dtype T}.
Implicit Types (m : lil T).

Lemma get1_out_of_range m i j : ~ in_range m i j -> _get1 m i j = Raise IndexError.
Proof.
  intros Hout. unfold _get1, in_range in *.
  destruct (Z.ltb_spec i 0).
  - destruct (Z.ltb_spec (i + fst (shape m)) 0); [done|].
    destruct (Z.leb_spec (fst (shape m)) (i + fst (shape m))); [done|]. simpl.
    destruct (Z.ltb_spec j 0).
    + destruct (Z.ltb_spec (j + snd (shape m)) 0); [done|].
      destruct (Z.leb_spec (snd (shape m)) (j + snd (shape m))); [done|]. lia.
    + destruct (Z.ltb_spec j 0); [lia|].
      destruct (Z.leb_spec (snd (shape m)) j); [done|]. lia.
  - destruct (Z.ltb_spec i 0); [lia|].
    destruct (Z.leb_spec (fst (shape m)) i); [done|]. simpl.
    destruct (Z.ltb_spec j 0).
    + destruct (Z.ltb_spec (j + snd (shape m)) 0); [done|].
      destruct (Z.leb_spec (snd (shape m)) (j + snd (shape m))); [done|]. lia.
    + destruct (Z.ltb_spec j 0); [lia|].
      destruct (Z.leb_spec (snd (shape m)) j); [done|]. lia.
Qed.

Lemma np_resolve_out (len : nat) (i : Z) :
  ~ (- Z.of_nat len <= i < Z.of_nat len) -> np_resolve len i = Raise IndexError.
Proof.
  intros Hout. unfold np_resolve.
  destruct (Z.ltb_spec i 0).
  - destruct (Z.ltb_spec (i + Z.of_nat len) 0); [done|].
    destruct (Z.leb_spec (Z.of_nat len) (i + Z.of_nat len)); [done|]. lia.
  - destruct (Z.ltb_spec i 0); [lia|].
    destruct (Z.leb_spec (Z.of_nat len) i); [done|]. lia.
Qed.

Lemma insertat2_out_of_range N (row : list Z) (dat : list T) j x :
  ~ (- N <= j < N) -> _insertat2 N row dat j x = Failed IndexError (row, dat).
Proof.
  intros Hout. unfold _insertat2.
  destruct (Z.ltb_spec j 0).
  - destruct (Z.ltb_spec (j + N) 0); [done|].
    destruct (Z.leb_spec N (j + N)); [done|]. lia.
  - destruct (Z.ltb_spec j 0); [lia|].
    destruct (Z.leb_spec N j); [done|]. lia.
Qed.

Lemma lil_insert_id m (k : nat) row dat :
  rows m !! k = Some row -> data m !! k = Some dat ->
  Lil (shape m) (<[k := row]> (rows m)) (<[k := dat]> (data m)) = m.
Proof. intros Hr Hd. rewrite !list_insert_id by done. by destruct m. Qed.

Lemma insert_cell_out_of_range m i j x :
  lil_inv m -> ~ in_range m i j -> insert_cell i j x m = Failed IndexError m.
Proof.
  intros [Hsh Hrows] Hout. unfold insert_cell.
  pose proof (Forall2_length _ _ _ Hrows) as Hlen. rewrite <- Hlen.
  destruct (decide (- fst (shape m) <= i < fst (shape m))) as [Hi|Hi].
  - rewrite np_resolve_wrap by (rewrite Hsh; by apply wrap_range).
    set (k := Z.to_nat (wrap (Z.of_nat (length (rows m))) i)).
    assert (k < length (rows m))%nat as Hk.
    { unfold k. rewrite Hsh. pose proof (wrap_range _ _ Hi). lia. }
    destruct (lookup_lt_is_Some_2 (rows m) k Hk) as [row Hrow].
    destruct (lookup_lt_is_Some_2 (data m) k ltac:(lia)) as [dat Hdat].
    rewrite Hrow, Hdat, insertat2_out_of_range by (unfold in_range in Hout; lia).
    simpl. by rewrite lil_insert_id.
  - by rewrite np_resolve_out by (rewrite Hsh; lia).
Qed.

(** X1.  An index outside the shape: [_get1] and the read raise [IndexError];
    so does the write [m[i, j] = x], and it leaves the matrix as it was. *)
Theorem out_of_range_raises_index_error m i j x :
  lil_inv m -> ~ in_range m i j ->
  _get1 m i j = Raise IndexError /\
  get m i j = Raise IndexError /\
  set m i j x = Failed IndexError m.
Proof.
  intros Hinv Hout.
  pose proof (get1_out_of_range m i j Hout) as Hg.
  split; [done|]. split; [by rewrite get_get1, Hg|].
  rewrite set_insert_cell. by apply insert_cell_out_of_range.
Qed.

(** X2.  A negative index names the cell that the index plus the extent names:
    reading and writing with [i] and [j] is reading and writing with the
    row and the column they wrap to. *)
Theorem negative_index_is_wrapped_index m i j x :
  lil_inv m -> in_range m i j ->
  _get1 m i j = _get1 m (Z.of_nat (row_of m i)) (col_of m j) /\
  set m i j x = set m (Z.of_nat (row_of m i)) (col_of m j) x.
Proof.
  intros Hinv [Hi Hj].
  pose proof (wrap_range _ _ Hi) as Hi'. pose proof (wrap_range _ _ Hj) as Hj'.
  assert (Z.of_nat (row_of m i) = wrap (fst (shape m)) i) as Hr
    by (unfold row_of; lia).
  split.
  - rewrite !get1_spec; try done.
    + rewrite (row_of_nonneg m (Z.of_nat (row_of m i))) by lia.
      rewrite (col_of_nonneg m (col_of m j)) by done.
      by rewrite Nat2Z.id.
    + unfold in_range, col_of. lia.
  - rewrite !set_insert_cell. unfold insert_cell.
    destruct Hinv as [Hsh Hrows].
    pose proof (Forall2_length _ _ _ Hrows) as Hlen. rewrite <- Hlen.
    rewrite np_resolve_wrap by (rewrite Hsh; done).
    rewrite (np_resolve_nonneg _ (Z.of_nat (row_of m i))) by lia.
    rewrite Hsh, Nat2Z.id. fold (row_of m i).
    destruct (rows m !! row_of m i) as [row|]; [|done].
    destruct (data m !! row_of m i) as [dat|]; [|done].
    assert (_insertat2 (snd (shape m)) row dat (col_of m j) x =
            _insertat2 (snd (shape m)) row dat j x) as ->; [|done].
    unfold _insertat2.
    replace (if col_of m j <? 0 then col_of m j + snd (shape m) else col_of m j)
      with (col_of m j) by (by destruct (Z.ltb_spec (col_of m j) 0); [unfold col_of in *; lia|]).
    done.
Qed.
End Bounds.

Lemma out_of_range_raises_index_error_witness :
  _get1 m33 3 0 = Raise IndexError /\
  get m33 3 0 = Raise IndexError /\
  set m33 3 0 1%float = Failed IndexError m33.
Proof.
  apply (out_of_range_raises_index_error m33 3 0 1%float); [exact m33_inv|].
  unfold in_range. simpl. lia.
Defined.

Lemma negative_index_is_wrapped_index_witness :
  _get1 m33 (-3) (-1) = _get1 m33 0 2 /\ set m33 (-3) (-1) 4%float = set m33 0 2 4%float.
Proof.
  apply (negative_index_is_wrapped_index m33 (-3) (-1) 4%float);
    [exact m33_inv|apply in_range_m33; lia].
Defined.

(** ** How single-cell writes compose *)

Section Compose.
Context {T : Type} `{DT : Dtype T}.
Implicit Types (m : lil T).

Lemma row_of_shape m m' i : shape m' = shape m -> row_of m' i = row_of m i.
Proof. unfold row_of. by intros ->. Qed.

Lemma col_of_shape m m' j : shape m' = shape m -> col_of m' j = col_of m j.
Proof. unfold col_of. by intros ->. Qed.

(** X4.  A second write to the same cell replaces the first: the matrix is the
    one the second write alone gives. *)
Theorem set_overwrites m i j x y :
  lil_inv m -> in_range m i j ->
  exists m1, set m i j x = Done m1 /\ set m1 i j y = set m i j y.
Proof.
  intros Hinv Hr.
  destruct (insert_cell_spec m i j x Hinv Hr) as (m1 & H1 & Hinv1 & Hsh1 & He1 & _).
  pose proof (in_range_shape m m1 i j Hsh1 Hr) as Hr1.
  destruct (insert_cell_spec m1 i j y Hinv1 Hr1) as (m2 & H2 & Hinv2 & Hsh2 & He2 & _).
  destruct (insert_cell_spec m i j y Hinv Hr) as (m3 & H3 & Hinv3 & Hsh3 & He3 & _).
  exists m1. rewrite !set_insert_cell, H1, H2, H3. split; [done|]. f_equal.
  apply lil_ext; [done|done|congruence|].
  intros i' j'. rewrite He2, He3, He1.
  rewrite (row_of_shape m m1), (col_of_shape m m1) by done.
  by destruct (bool_decide (i' = row_of m i) && (j' =? col_of m j)).
Qed.

(** X5.  Writes to two different cells can be made in either order. *)
Theorem sets_commute m i j x i' j' y :
  lil_inv m -> in_range m i j -> in_range m i' j' ->
  (row_of m i, col_of m j) <> (row_of m i', col_of m j') ->
  exists m1 m2,
    set m i j x = Done m1 /\ set m i' j' y = Done m2 /\
    set m1 i' j' y = set m2 i j x.
Proof.
  intros Hinv Hr Hr' Hne.
  destruct (insert_cell_spec m i j x Hinv Hr) as (m1 & H1 & Hinv1 & Hsh1 & He1 & _).
  destruct (insert_cell_spec m i' j' y Hinv Hr') as (m2 & H2 & Hinv2 & Hsh2 & He2 & _).
  pose proof (in_range_shape m m1 i' j' Hsh1 Hr') as Hr1.
  pose proof (in_range_shape m m2 i j Hsh2 Hr) as Hr2.
  destruct (insert_cell_spec m1 i' j' y Hinv1 Hr1) as (m12 & H12 & Hinv12 & Hsh12 & He12 & _).
  destruct (insert_cell_spec m2 i j x Hinv2 Hr2) as (m21 & H21 & Hinv21 & Hsh21 & He21 & _).
  exists m1, m2. rewrite !set_insert_cell, H1, H2, H12, H21.
  split; [done|]. split; [done|]. f_equal.
  apply lil_ext; [done|done|congruence|].
  intros a b. rewrite He12, He21, He1, He2.
  rewrite (row_of_shape m m1), (col_of_shape m m1) by done.
  rewrite (row_of_shape m m2), (col_of_shape m m2) by done.
  destruct (decide (a = row_of m i)) as [Ha|Ha], (decide (a = row_of m i')) as [Ha'|Ha'];
    rewrite ?(bool_decide_eq_true_2 _ Ha), ?(bool_decide_eq_false_2 _ Ha),
      ?(bool_decide_eq_true_2 _ Ha'), ?(bool_decide_eq_false_2 _ Ha'); simpl; try done.
  destruct (Z.eqb_spec b (col_of m j)) as [Hb|Hb], (Z.eqb_spec b (col_of m j')) as [Hb'|Hb'];
    try done.
  exfalso. apply Hne. congruence.
Qed.

(** X6.  Writing to a cell the value that was read from it changes nothing. *)
Theorem set_of_value_read_changes_nothing m i j v :
  lil_inv m -> get m i j = Ok (GScalar v) -> set m i j v = Done m.
Proof.
  intros Hinv Hg. rewrite get_get1 in Hg.
  destruct (_get1 m i j) as [u|] eqn:Hu; [|done]. injection Hg as ->.
  apply get1_Ok in Hu as [Hr ->]; [|done].
  destruct (insert_cell_spec m i j (entry m (row_of m i) (col_of m j)) Hinv Hr)
    as (m1 & H1 & Hinv1 & Hsh1 & He1 & _).
  rewrite set_insert_cell, H1. f_equal.
  apply lil_ext; [done|done|done|].
  intros i' j'. rewrite He1.
  destruct (decide (i' = row_of m i)) as [->|Hi];
    [|by rewrite bool_decide_eq_false_2 by done].
  rewrite bool_decide_eq_true_2 by done.
  destruct (Z.eqb_spec j' (col_of m j)) as [->|Hj]; [|done]. simpl.
  fold (stored (entry m (row_of m i) (col_of m j))). by apply stored_entry.
Qed.

Lemma set_all_entries m (calls : list (Z * Z * T)) :
  lil_inv m ->
  Forall (fun c => in_range m (fst (fst c)) (snd (fst c))) calls ->
  exists m',
    set_all calls m = Done m' /\ lil_inv m' /\ shape m' = shape m /\
    forall i' j',
      entry m' i' j' =
      match last_write (shape m) calls i' j' with
      | Some x => stored x
      | None => entry m i' j'
      end.
Proof.
  revert m. induction calls as [|[[i j] x] calls IH]; intros m Hinv Hr.
  - by exists m.
  - apply Forall_cons in Hr as [Hc Hr]. simpl in Hc.
    destruct (insert_cell_spec m i j x Hinv Hc) as (m1 & H1 & Hinv1 & Hsh1 & He1 & _).
    destruct (IH m1 Hinv1) as (m' & H' & Hinv' & Hsh' & He').
    { eapply Forall_impl; [exact Hr|]. intros c. by apply in_range_shape. }
    exists m'. unfold set_all in *. cbn [for_each]. simpl fst; simpl snd.
    rewrite set_insert_cell, H1. simpl. split; [done|]. split; [done|].
    split; [congruence|].
    intros i' j'. rewrite He', Hsh1. cbn [last_write]. simpl fst; simpl snd.
    destruct (last_write (shape m) calls i' j'); [done|].
    rewrite He1. unfold row_of, col_of. rewrite (Z.eqb_sym j').
    destruct (decide (Z.to_nat (wrap (fst (shape m)) i) = i')) as [<-|Hne].
    + rewrite !bool_decide_eq_true_2 by done. by destruct (_ =? _).
    + rewrite !bool_decide_eq_false_2; [done|done|congruence].
Qed.

(** X7.  After a sequence of [set] calls in range, every cell reads as the value
    of the last call aimed at it, zero when that value compares equal to 0,
    and as before when no call is aimed at it. *)
Theorem set_calls_last_write_wins m (calls : list (Z * Z * T)) :
  lil_inv m ->
  Forall (fun c => in_range m (fst (fst c)) (snd (fst c))) calls ->
  exists m',
    set_all calls m = Done m' /\ shape m' = shape m /\
    forall i j, in_range m i j ->
      _get1 m' i j =
      match last_write (shape m) calls (row_of m i) (col_of m j) with
      | Some x => Ok (stored x)
      | None => _get1 m i j
      end.
Proof.
  intros Hinv Hr.
  destruct (set_all_entries m calls Hinv Hr) as (m' & H' & Hinv' & Hsh' & He').
  exists m'. split; [done|]. split; [done|]. intros i j Hij.
  rewrite !get1_spec by (try done; by eapply in_range_shape).
  rewrite (row_of_shape m m'), (col_of_shape m m'), He' by done.
  by destruct (last_write _ _ _ _).
Qed.
End Compose.

Lemma set_overwrites_witness :
  exists m1, set m33 0 1 5%float = Done m1 /\ set m1 0 1 0%float = set m33 0 1 0%float.
Proof.
  apply (set_overwrites m33 0 1 5%float 0%float); [exact m33_inv|apply in_range_m33; lia].
Defined.

Lemma sets_commute_witness :
  exists m1 m2,
    set m33 0 1 5%float = Done m1 /\ set m33 (-1) 0 6%float = Done m2 /\
    set m1 (-1) 0 6%float = set m2 0 1 5%float.
Proof.
  apply (sets_commute m33 0 1 5%float (-1) 0 6%float);
    [exact m33_inv|apply in_range_m33; lia|apply in_range_m33; lia|].
  vm_compute. congruence.
Defined.

Lemma set_of_value_read_changes_nothing_witness : set m33 0 1 0%float = Done m33.
Proof.
  apply (set_of_value_read_changes_nothing m33 0 1 0%float); [exact m33_inv|reflexivity].
Defined.

Lemma set_calls_last_write_wins_witness :
  exists m',
    set_all [(0, 1, 5%float); (1, 1, 0%float); (0, -2, 6%float)] m33 = Done m' /\
    _get1 m' 0 1 = Ok 6%float /\ _get1 m' 1 1 = Ok 0%float /\ _get1 m' 0 2 = _get1 m33 0 2.
Proof.
  destruct (set_calls_last_write_wins m33
              [(0, 1, 5%float); (1, 1, 0%float); (0, -2, 6%float)] m33_inv)
    as (m' & Hm' & _ & Hget).
  - repeat constructor; vm_compute; congruence.
  - exists m'. split; [exact Hm'|].
    split; [|split].
    + apply (Hget 0 1). apply in_range_m33; lia.
    + apply (Hget 1 1). apply in_range_m33; lia.
    + apply (Hget 0 2). apply in_range_m33; lia.
Defined.

(** ** Counting the stored entries *)

Section Counting.
Context {T : Type} `{DT : Dtype T}.
Implicit Types (m : lil T).

Lemma sum_lengths_insert (ds : list (list T)) (k : nat) (dat dat' : list T) :
  ds !! k = Some dat ->
  fold_right Z.add 0 (map (fun r : list T => Z.of_nat (length r)) (<[k := dat']> ds)) =
  fold_right Z.add 0 (map (fun r : list T => Z.of_nat (length r)) ds)
  - Z.of_nat (length dat) + Z.of_nat (length dat').
Proof.
  revert k. induction ds as [|d ds IH]; intros [|k] Hk; simplify_eq/=; [lia|].
  rewrite (IH k Hk). lia.
Qed.

Lemma lookup_col_nonzero (row : list Z) (dat : list T) j :
  row_inv row dat ->
  nonzero (default zero (lookup_col row dat j)) =
  match lookup_col row dat j with Some _ => true | None => false end.
Proof.
  intros (_ & _ & Hnz). destruct (lookup_col row dat j) as [v|] eqn:E; simpl.
  - destruct (lookup_col_Some _ _ _ _ E) as (k & _ & Hk).
    rewrite Forall_forall in Hnz. apply Hnz. by eapply list_elem_of_lookup_2.
  - apply nonzero_zero.
Qed.

(** X9.  A [set] in range changes the number of stored entries by what it
    stores less what the cell stored: one more when a value that is not 0
    goes to a cell that read 0, one less when 0 goes to a cell that did not
    read 0, and the same number otherwise. *)
Theorem set_changes_count m i j x :
  lil_inv m -> in_range m i j ->
  exists v m',
    _get1 m i j = Ok v /\ set m i j x = Done m' /\
    getnnz m' = getnnz m + Z.b2z (nonzero x) - Z.b2z (nonzero v).
Proof.
  intros Hinv Hr.
  destruct (insert_cell_spec m i j x Hinv Hr)
    as (m' & H' & Hinv' & Hsh & _ & Hother & _ & row & dat & row' & dat' & Hrow & Hdat &
        Hrow' & Hdat' & Hins).
  exists (entry m (row_of m i) (col_of m j)), m'.
  split; [by apply get1_spec|]. rewrite set_insert_cell. split; [done|].
  assert (row_inv row dat) as Hri by (eapply Forall2_lookup_lr; [apply Hinv|done|done]).
  destruct Hr as [_ Hj]. apply wrap_range in Hj.
  destruct (insertat2_spec (snd (shape m)) row dat j x Hri Hj)
    as (row2 & dat2 & Hins2 & (_ & Hl2 & _) & _ & _ & Hlen).
  rewrite Hins in Hins2. injection Hins2 as <- <-.
  assert (data m' = <[row_of m i := dat']> (data m)) as Hd.
  { apply list_eq. intros k. destruct (decide (k = row_of m i)) as [->|Hne].
    - rewrite list_lookup_insert_eq by (by eapply lookup_lt_Some). done.
    - rewrite list_lookup_insert_ne by done. by apply Hother. }
  unfold getnnz. rewrite Hd, (sum_lengths_insert _ _ dat dat') by done.
  unfold entry. rewrite Hrow, Hdat, (lookup_col_nonzero row dat) by done.
  fold (col_of m j) in Hlen. destruct Hri as (_ & Hl & _). rewrite Hl2, Hl, Hlen.
  destruct (nonzero x), (lookup_col row dat (col_of m j)) eqn:E; simpl; try lia.
  destruct row; [|simpl; lia].
  destruct dat; simpl in E; done.
Qed.

Lemma sorted_length_bound (row : list Z) (lo hi : Z) :
  StronglySorted Z.lt row -> Forall (fun c => lo <= c < hi) row ->
  Z.of_nat (length row) <= Z.max 0 (hi - lo).
Proof.
  intros Hs. revert lo. induction Hs as [|c row Hs IH Hc]; intros lo Hb; simpl; [lia|].
  apply Forall_cons in Hb as [Hc0 Hb].
  assert (Forall (fun c' => c + 1 <= c' < hi) row) as Hb'.
  { apply Forall_forall. intros c' Hin. rewrite Forall_forall in Hc, Hb.
    pose proof (Hc c' Hin). pose proof (Hb c' Hin). lia. }
  specialize (IH (c + 1) Hb'). lia.
Qed.

Lemma getnnz_rows_bound m (N : Z) :
  0 <= N ->
  Forall2 row_inv (rows m) (data m) -> Forall (cols_below N) (rows m) ->
  0 <= getnnz m <= Z.of_nat (length (rows m)) * N.
Proof.
  intros HN. unfold getnnz. destruct m as [sh rs ds]. simpl. intros Hrows.
  induction Hrows as [|row dat rs ds Hrd _ IH]; intros Hc; simpl; [lia|].
  apply Forall_cons in Hc as [Hc0 Hc]. specialize (IH Hc).
  destruct Hrd as (Hs & Hl & _).
  pose proof (sorted_length_bound row 0 N Hs Hc0). lia.
Qed.

(** X10.  A matrix built from the empty matrix by [set] calls in range keeps
    every stored column inside [0, N), and never stores more than [M * N]
    entries. *)
Theorem built_by_sets_is_bounded (M N : Z) (calls : list (Z * Z * T)) :
  0 <= M -> 0 <= N ->
  Forall (fun c => - M <= fst (fst c) < M /\ - N <= snd (fst c) < N) calls ->
  exists m0 m,
    lil_empty M N = Ok m0 /\ set_all calls m0 = Done m /\
    Forall (cols_below N) (rows m) /\ 0 <= getnnz m <= M * N.
Proof.
  intros HM HN Hcalls.
  destruct (lil_empty M N) as [m0|e] eqn:E0.
  2:{ unfold lil_empty in E0. destruct (Z.ltb_spec M 0); [lia|done]. }
  destruct (lil_empty_inv M N m0 E0) as [Hinv0 Hsh0].
  assert (Forall (fun c : Z * Z * T => in_range m0 (fst (fst c)) (snd (fst c))) calls) as Hr.
  { eapply Forall_impl; [exact Hcalls|]. intros c. unfold in_range. by rewrite Hsh0. }
  destruct (set_all_inv m0 calls Hinv0 Hr) as (m & Hm & Hsh & Hinv).
  exists m0, m. split; [done|]. split; [done|].
  pose proof (set_all_cols m0 calls m Hinv0 Hr (lil_empty_cols M N m0 E0) Hm) as Hcols.
  rewrite Hsh, Hsh0 in Hcols. simpl in Hcols. split; [done|].
  destruct Hinv as [Hlen Hrows]. rewrite Hsh, Hsh0 in Hlen. simpl in Hlen.
  rewrite <- Hlen. by apply getnnz_rows_bound.
Qed.

(** X11.  The empty matrix of a shape with [0 <= M]: it stores nothing, and
    every cell in range reads zero. *)
Theorem empty_matrix_reads_zero (M N : Z) :
  0 <= M ->
  exists m : lil T,
    lil_empty M N = Ok m /\ shape m = (M, N) /\ getnnz m = 0 /\
    forall i j, - M <= i < M -> - N <= j < N -> get m i j = Ok (GScalar zero).
Proof.
  intros HM.
  destruct (lil_empty M N) as [m|e] eqn:E.
  2:{ unfold lil_empty in E. destruct (Z.ltb_spec M 0); [lia|done]. }
  destruct (lil_empty_inv M N m E) as [Hinv Hsh].
  exists m. split; [done|]. split; [done|].
  unfold lil_empty in E. destruct (Z.ltb_spec M 0); [lia|]. injection E as <-.
  split; [apply sum_lengths_replicate_nil|].
  intros i j Hi Hj. rewrite get_get1, get1_spec by (done || (unfold in_range; simpl; lia)).
  simpl. f_equal. f_equal. unfold entry. simpl.
  destruct (replicate (Z.to_nat M) [] !! _) as [row|] eqn:Hrow; [|done].
  apply lookup_replicate in Hrow as [-> _].
  by destruct (replicate (Z.to_nat M) [] !! _).
Qed.
End Counting.

Lemma set_changes_count_witness :
  exists v m',
    _get1 m33 0 1 = Ok v /\ set m33 0 1 5%float = Done m' /\
    getnnz m' = getnnz m33 + Z.b2z (nonzero 5%float) - Z.b2z (nonzero v).
Proof.
  apply (set_changes_count m33 0 1 5%float); [exact m33_inv|apply in_range_m33; lia].
Defined.

Lemma built_by_sets_is_bounded_witness :
  exists m0 m,
    lil_empty 3 3 = Ok m0 /\ set_all scenario_calls m0 = Done m /\
    Forall (cols_below 3) (rows m) /\ 0 <= getnnz m <= 3 * 3.
Proof.
  apply (built_by_sets_is_bounded 3 3 scenario_calls); [lia|lia|].
  repeat constructor; simpl; lia.
Defined.

Lemma empty_matrix_reads_zero_witness :
  exists m : lil float,
    lil_empty 2 3 = Ok m /\ shape m = (2, 3) /\ getnnz m = 0 /\
    forall i j, - 2 <= i < 2 -> - 3 <= j < 3 -> get m i j = Ok (GScalar zero).
Proof. apply (empty_matrix_reads_zero 2 3). lia. Defined.

(** ** Writing at lists and slices *)

Section Loops.
Context {A S : Type}.

Lemma for_each_ext (f g : A -> S -> outcome S) (l : list A) (s : S) :
  (forall a s', f a s' = g a s') -> for_each f l s = for_each g l s.
Proof.
  intros Hfg. revert s. induction l as [|a l IH]; intros s; simpl; [done|].
  rewrite Hfg. destruct (g a s); simpl; [apply IH|done].
Qed.

Lemma for_each_app (f : A -> S -> outcome S) (l1 l2 : list A) (s : S) :
  for_each f (l1 ++ l2) s = obind (for_each f l1 s) (for_each f l2).
Proof.
  revert s. induction l1 as [|a l1 IH]; intros s; simpl; [done|].
  destruct (f a s); simpl; [apply IH|done].
Qed.
End Loops.

Section Lists.
Context {T : Type} `{DT : Dtype T}.
Implicit Types (m : lil T).

(** X13.  Writing a list of values at a list of rows and a list of columns, all
    of one length, is the sequence of the single writes [m[i, j] = x] in
    the order of the lists: the same matrix when it returns, the same
    exception and the same matrix left behind when it raises. *)
Theorem setitem_lists_is_sequence_of_sets m (il jl : list Z) (xs : list T) :
  length jl = length il -> length xs = length il ->
  __setitem__ m (IPair (ASeq il) (ASeq jl)) (XSeq xs) = set_all (zip (zip il jl) xs) m.
Proof.
  intros Hj Hx. unfold __setitem__, setitem_coords, broadcast_pair, shape_eqb. simpl.
  rewrite Hj, Nat.eqb_refl. simpl.
  unfold setitem_dense, shape_is, shape_eqb. simpl. rewrite Hx.
  destruct (Nat.eqb_spec (length il) 1) as [H1|H1].
  - destruct il as [|i [|? ?]]; try done. destruct jl as [|j [|? ?]]; try done.
    destruct xs as [|x [|? ?]]; try done.
    unfold insert_same, set_all. simpl. by rewrite set_insert_cell.
  - rewrite Nat.eqb_refl. unfold insert_zip, set_all. simpl.
    apply for_each_ext. intros [[i j] x] m'. simpl. by rewrite set_insert_cell.
Qed.

(** X15.  Lists that have no common length: the write raises [ValueError] before
    it writes anything.  That is, a list of rows and a list of columns of
    different lengths, none of length 1; or as many rows as columns and a
    list of values of another length that is not 1. *)
Theorem setitem_shape_mismatch_writes_nothing m (il jl : list Z) (xs : list T) :
  (length il <> length jl /\ length il <> 1%nat /\ length jl <> 1%nat) \/
  (length il = length jl /\ length xs <> length il /\ length xs <> 1%nat) ->
  __setitem__ m (IPair (ASeq il) (ASeq jl)) (XSeq xs) = Failed ValueError m.
Proof.
  intros Hm. unfold __setitem__, setitem_coords, broadcast_pair, shape_eqb, shape_is. simpl.
  destruct Hm as [(Hij & Hi & Hj)|(Hij & Hx & Hx1)].
  - replace (length jl =? length il)%nat with false
      by (symmetry; apply Nat.eqb_neq; lia).
    replace (length il =? 1)%nat with false by (symmetry; by apply Nat.eqb_neq).
    replace (length jl =? 1)%nat with false by (symmetry; by apply Nat.eqb_neq).
    replace (length il =? length jl)%nat with false
      by (symmetry; by apply Nat.eqb_neq).
    done.
  - rewrite Hij, Nat.eqb_refl. simpl.
    unfold setitem_dense, shape_is, shape_eqb. simpl.
    replace (length xs =? 1)%nat with false by (symmetry; by apply Nat.eqb_neq).
    replace (length jl =? length xs)%nat with false
      by (symmetry; apply Nat.eqb_neq; lia).
    replace (length xs =? length jl)%nat with false
      by (symmetry; apply Nat.eqb_neq; lia).
    done.
Qed.

(** X16.  A slice that expands to no index makes the write return at once: the
    matrix stays as it is, whatever the other axis and the right-hand side
    are (the full-matrix write of a sparse right-hand side apart, which is
    decided before the slices are expanded). *)
Theorem setitem_empty_slice_writes_nothing m (i j : axis) (x : rhs T) :
  empty_slice i (fst (shape m)) \/ empty_slice j (snd (shape m)) ->
  (forall s, x = XSparse s -> is_full_slice i && is_full_slice j = false) ->
  __setitem__ m (IPair i j) x = Done m.
Proof.
  intros He Hx. unfold __setitem__. cbn [unpack_index].
  assert (match x with
          | XSparse s => if is_full_slice i && is_full_slice j then Some s else None
          | _ => None
          end = None) as ->.
  { destruct x as [| | |s]; try done. by rewrite (Hx s). }
  assert (setitem_coords (shape m) i j = Ok None) as ->; [|done].
  unfold setitem_coords.
  destruct He as [(a & b & c & -> & He)|(a & b & c & -> & He)].
  - simpl. by rewrite He.
  - rewrite orb_true_r. destruct (slice_axis i (fst (shape m))); [|done].
    simpl. by rewrite He.
Qed.
End Lists.

Lemma setitem_lists_is_sequence_of_sets_witness :
  __setitem__ m33 (IPair (ASeq [0; -1]) (ASeq [1; 0])) (XSeq [5; 6]%float) =
  set_all [(0, 1, 5%float); (-1, 0, 6%float)] m33.
Proof.
  apply (setitem_lists_is_sequence_of_sets m33 [0; -1] [1; 0] [5; 6]%float); reflexivity.
Defined.

Lemma setitem_shape_mismatch_writes_nothing_witness :
  __setitem__ m33 (IPair (ASeq [0; 1]) (ASeq [0; 1])) (XSeq [5; 6; 7]%float) =
  Failed ValueError m33.
Proof.
  apply (setitem_shape_mismatch_writes_nothing m33 [0; 1] [0; 1] [5; 6; 7]%float).
  right. simpl. lia.
Defined.

Lemma setitem_empty_slice_writes_nothing_witness :
  __setitem__ m33 (IPair (ASlice (Some 2) (Some 1) None) (AInt 7)) (XSeq [5; 6]%float) =
  Done m33.
Proof.
  apply (setitem_empty_slice_writes_nothing m33).
  - left. by exists (Some 2), (Some 1), None.
  - intros s Hs. discriminate Hs.
Defined.

(** ** Slices that reach past the end *)

Section PastEnd.
Context {T : Type} `{DT : Dtype T}.
Implicit Types (m : lil T).

(** The slice [:b] with [0 <= b] expands to 0, 1, ..., b - 1, whatever the
    extent of the axis is: it is not cut at the extent. *)
Lemma slicetoseq_upto (b E : Z) :
  0 <= b -> _slicetoseq None (Some b) None E = map Z.of_nat (seq 0 (Z.to_nat b)).
Proof.
  intros Hb. unfold _slicetoseq, py_range, range_len.
  destruct (Z.ltb_spec b 0); [lia|]. change (0 <? 1) with true. cbv iota.
  replace ((b - 0 + 1 - 1) / 1) with b by (rewrite Z.div_1_r; lia).
  apply map_ext. intros k. lia.
Qed.

Lemma concat_map_replicate_1 {A : Type} (l : list A) : concat (map (replicate 1) l) = l.
Proof. induction l as [|a l IH]; [done|]. cbn [map concat]. by rewrite IH. Qed.

Lemma concat_replicate_singleton {A : Type} (n : nat) (a : A) :
  concat (replicate n [a]) = replicate n a.
Proof. induction n as [|n IH]; simpl; [done|]. by rewrite IH. Qed.

Lemma zip_constant_r {A B : Type} (l : list A) (b : B) :
  zip l (replicate (length l) b) = map (fun a => (a, b)) l.
Proof. induction l as [|a l IH]; simpl; [done|]. by rewrite IH. Qed.

(** The coordinates of [m[:b, j]]: the rows 0, ..., b - 1 against the one
    column [j]. *)
Lemma column_grid (il : list Z) (j : Z) :
  il <> [] ->
  outer_grid il [j] =
  Ok (Arr2 (length il) 1 il, Arr2 (length il * 1) 1 (replicate (length il) j)).
Proof.
  intros Hne. unfold outer_grid, np_outer_ones, np_vstack_rep1, np_vstack_rep.
  cbn [nrows ncols elems length]. rewrite concat_map_replicate_1, concat_replicate_singleton.
  by destruct il.
Qed.

(** X17.  A write through a slice that reaches past the last row is not cut at
    the extent and is not undone: [m[:b, j] = x] with [b] above the number
    of rows writes [x] to column [j] of every row, and then raises
    [IndexError] at the row after the last one. *)
Theorem setitem_slice_past_end_is_partial m (b j : Z) (x : T) :
  lil_inv m -> fst (shape m) < b -> - snd (shape m) <= j < snd (shape m) ->
  exists m',
    __setitem__ m (IPair (ASlice None (Some b) None) (AInt j)) (XScalar x) =
      Failed IndexError m' /\
    lil_inv m' /\ shape m' = shape m /\
    forall i' j', in_range m i' j' ->
      _get1 m' i' j' = if col_of m j' =? col_of m j then Ok (stored x) else _get1 m i' j'.
Proof.
  intros Hinv Hb Hj.
  assert (0 <= fst (shape m)) as HM by (destruct Hinv as [<- _]; lia).
  set (M := Z.to_nat (fst (shape m))).
  set (cells := map (fun i : Z => (i, j)) (map Z.of_nat (seq 0 M))).
  destruct (insert_cells_same m cells x Hinv) as (m' & Hm' & Hinv' & Hsh & Hin & Hout).
  { apply Forall_forall. intros c Hc. unfold cells in Hc.
    apply list_elem_of_fmap in Hc as (i & -> & Hi).
    apply list_elem_of_fmap in Hi as (k & -> & Hk). apply elem_of_seq in Hk.
    unfold cell_in_range. simpl. lia. }
  exists m'. split; [|split; [done|split; [done|]]].
  - unfold __setitem__, setitem_coords. simpl.
    rewrite slicetoseq_upto by lia.
    assert (Z.to_nat b = (M + S (Z.to_nat b - M - 1))%nat) as Hsplit by lia.
    set (il := map Z.of_nat (seq 0 (Z.to_nat b))).
    assert (il <> []) as Hne.
    { unfold il. rewrite Hsplit, Nat.add_succ_r. simpl. done. }
    destruct il as [|i0 il0] eqn:Eil; [done|]. rewrite <- Eil.
    rewrite column_grid by (by rewrite Eil). simpl.
    unfold setitem_dense. simpl. rewrite insert_same_cells. simpl.
    rewrite zip_constant_r.
    unfold il. rewrite Hsplit, seq_app, !map_app. fold cells.
    rewrite for_each_app, Hm'. simpl.
    unfold insert_cell at 1. destruct Hinv' as [Hlen' Hrows'].
    rewrite np_resolve_out; [done|]. rewrite Hlen', Hsh. lia.
  - intros i' j' Hr.
    rewrite !get1_spec by (try done; by eapply in_range_shape).
    rewrite (row_of_shape m m'), (col_of_shape m m') by done.
    assert (targets (shape m) cells (row_of m i') (col_of m j') <->
            col_of m j' = col_of m j) as Ht.
    { unfold targets. rewrite Exists_exists. split.
      - intros (c & Hc & _ & Hcj). unfold cells in Hc.
        apply list_elem_of_fmap in Hc as (i & -> & _). simpl in Hcj. by symmetry.
      - intros Hcj. exists (Z.of_nat (row_of m i'), j).
        destruct Hr as [Hi' _]. apply wrap_range in Hi'.
        split; [|split; [|by symmetry]].
        + unfold cells. apply list_elem_of_fmap. eexists. split; [done|].
          apply list_elem_of_fmap. exists (row_of m i'). split; [done|].
          apply elem_of_seq. unfold row_of, M. lia.
        + simpl. unfold wrap. destruct (Z.ltb_spec (Z.of_nat (row_of m i')) 0); lia. }
    destruct (Z.eqb_spec (col_of m j') (col_of m j)) as [Hc|Hc].
    + f_equal. apply Hin. by apply Ht.
    + f_equal. apply Hout. intros Htg. by apply Ht in Htg.
Qed.

Lemma map_result_raises {A B : Type} (f : A -> result B) (l : list A) (e : exn) :
  (forall a e', a ∈ l -> f a = Raise e' -> e' = e) ->
  (exists a, a ∈ l /\ f a = Raise e) ->
  map_result f l = Raise e.
Proof.
  induction l as [|a l IH]; intros Honly (a0 & Ha0 & Hf0); [by apply elem_of_nil in Ha0|].
  simpl. destruct (f a) as [b|e'] eqn:Hfa; simpl.
  - rewrite IH; [done| |].
    + intros a' e' Ha'. apply Honly. by right.
    + apply elem_of_cons in Ha0 as [->|Ha0]; [congruence|]. by exists a0.
  - f_equal. eapply Honly; [|done]. by left.
Qed.

(** [_get1] raises nothing but [IndexError]; nor does the read of one
    position of the coordinate arrays. *)
Lemma get1_raises_index_error m i j e : _get1 m i j = Raise e -> e = IndexError.
Proof.
  unfold _get1, np_index, np_resolve, py_index.
  repeat match goal with
         | |- context [if ?b then _ else _] => destruct b; simpl
         | |- context [match ?o with Some _ => _ | None => _ end] => destruct o; simpl
         end; congruence.
Qed.

Lemma get_at_raises_index_error m (Ia Ja : arr2 Z) ii jj e :
  get_at m Ia Ja ii jj = Raise e -> e = IndexError.
Proof.
  unfold get_at, arr2_get, py_index.
  repeat match goal with
         | |- context [if ?b then _ else _] => destruct b; simpl
         | |- context [match ?o with Some _ => _ | None => _ end] => destruct o; simpl
         end; try congruence; apply get1_raises_index_error.
Qed.

(** X18.  A read through a slice that reaches past the last row is not cut at
    the extent either: [m[:b, j]] with [b] above the number of rows raises
    [IndexError]. *)
Theorem getitem_slice_past_end_raises m (b j : Z) :
  0 <= fst (shape m) < b ->
  __getitem__ m (IPair (ASlice None (Some b) None) (AInt j)) = Raise IndexError.
Proof.
  intros Hb. unfold __getitem__, getitem_coords. simpl.
  rewrite slicetoseq_upto by lia.
  set (il := map Z.of_nat (seq 0 (Z.to_nat b))).
  assert (length il = Z.to_nat b) as Hlen by (unfold il; by rewrite length_map, length_seq).
  assert (il <> []) as Hne by (intros E; rewrite E in Hlen; simpl in Hlen; lia).
  assert (il !! Z.to_nat (fst (shape m)) = Some (fst (shape m))) as Hil.
  { unfold il. rewrite list_lookup_fmap, lookup_seq_lt by lia. simpl. f_equal. lia. }
  clearbody il.
  assert (match il with [] => None | z :: l0 => Some (N1 (z :: l0)) end = Some (N1 il)) as ->
    by (by destruct il).
  rewrite column_grid by done. simpl.
  replace (shape_eqb _ _ && shape_is _ 1 1 && false) with false by (by rewrite andb_false_r).
  rewrite (map_result_raises _ _ IndexError); [done| |].
  - intros ii e _ He.
    destruct (get_at m _ _ ii 0) as [v|e'] eqn:Hg; [done|]. injection He as <-.
    by apply get_at_raises_index_error in Hg.
  - exists (Z.to_nat (fst (shape m))). split; [apply elem_of_seq; lia|].
    assert ((Z.to_nat (fst (shape m)) <? length il)%nat = true) as Hlt
      by (apply Nat.ltb_lt; lia).
    simpl. unfold get_at, arr2_get. simpl. rewrite Hlt. simpl. unfold py_index.
    rewrite ?Nat.add_0_r, ?Nat.mul_1_r, Hil. simpl.
    rewrite ?Hlt, lookup_replicate_2 by lia. simpl.
    rewrite get1_out_of_range; [done|]. unfold in_range. lia.
Qed.
End PastEnd.

Lemma setitem_slice_past_end_is_partial_witness :
  exists m',
    __setitem__ m33 (IPair (ASlice None (Some 5) None) (AInt 1)) (XScalar 9%float) =
      Failed IndexError m' /\
    _get1 m' 2 1 = Ok 9%float /\ _get1 m' 0 2 = _get1 m33 0 2.
Proof.
  destruct (setitem_slice_past_end_is_partial m33 5 1 9%float m33_inv)
    as (m' & Hm' & _ & _ & Hget); [simpl; lia|simpl; lia|].
  exists m'. split; [exact Hm'|]. split.
  - apply (Hget 2 1). apply in_range_m33; lia.
  - apply (Hget 0 2). apply in_range_m33; lia.
Defined.

Lemma getitem_slice_past_end_raises_witness :
  __getitem__ m33 (IPair (ASlice None (Some 4) None) (AInt 0)) = Raise IndexError.
Proof. apply (getitem_slice_past_end_raises m33 4 0). simpl. lia. Defined.

(** ** One row, the dense array, the compressed rows *)

Section RowCopy.
Context {T : Type} `{DT : Dtype T}.
Implicit Types (m : lil T).

Lemma getrow_found m (i : Z) (k : nat) (row : list Z) (dat : list T) :
  np_resolve (length (rows m)) i = Ok k -> np_resolve (length (data m)) i = Ok k ->
  rows m !! k = Some row -> data m !! k = Some dat ->
  getrow m i = Ok (Lil (1, snd (shape m)) [row] [dat]).
Proof.
  intros Hkr Hkd Hrow Hdat. unfold getrow, lil_empty, np_index. simpl.
  rewrite Hkr, Hkd. simpl. by rewrite Hrow, Hdat.
Qed.

(** X21.  [getrow(i)] with a row index in range, negative ones included, returns
    a matrix with the one row and the columns of [m] that satisfies the
    invariant and reads, at every column, what [m] reads in row [i]; with
    a row index outside the shape it raises [IndexError]. *)
Theorem getrow_reads_the_row m (i : Z) :
  lil_inv m ->
  (- fst (shape m) <= i < fst (shape m) ->
   exists r,
     getrow m i = Ok r /\ shape r = (1, snd (shape m)) /\ lil_inv r /\
     forall j, - snd (shape m) <= j < snd (shape m) -> _get1 r 0 j = _get1 m i j) /\
  (~ (- fst (shape m) <= i < fst (shape m)) -> getrow m i = Raise IndexError).
Proof.
  intros Hinv. pose proof Hinv as [Hsh Hrows].
  pose proof (Forall2_length _ _ _ Hrows) as Hlen.
  unfold getrow, lil_empty, np_index. simpl. split.
  - intros Hi. pose proof (wrap_range _ _ Hi) as Hi'.
    rewrite <- Hlen. rewrite np_resolve_wrap; rewrite Hsh; [|done].
    fold (row_of m i). simpl.
    destruct (lookup_lt_is_Some_2 (rows m) (row_of m i)) as [row Hrow];
      [unfold row_of; lia|].
    destruct (lookup_lt_is_Some_2 (data m) (row_of m i)) as [dat Hdat];
      [unfold row_of; lia|].
    rewrite Hrow, Hdat. simpl.
    assert (lil_inv (Lil (1, snd (shape m)) [row] [dat])) as Hinvr.
    { split; [done|]. simpl. apply Forall2_cons_2; [|constructor].
      by eapply Forall2_lookup_lr. }
    eexists. split; [done|]. split; [done|]. split; [done|].
    intros j Hj. rewrite !get1_spec by (done || (unfold in_range; simpl; lia)).
    f_equal. unfold entry, col_of. simpl. by rewrite Hrow, Hdat.
  - intros Hi. by rewrite (np_resolve_out (length (rows m))) by (rewrite Hsh; lia).
Qed.
End RowCopy.

Lemma getrow_reads_the_row_witness :
  exists r,
    getrow m33 (-3) = Ok r /\ shape r = (1, 3) /\ _get1 r 0 2 = _get1 m33 (-3) 2.
Proof.
  destruct (getrow_reads_the_row m33 (-3) m33_inv) as [Hin _].
  destruct Hin as (r & Hr & Hsh & _ & Hget); [simpl; lia|].
  exists r. split; [exact Hr|]. split; [exact Hsh|]. apply Hget. simpl. lia.
Defined.

Section ToArray.
Context {T : Type} `{DT : Dtype T}.
Implicit Types (m : lil T) (d : arr2 T).

Lemma flat_index_inj (n i i' c c' : nat) :
  (c < n)%nat -> (c' < n)%nat -> (i * n + c = i' * n + c')%nat -> i = i' /\ c = c'.
Proof. intros Hc Hc' He. assert (i = i') by nia. subst. lia. Qed.

(** The inner loop of [toarray] over the columns of one row. *)
Lemma toarray_row_spec (i : nat) (row : list Z) (dat : list T) :
  forall (pos : nat) d,
  wf_arr2 d -> (i < nrows d)%nat ->
  Forall (fun c => 0 <= c < Z.of_nat (ncols d)) row -> NoDup row ->
  (length row + pos <= length dat)%nat ->
  exists d',
    toarray_row i row dat pos d = Ok d' /\
    nrows d' = nrows d /\ ncols d' = ncols d /\ wf_arr2 d' /\
    forall i' c, (i' < nrows d)%nat -> (c < ncols d)%nat ->
      elems d' !! (i' * ncols d + c)%nat =
      if decide (i' = i)
      then match lookup_col row (drop pos dat) (Z.of_nat c) with
           | Some v => Some v
           | None => elems d !! (i' * ncols d + c)%nat
           end
      else elems d !! (i' * ncols d + c)%nat.
Proof.
  induction row as [|j row IH]; intros pos d Hwf Hi Hcols Hnd Hlen.
  - exists d. split; [done|]. split; [done|]. split; [done|]. split; [done|].
    intros i' c _ _. by destruct (decide (i' = i)).
  - apply Forall_cons in Hcols as [Hj Hcols]. apply NoDup_cons in Hnd as [Hjn Hnd].
    simpl in Hlen. cbn [toarray_row]. unfold py_index.
    destruct (lookup_lt_is_Some_2 dat pos ltac:(lia)) as [v Hv]. rewrite Hv.
    cbn [mbind result_bind]. unfold dense_store.
    replace (i <? nrows d)%nat with true by (symmetry; by apply Nat.ltb_lt).
    rewrite np_resolve_nonneg by done. cbn [mbind result_bind].
    set (d1 := Arr2 (nrows d) (ncols d) (<[(i * ncols d + Z.to_nat j)%nat := v]> (elems d))).
    assert (i * ncols d + Z.to_nat j < length (elems d))%nat as Hidx
      by (rewrite Hwf; nia).
    destruct (IH (S pos) d1) as (d' & Hd' & Hnr & Hnc & Hwf' & Hel).
    { unfold wf_arr2, d1. simpl. by rewrite length_insert. }
    { done. }
    { done. }
    { done. }
    { lia. }
    exists d'. split; [done|]. split; [done|]. split; [done|]. split; [done|].
    intros i' c Hi' Hc. pose proof (Hel i' c Hi' Hc) as Hel'.
    unfold d1 in Hel'. cbn [nrows ncols elems] in Hel'. rewrite Hel'.
    rewrite (drop_S _ _ _ Hv). cbn [lookup_col].
    destruct (decide (i' = i)) as [->|Hne].
    + destruct (Z.eqb_spec j (Z.of_nat c)) as [->|Hjc].
      * rewrite lookup_col_absent.
        2:{ apply Forall_forall. intros x Hx ->. by apply Hjn. }
        rewrite Nat2Z.id, list_lookup_insert_eq by (rewrite Nat2Z.id in Hidx; done). done.
      * destruct (lookup_col row (drop (S pos) dat) (Z.of_nat c)); [done|].
        apply list_lookup_insert_ne. lia.
    + apply list_lookup_insert_ne. intros He.
      apply flat_index_inj in He as [? _]; [done|lia|done].
Qed.

(** The outer loop over the rows. *)
Lemma toarray_rows_spec m (rs : list (list Z)) :
  forall (i0 : nat) d,
  wf_arr2 d -> (i0 + length rs <= nrows d)%nat ->
  (forall k row, rs !! k = Some row ->
     exists dat, data m !! (i0 + k)%nat = Some dat /\ row_inv row dat /\
                 Forall (fun c => 0 <= c < Z.of_nat (ncols d)) row) ->
  exists d',
    toarray_rows m i0 rs d = Ok d' /\
    nrows d' = nrows d /\ ncols d' = ncols d /\
    forall i' c, (i' < nrows d)%nat -> (c < ncols d)%nat ->
      elems d' !! (i' * ncols d + c)%nat =
      match rs !! (i' - i0)%nat with
      | Some row =>
          if decide (i0 <= i')%nat
          then match lookup_col row (default [] (data m !! i')) (Z.of_nat c) with
               | Some v => Some v
               | None => elems d !! (i' * ncols d + c)%nat
               end
          else elems d !! (i' * ncols d + c)%nat
      | None => elems d !! (i' * ncols d + c)%nat
      end.
Proof.
  induction rs as [|row rs IH]; intros i0 d Hwf Hlen Hrs.
  - exists d. split; [done|]. split; [done|]. split; [done|]. intros i' c _ _.
    by rewrite lookup_nil.
  - simpl in Hlen. cbn [toarray_rows]. unfold py_index.
    destruct (Hrs 0%nat row eq_refl) as (dat & Hdat & (Hs & Hl & _) & Hcols).
    rewrite Nat.add_0_r in Hdat. rewrite Hdat. cbn [mbind result_bind].
    destruct (toarray_row_spec i0 row dat 0 d Hwf ltac:(lia) Hcols (sorted_NoDup row Hs)
                ltac:(lia)) as (d1 & -> & Hnr1 & Hnc1 & Hwf1 & Hel1).
    cbn [mbind result_bind].
    destruct (IH (S i0) d1) as (d' & Hd' & Hnr & Hnc & Hel); [done|lia| |].
    { intros k row' Hk. destruct (Hrs (S k) row' Hk) as (dat' & Hd' & Hri & Hc').
      exists dat'. replace (S i0 + k)%nat with (i0 + S k)%nat by lia.
      rewrite Hnc1. done. }
    exists d'. split; [done|]. split; [congruence|]. split; [congruence|].
    intros i' c Hi' Hc. rewrite Hnc1, Hnr1 in Hel. rewrite (Hel i' c Hi' Hc).
    rewrite (Hel1 i' c Hi' Hc).
    destruct (decide (i' = i0)) as [->|Hne].
    + rewrite Nat.sub_diag. replace (i0 - S i0)%nat with 0%nat by lia. simpl.
      destruct (rs !! 0%nat); [|by rewrite decide_True, Hdat by lia].
      rewrite decide_False by lia. by rewrite decide_True, Hdat by lia.
    + destruct (decide (i0 <= i')%nat) as [Hle|Hgt].
      * replace (i' - i0)%nat with (S (i' - S i0)) by lia. simpl.
        destruct (rs !! (i' - S i0)%nat); [|done]. by rewrite decide_True by lia.
      * replace (i' - S i0)%nat with 0%nat by lia. replace (i' - i0)%nat with 0%nat by lia.
        simpl. destruct (rs !! 0%nat); [|done]. by rewrite decide_False by lia.
Qed.

(** The two loops on the zero-filled array. *)
Lemma toarray_elems m :
  lil_inv m -> 0 <= snd (shape m) -> Forall (cols_below (snd (shape m))) (rows m) ->
  exists d,
    toarray m = Ok d /\
    nrows d = Z.to_nat (fst (shape m)) /\ ncols d = Z.to_nat (snd (shape m)) /\
    forall i j row dat, (j < ncols d)%nat ->
      rows m !! i = Some row -> data m !! i = Some dat ->
      elems d !! (i * ncols d + j)%nat =
      Some (default zero (lookup_col row dat (Z.of_nat j))).
Proof.
  intros Hinv HN Hcols. pose proof Hinv as [Hsh Hrows].
  pose proof (Forall2_length _ _ _ Hrows) as Hlen.
  unfold toarray.
  destruct (Z.ltb_spec (fst (shape m)) 0); [lia|].
  destruct (Z.ltb_spec (snd (shape m)) 0); [lia|]. simpl.
  set (M := Z.to_nat (fst (shape m))). set (N := Z.to_nat (snd (shape m))).
  destruct (toarray_rows_spec m (rows m) 0 (np_full M N zero))
    as (d & Hd & Hnr & Hnc & Hel).
  { unfold wf_arr2. simpl. by rewrite length_replicate. }
  { simpl. lia. }
  { intros k row Hk. pose proof (lookup_lt_Some _ _ _ Hk) as Hlt.
    destruct (lookup_lt_is_Some_2 (data m) k ltac:(lia)) as [dat Hdat].
    exists dat. split; [done|]. split; [by eapply Forall2_lookup_lr|].
    eapply Forall_lookup_1 in Hcols; [|done]. simpl.
    eapply Forall_impl; [exact Hcols|]. simpl. intros c Hc. unfold N. lia. }
  simpl in Hnr, Hnc, Hel.
  exists d. split; [done|]. split; [done|]. split; [done|].
  intros i j row dat Hj Hrow Hdat. rewrite Hnc in Hj |- *.
  pose proof (lookup_lt_Some _ _ _ Hrow) as Hi.
  rewrite (Hel i j) by (unfold M; lia). rewrite Nat.sub_0_r, Hrow, Hdat. simpl.
  assert (replicate (M * N) zero !! (i * N + j)%nat = Some zero) as Hz
    by (apply lookup_replicate_2; unfold M; nia).
  rewrite Hz. by destruct (lookup_col row dat (Z.of_nat j)).
Qed.

(** X24.  [toarray] on a matrix that satisfies the invariant and keeps its
    columns inside its shape: it returns an array of the shape of the
    matrix whose element at every position is what [_get1] returns
    there. *)
Theorem toarray_agrees_with_get1 m :
  lil_inv m -> 0 <= snd (shape m) -> Forall (cols_below (snd (shape m))) (rows m) ->
  exists d,
    toarray m = Ok d /\
    Z.of_nat (nrows d) = fst (shape m) /\ Z.of_nat (ncols d) = snd (shape m) /\
    forall i j, (i < nrows d)%nat -> (j < ncols d)%nat ->
      arr2_get d i j = _get1 m (Z.of_nat i) (Z.of_nat j).
Proof.
  intros Hinv HN Hcols. pose proof Hinv as [Hsh Hrows].
  pose proof (Forall2_length _ _ _ Hrows) as Hlen.
  destruct (toarray_elems m Hinv HN Hcols) as (d & Hd & Hnr & Hnc & Hel).
  exists d. split; [done|]. split; [lia|]. split; [lia|].
  intros i j Hi Hj.
  unfold arr2_get, py_index.
  replace (i <? nrows d)%nat with true by (symmetry; by apply Nat.ltb_lt).
  replace (j <? ncols d)%nat with true by (symmetry; by apply Nat.ltb_lt). simpl.
  destruct (lookup_lt_is_Some_2 (rows m) i) as [row Hrow]; [lia|].
  destruct (lookup_lt_is_Some_2 (data m) i) as [dat Hdat]; [lia|].
  rewrite (Hel i j row dat Hj Hrow Hdat).
  rewrite get1_spec by (done || (unfold in_range; lia)).
  rewrite row_of_nonneg, col_of_nonneg, Nat2Z.id by lia.
  unfold entry. by rewrite Hrow, Hdat.
Qed.
End ToArray.

Lemma toarray_agrees_with_get1_witness :
  exists d,
    toarray m33 = Ok d /\ arr2_get d 0 2 = _get1 m33 0 2 /\ arr2_get d 2 1 = _get1 m33 2 1.
Proof.
  destruct (toarray_agrees_with_get1 m33 m33_inv) as (d & Hd & Hnr & Hnc & Hget);
    [simpl; lia|exact m33_cols|].
  simpl in Hnr, Hnc. exists d. split; [exact Hd|].
  split; [apply (Hget 0%nat 2%nat)|apply (Hget 2%nat 1%nat)]; lia.
Defined.

Section CsrRows.
Context {T : Type} `{DT : Dtype T}.
Implicit Types (m : lil T).

(** The row starts are the numbers of entries stored before each row. *)
Lemma cumsum_starts (rs : list (list Z)) (acc : Z) (k : nat) :
  0 <= acc -> acc + Z.of_nat (length (concat rs)) < 2 ^ 31 ->
  (k <= length rs)%nat ->
  (acc :: np_cumsum_from acc (map (fun x : list Z => intc (Z.of_nat (length x))) rs)) !! k =
  Some (acc + Z.of_nat (length (concat (take k rs)))).
Proof.
  revert acc k. induction rs as [|r rs IH]; intros acc k Ha Hb Hk.
  - simpl in Hk. assert (k = 0%nat) as -> by lia. simpl. f_equal. lia.
  - destruct k as [|k]; [simpl; f_equal; lia|].
    simpl in Hb, Hk. rewrite length_app in Hb.
    cbn [map np_cumsum_from]. rewrite intc_id by lia. rewrite intp_id by lia.
    cbn [lookup list_lookup]. change (list_lookup k) with (lookup (M := list Z) k).
    rewrite IH by lia. simpl. rewrite length_app. f_equal. lia.
Qed.

Lemma concat_take_drop_row {A : Type} (xs : list (list A)) (k : nat) (x : list A) :
  xs !! k = Some x ->
  take (length x) (drop (length (concat (take k xs))) (concat xs)) = x.
Proof.
  intros Hk. rewrite <- (take_drop_middle xs k x Hk) at 2.
  rewrite concat_app, drop_app_length. simpl. by rewrite take_app_length.
Qed.

(** X25.  The rows can be read back from what [tocsr] hands over: for a matrix
    that satisfies the invariant and whose indices fit a C [int], the
    column list and the value list of row [k] are the parts of the index
    array and of the data array between the row starts [k] and [k + 1]. *)
Theorem tocsr_rows_can_be_read_back m (k : nat) (row : list Z) (dat : list T) :
  lil_inv m -> fits_intc m ->
  rows m !! k = Some row -> data m !! k = Some dat ->
  exists s e,
    csr_indptr (tocsr m) !! k = Some s /\ csr_indptr (tocsr m) !! S k = Some e /\
    0 <= s <= e /\
    take (Z.to_nat (e - s)) (drop (Z.to_nat s) (csr_indices (tocsr m))) = row /\
    take (Z.to_nat (e - s)) (drop (Z.to_nat s) (csr_data (tocsr m))) = dat.
Proof.
  intros [_ Hrows] [Hcols Hcount] Hrow Hdat.
  pose proof (lookup_lt_Some _ _ _ Hrow) as Hlt.
  destruct (Forall2_lookup_lr _ _ _ _ _ _ Hrows Hrow Hdat) as (_ & Hl & _).
  unfold tocsr, np_cumsum. cbn [csr_indptr csr_indices csr_data].
  rewrite map_intc_id by (by apply Forall_concat).
  exists (Z.of_nat (length (concat (take k (rows m))))),
         (Z.of_nat (length (concat (take (S k) (rows m))))).
  rewrite !cumsum_starts by lia.
  split; [done|]. split; [done|].
  rewrite (take_S_r _ _ _ Hrow), concat_app, length_app. simpl. rewrite app_nil_r.
  split; [lia|].
  replace (Z.to_nat (Z.of_nat (length (concat (take k (rows m))) + length row)%nat -
                     Z.of_nat (length (concat (take k (rows m))))))
    with (length row) by lia.
  rewrite Nat2Z.id. split; [by apply concat_take_drop_row|].
  rewrite <- Hl.
  rewrite <- (concat_length_Forall2 row_inv (take k (rows m)) (take k (data m)));
    [by apply concat_take_drop_row| |by apply Forall2_take].
  by intros x y (_ & ? & _).
Qed.
End CsrRows.

Lemma tocsr_rows_can_be_read_back_witness :
  exists s e,
    csr_indptr (tocsr m33) !! 1%nat = Some s /\ csr_indptr (tocsr m33) !! 2%nat = Some e /\
    0 <= s <= e /\
    take (Z.to_nat (e - s)) (drop (Z.to_nat s) (csr_indices (tocsr m33))) = [1] /\
    take (Z.to_nat (e - s)) (drop (Z.to_nat s) (csr_data (tocsr m33))) = [2%float].
Proof.
  apply (tocsr_rows_can_be_read_back m33 1 [1] [2%float]);
    [exact m33_inv| |reflexivity|reflexivity].
  split; [repeat constructor; lia|vm_compute; reflexivity].
Defined.

(** ** Reshaping there and back *)

Section ReshapeBack.
Context {T : Type} `{DT : Dtype T}.
Implicit Types (m new : lil T).

Lemma reshape_row_filled m sh (i : nat) (row : list Z) new new' :
  reshape_row m sh i row new = Ok new' -> filled sh new -> filled sh new'.
Proof.
  revert new. induction row as [|j row IH]; intros new Hres Hf.
  - by injection Hres as <-.
  - cbn [reshape_row] in Hres. unfold np_unravel_index in Hres.
    set (f := Z.of_nat i * snd (shape m) + j) in *.
    destruct ((f <? 0) || (fst sh * snd sh <=? f) || (fst sh <? 0) || (snd sh <? 0))
      eqn:Hb; [done|].
    rewrite !orb_false_iff in Hb. destruct Hb as [[[Hb1 Hb2] Hb3] Hb4].
    apply Z.ltb_ge in Hb1, Hb3, Hb4. apply Z.leb_gt in Hb2.
    cbn [mbind result_bind] in Hres.
    change (__getitem__ m (IPair (AInt (Z.of_nat i)) (AInt j)))
      with (get m (Z.of_nat i) j) in Hres.
    rewrite get_get1 in Hres.
    destruct (_get1 m (Z.of_nat i) j) as [x|] eqn:Hx; [|done].
    cbn [fmap result_fmap mbind result_bind assign_got] in Hres.
    change (__setitem__ new (IPair (AInt (f / snd sh)) (AInt (f mod snd sh))) (XScalar x))
      with (set new (f / snd sh) (f mod snd sh) x) in Hres.
    rewrite set_insert_cell in Hres.
    destruct Hf as (Hinv & Hsh & Hcols).
    assert (0 < snd sh) as HN by nia.
    assert (0 <= f / snd sh < fst sh) as Hdiv.
    { split; [apply Z.div_pos; lia|]. apply Z.div_lt_upper_bound; lia. }
    pose proof (Z.mod_pos_bound f (snd sh) HN) as Hmod.
    destruct (insert_cell_spec new (f / snd sh) (f mod snd sh) x Hinv)
      as (new1 & H1 & Hinv1 & Hsh1 & _ & _ & Hcols1 & _).
    { unfold in_range. rewrite Hsh. lia. }
    rewrite H1 in Hres. apply (IH new1 Hres).
    split; [done|]. split; [congruence|]. rewrite <- Hsh. apply Hcols1. by rewrite Hsh.
Qed.

Lemma reshape_rows_filled m sh (i0 : nat) (rs : list (list Z)) new new' :
  reshape_rows m sh i0 rs new = Ok new' -> filled sh new -> filled sh new'.
Proof.
  revert i0 new. induction rs as [|row rs IH]; intros i0 new Hres Hf.
  - by injection Hres as <-.
  - cbn [reshape_rows] in Hres.
    destruct (reshape_row m sh i0 row new) as [new1|] eqn:H1; [|done].
    cbn [mbind result_bind] in Hres.
    apply (IH (S i0) new1 Hres). by eapply reshape_row_filled.
Qed.

(** Reshaping to a shape with at least as many cells: what the new matrix
    holds at every flat coordinate. *)
Lemma reshape_entries m (M' N' : Z) :
  lil_inv m -> Forall (cols_below (snd (shape m))) (rows m) ->
  0 <= M' -> fst (shape m) * snd (shape m) <= M' * N' ->
  exists new,
    reshape m (M', N') = Ok new /\ filled (M', N') new /\
    forall f, 0 <= f < M' * N' ->
      entry new (Z.to_nat (f / N')) (f mod N') =
      if f <? fst (shape m) * snd (shape m)
      then entry m (Z.to_nat (f / snd (shape m))) (f mod snd (shape m))
      else zero.
Proof.
  intros Hinv Hcols HM' Hle. unfold reshape. simpl.
  destruct (lil_empty M' N') as [new0|e] eqn:Hnew0.
  2:{ unfold lil_empty in Hnew0. destruct (Z.ltb_spec M' 0); [lia|done]. }
  cbn [mbind result_bind].
  pose proof (moved_empty m M' N' new0 Hnew0) as Hmv0.
  assert (0 <= fst (shape m)) as HM by (destruct Hinv as [<- _]; lia).
  destruct (reshape_rows_moves m (M', N') 0 (rows m) new0 [] Hinv) as
    [(_ & new & Hres & Hinvn & Hshn & Hent)|(Hnot & _)]; [| |done| |].
  { destruct Hinv as [<- _]. simpl. lia. }
  { done. }
  2:{ exfalso. apply Hnot. by apply rows_have_place_larger. }
  simpl in Hent. exists new. split; [done|]. split.
  - apply (reshape_rows_filled m (M', N') 0 (rows m) new0 new Hres).
    destruct (lil_empty_inv _ _ _ Hnew0) as [Hi0 Hs0]. split; [done|]. split; [done|].
    pose proof (lil_empty_cols _ _ _ Hnew0) as Hc0. by rewrite Hs0 in Hc0.
  - intros f Hf. rewrite Hent by done.
    destruct (decide (f ∈ flat_coords (snd (shape m)) 0 (rows m))) as [Hin|Hnin].
    + rewrite bool_decide_eq_true_2 by done.
      apply flat_coords_below in Hin; [|done|done].
      by replace (f <? fst (shape m) * snd (shape m)) with true
        by (symmetry; apply Z.ltb_lt; lia).
    + rewrite bool_decide_eq_false_2 by done.
      destruct (Z.ltb_spec f (fst (shape m) * snd (shape m))) as [Hlt|Hge]; [|done].
      symmetry. apply entry_not_stored; [done|nia|lia|done].
Qed.

Lemma entries_by_flat_coordinate m m' :
  lil_inv m -> Forall (cols_below (snd (shape m))) (rows m) ->
  filled (shape m) m' ->
  (forall f, 0 <= f < fst (shape m) * snd (shape m) ->
     entry m' (Z.to_nat (f / snd (shape m))) (f mod snd (shape m)) =
     entry m (Z.to_nat (f / snd (shape m))) (f mod snd (shape m))) ->
  m' = m.
Proof.
  intros Hinv Hcols (Hinv' & Hsh' & Hcols') He.
  apply lil_ext; [done|done|done|]. intros i j.
  destruct (decide (Z.of_nat i < fst (shape m) /\ 0 <= j < snd (shape m))) as [[Hi Hj]|Hout].
  - destruct (flat_of_div_mod (snd (shape m)) i j Hj) as [Hd Hm].
    specialize (He (flat_of (snd (shape m)) i j)).
    rewrite Hd, Hm, Nat2Z.id in He. apply He. unfold flat_of. nia.
  - rewrite !entry_outside; [done|done|done|done|done| |by rewrite Hsh'].
    by rewrite Hsh'.
Qed.

(** X26.  [reshape] to the shape the matrix has returns an equal matrix, and
    [reshape] to a shape with the same number of cells followed by
    [reshape] to the first shape returns the matrix it started from. *)
Theorem reshape_and_back m (M' N' : Z) :
  lil_inv m -> Forall (cols_below (snd (shape m))) (rows m) ->
  0 <= M' -> M' * N' = fst (shape m) * snd (shape m) ->
  reshape m (shape m) = Ok m /\
  exists new, reshape m (M', N') = Ok new /\ reshape new (shape m) = Ok m.
Proof.
  intros Hinv Hcols HM' Hcount.
  assert (0 <= fst (shape m)) as HM by (destruct Hinv as [<- _]; lia).
  split.
  - destruct (reshape_entries m (fst (shape m)) (snd (shape m)) Hinv Hcols HM ltac:(lia))
      as (new & Hnew & Hf & He).
    replace (fst (shape m), snd (shape m)) with (shape m) in * by (by destruct (shape m)).
    rewrite Hnew. f_equal. apply entries_by_flat_coordinate; [done|done|done|].
    intros f Hfr. rewrite He by done.
    by replace (f <? fst (shape m) * snd (shape m)) with true
      by (symmetry; apply Z.ltb_lt; lia).
  - destruct (reshape_entries m M' N' Hinv Hcols HM' ltac:(lia))
      as (new & Hnew & (Hinvn & Hshn & Hcolsn) & He).
    exists new. split; [done|].
    destruct (reshape_entries new (fst (shape m)) (snd (shape m)) Hinvn) as
      (back & Hback & Hfb & Heb); [by rewrite Hshn|done|rewrite Hshn; simpl; lia|].
    replace (fst (shape m), snd (shape m)) with (shape m) in * by (by destruct (shape m)).
    rewrite Hback. f_equal. apply entries_by_flat_coordinate; [done|done|done|].
    intros f Hfr. rewrite Heb by done. rewrite Hshn. simpl.
    replace (f <? M' * N') with true by (symmetry; apply Z.ltb_lt; lia).
    rewrite He by lia.
    by replace (f <? fst (shape m) * snd (shape m)) with true
      by (symmetry; apply Z.ltb_lt; lia).
Qed.
End ReshapeBack.

Lemma reshape_and_back_witness :
  reshape m33 (shape m33) = Ok m33 /\
  exists new, reshape m33 (1, 9) = Ok new /\ reshape new (shape m33) = Ok m33.
Proof. apply (reshape_and_back m33 1 9 m33_inv m33_cols); [lia|reflexivity]. Defined.

(** ** Writes that raise *)

Section Robust.
Context {T : Type} `{DT : Dtype T}.
Implicit Types (m : lil T).

(** The invariant and the shape, which every write below keeps. *)
Lemma insert_cell_keeps m i j x :
  lil_inv m ->
  lil_inv (state_of (insert_cell i j x m)) /\ shape (state_of (insert_cell i j x m)) = shape m.
Proof.
  intros Hinv. destruct (decide (in_range m i j)) as [Hr|Hr].
  - destruct (insert_cell_spec m i j x Hinv Hr) as (m' & -> & Hinv' & Hsh & _). done.
  - by rewrite insert_cell_out_of_range.
Qed.

Lemma for_each_keeps {A : Type} (f : A -> lil T -> outcome (lil T)) (sh : Z * Z)
  (l : list A) m :
  (forall a s, lil_inv s /\ shape s = sh ->
     lil_inv (state_of (f a s)) /\ shape (state_of (f a s)) = sh) ->
  lil_inv m /\ shape m = sh ->
  lil_inv (state_of (for_each f l m)) /\ shape (state_of (for_each f l m)) = sh.
Proof.
  intros Hf. revert m. induction l as [|a l IH]; intros m Hm; simpl; [done|].
  pose proof (Hf a m Hm) as Ha. destruct (f a m) as [s|e s]; simpl in *; [by apply IH|done].
Qed.

Lemma setitem_dense_keeps (x : arr2 T) (Ia Ja : arr2 Z) m :
  lil_inv m ->
  lil_inv (state_of (setitem_dense x Ia Ja m)) /\
  shape (state_of (setitem_dense x Ia Ja m)) = shape m.
Proof.
  intros Hinv.
  assert (forall xs,
    lil_inv (state_of (insert_zip Ia Ja xs m)) /\
    shape (state_of (insert_zip Ia Ja xs m)) = shape m) as Hzip.
  { intros xs. apply for_each_keeps; [|done]. intros [[i j] v] s [Hs <-]. simpl.
    by apply insert_cell_keeps. }
  unfold setitem_dense.
  destruct (shape_is x 1 1).
  - apply for_each_keeps; [|done]. intros [i j] s [Hs <-]. simpl.
    destruct (arr2_get x 0 0); [by apply insert_cell_keeps|done].
  - destruct (shape_eqb Ia x); [apply Hzip|].
    destruct ((ncols x =? ncols Ia)%nat && (nrows x =? 1)%nat); [|done].
    destruct (np_vstack_rep x (nrows Ia)); [apply Hzip|done].
Qed.

(** X12.  A write of a scalar, a sequence or an array never leaves the matrix
    broken.  Whatever the index is, in range or not, and whether the write
    returns or raises on the way, the matrix it leaves behind has the shape
    it had and satisfies the invariant. *)
Theorem dense_write_keeps_invariant m (ix : index) (x : rhs T) :
  lil_inv m -> (forall s, x <> XSparse s) ->
  lil_inv (state_of (__setitem__ m ix x)) /\
  shape (state_of (__setitem__ m ix x)) = shape m.
Proof.
  intros Hinv Hx. unfold __setitem__.
  destruct (unpack_index true ix) as [[i j]|e]; [|done].
  assert (match x with
          | XSparse s => if is_full_slice i && is_full_slice j then Some s else None
          | _ => None
          end = None) as ->.
  { destruct x as [| | |s]; try done. by destruct (Hx s). }
  destruct (setitem_coords (shape m) i j) as [[[Ia Ja]|]|e]; [|done|done].
  assert (match x with
          | XSparse s => setitem_sparse s Ia Ja m
          | _ => setitem_dense (rhs_dense x) Ia Ja m
          end = setitem_dense (rhs_dense x) Ia Ja m) as ->.
  { destruct x as [| | |s]; try done. by destruct (Hx s). }
  by apply setitem_dense_keeps.
Qed.
End Robust.

Lemma dense_write_keeps_invariant_witness :
  lil_inv (state_of (__setitem__ m33 (IPair (ASlice None (Some 7) None) (ASeq [0; 5]))
                                 (XSeq [4; 5]%float))) /\
  shape (state_of (__setitem__ m33 (IPair (ASlice None (Some 7) None) (ASeq [0; 5]))
                               (XSeq [4; 5]%float))) = shape m33.
Proof.
  apply (dense_write_keeps_invariant m33); [exact m33_inv|].
  intros s Hs. discriminate Hs.
Defined.

(** ** Sparse right-hand sides *)

Section SparseWrites.
Context {T : Type} `{DT : Dtype T}.
Implicit Types (m s : lil T).

(** X19.  A sparse right-hand side of the shape of the index, other than 1 x 1,
    is written as its dense form, entry by entry and zeros included: the
    write is the write of the array that [toarray] returns for it. *)
Theorem setitem_sparse_same_shape_is_dense_write m (i j : axis) s (Ia Ja : arr2 Z) :
  lil_inv s -> 0 <= snd (shape s) -> Forall (cols_below (snd (shape s))) (rows s) ->
  setitem_coords (shape m) i j = Ok (Some (Ia, Ja)) ->
  is_full_slice i && is_full_slice j = false ->
  shape s = (Z.of_nat (nrows Ia), Z.of_nat (ncols Ia)) -> shape s <> (1, 1) ->
  exists d,
    toarray s = Ok d /\
    __setitem__ m (IPair i j) (XSparse s) = __setitem__ m (IPair i j) (XArr d).
Proof.
  intros Hinv HN Hcols Hc Hfull Hsh Hne.
  destruct (toarray_elems s Hinv HN Hcols) as (d & Hd & Hnr & Hnc & _).
  exists d. split; [done|].
  unfold __setitem__. cbn [unpack_index]. rewrite Hfull, Hc.
  unfold setitem_sparse, setitem_dense, rhs_dense. rewrite Hd.
  rewrite Hsh in Hnr, Hnc, Hne |- *. simpl in Hnr, Hnc |- *.
  rewrite Nat2Z.id in Hnr, Hnc.
  rewrite !Z.eqb_refl. simpl.
  unfold shape_is, shape_eqb. rewrite Hnr, Hnc, !Nat.eqb_refl. simpl.
  destruct (Z.eqb_spec (Z.of_nat (nrows Ia)) 1) as [H1|H1],
           (Z.eqb_spec (Z.of_nat (ncols Ia)) 1) as [H2|H2]; simpl.
  - exfalso. apply Hne. congruence.
  - replace (ncols Ia =? 1)%nat with false by (symmetry; apply Nat.eqb_neq; lia).
    by rewrite andb_false_r.
  - by replace (nrows Ia =? 1)%nat with false by (symmetry; apply Nat.eqb_neq; lia).
  - by replace (nrows Ia =? 1)%nat with false by (symmetry; apply Nat.eqb_neq; lia).
Qed.

(** X20.  A sparse right-hand side of one row, to be repeated over an index of
    several rows with as many columns: the loop for it names a function
    that numpy does not have, so the write raises [AttributeError] and
    writes nothing. *)
Theorem setitem_sparse_row_raises_attribute_error m (i j : axis) s (Ia Ja : arr2 Z) :
  setitem_coords (shape m) i j = Ok (Some (Ia, Ja)) ->
  is_full_slice i && is_full_slice j = false ->
  shape s = (1, Z.of_nat (ncols Ia)) -> ncols Ia <> 1%nat -> nrows Ia <> 1%nat ->
  __setitem__ m (IPair i j) (XSparse s) = Failed AttributeError m.
Proof.
  intros Hc Hfull Hsh Hn1 Hr1.
  unfold __setitem__. cbn [unpack_index]. rewrite Hfull, Hc.
  unfold setitem_sparse. rewrite Hsh. cbn [fst snd]. rewrite !Z.eqb_refl.
  replace (Z.of_nat (ncols Ia) =? 1) with false by (symmetry; apply Z.eqb_neq; lia).
  replace (1 =? Z.of_nat (nrows Ia)) with false by (symmetry; apply Z.eqb_neq; lia).
  done.
Qed.
End SparseWrites.

Lemma setitem_sparse_same_shape_is_dense_write_witness :
  exists d,
    toarray (Lil (1, 2) [[1]] [[8%float]]) = Ok d /\
    __setitem__ m33 (IPair (ASeq [0; 1]) (ASeq [0; 1])) (XSparse (Lil (1, 2) [[1]] [[8%float]])) =
    __setitem__ m33 (IPair (ASeq [0; 1]) (ASeq [0; 1])) (XArr d).
Proof.
  apply (setitem_sparse_same_shape_is_dense_write m33 (ASeq [0; 1]) (ASeq [0; 1])
           (Lil (1, 2) [[1]] [[8%float]]) (Arr2 1 2 [0; 1]) (Arr2 1 2 [0; 1])).
  - split; [reflexivity|]. repeat constructor.
  - simpl. lia.
  - repeat constructor; simpl; lia.
  - reflexivity.
  - reflexivity.
  - reflexivity.
  - simpl. congruence.
Defined.

Lemma setitem_sparse_row_raises_attribute_error_witness :
  __setitem__ m33 (IPair (ASlice None (Some 2) None) (ASlice None (Some 2) None))
              (XSparse (Lil (1, 2) [[1]] [[8%float]])) = Failed AttributeError m33.
Proof.
  apply (setitem_sparse_row_raises_attribute_error m33 _ _ _
           (Arr2 2 2 [0; 0; 1; 1]) (Arr2 2 2 [0; 1; 0; 1])).
  - reflexivity.
  - reflexivity.
  - reflexivity.
  - simpl. lia.
  - simpl. lia.
Defined.

(** ** Sharing of storage *)

Module SharedFacts.
Local Abbreviation lil_insert_cell := insert_cell (only parsing).
Local Abbreviation lil_getrow := getrow (only parsing).
Import Shared.

Section Store.
Context {T : Type} `{DT : Dtype T}.
Implicit Types (h : store T) (b : obj).

Lemma mapM_agree {A B : Type} (f g : A -> option B) (l : list A) :
  (forall a, a ∈ l -> f a = g a) -> mapM f l = mapM g l.
Proof.
  induction l as [|a l IH]; intros Hfg; [done|]. simpl.
  rewrite Hfg by (by left). rewrite IH; [done|]. intros a' Ha'. apply Hfg. by right.
Qed.

Lemma mapM_lookup_bound {A : Type} (L : list A) (l : list nat) :
  is_Some (mapM (fun r => L !! r) l) -> Forall (fun r => (r < length L)%nat) l.
Proof.
  intros [k Hk]. apply mapM_Some in Hk. apply Forall_forall. intros r Hr.
  apply list_elem_of_lookup in Hr as [i Hi].
  destruct (Forall2_lookup_l _ _ _ _ _ Hk Hi) as (v & _ & Hv).
  by apply lookup_lt_Some in Hv.
Qed.

Lemma contents_Some b h m :
  contents b h = Some m <->
  exists ra da,
    row_arrays h !! o_rows b = Some ra /\ dat_arrays h !! o_data b = Some da /\
    mapM (fun r => col_lists h !! r) ra = Some (rows m) /\
    mapM (fun r => val_lists h !! r) da = Some (data m) /\
    shape m = o_shape b.
Proof.
  unfold contents. split.
  - intros Hc.
    destruct (row_arrays h !! o_rows b) as [ra|]; [|done].
    destruct (dat_arrays h !! o_data b) as [da|]; [|done]. simpl in Hc.
    destruct (mapM (fun r => col_lists h !! r) ra) as [rs|] eqn:Hr; [|done].
    destruct (mapM (fun r => val_lists h !! r) da) as [ds|] eqn:Hd; [|done].
    simpl in Hc. injection Hc as <-. by exists ra, da.
  - intros (ra & da & -> & -> & Hr & Hd & Hs). simpl. rewrite Hr, Hd. simpl.
    destruct m; simpl in *. by subst.
Qed.

Lemma valid_refs b h :
  valid b h ->
  (o_rows b < length (row_arrays h))%nat /\ (o_data b < length (dat_arrays h))%nat /\
  Forall (fun r => (r < length (col_lists h))%nat) (col_refs b h) /\
  Forall (fun r => (r < length (val_lists h))%nat) (val_refs b h).
Proof.
  intros [m Hm]. apply contents_Some in Hm as (ra & da & Hra & Hda & Hr & Hd & _).
  unfold col_refs, val_refs. rewrite Hra, Hda. simpl.
  split; [by eapply lookup_lt_Some|]. split; [by eapply lookup_lt_Some|].
  split; apply mapM_lookup_bound; by eexists.
Qed.

(** The matrix an object stands for depends on its two arrays and on the
    lists they refer to, and on nothing else of the store. *)
Lemma contents_agree b h h' :
  row_arrays h' !! o_rows b = row_arrays h !! o_rows b ->
  dat_arrays h' !! o_data b = dat_arrays h !! o_data b ->
  (forall r, r ∈ col_refs b h -> col_lists h' !! r = col_lists h !! r) ->
  (forall r, r ∈ val_refs b h -> val_lists h' !! r = val_lists h !! r) ->
  contents b h' = contents b h.
Proof.
  unfold contents, col_refs, val_refs. intros -> -> Hc Hv.
  destruct (row_arrays h !! o_rows b) as [ra|]; [|done].
  destruct (dat_arrays h !! o_data b) as [da|]; [|done]. simpl in *.
  rewrite (mapM_agree _ (fun r => col_lists h !! r) ra) by done.
  by rewrite (mapM_agree _ (fun r => val_lists h !! r) da) by done.
Qed.

Lemma extends_refl h : extends h h.
Proof. by repeat split. Qed.

Lemma extends_trans h1 h2 h3 : extends h1 h2 -> extends h2 h3 -> extends h1 h3.
Proof.
  intros (? & ? & ? & ?) (? & ? & ? & ?). repeat split; by etrans.
Qed.

Lemma extends_contents b h h' : valid b h -> extends h h' -> contents b h' = contents b h.
Proof.
  intros Hv (Hra & Hda & Hc & Hl).
  destruct (valid_refs b h Hv) as (Hr & Hd & Hcr & Hvr).
  apply contents_agree.
  - destruct (lookup_lt_is_Some_2 _ _ Hr) as [ra Hra']. rewrite Hra'.
    by eapply prefix_lookup_Some.
  - destruct (lookup_lt_is_Some_2 _ _ Hd) as [da Hda']. rewrite Hda'.
    by eapply prefix_lookup_Some.
  - intros r Hin. rewrite Forall_forall in Hcr. apply Hcr in Hin.
    destruct (lookup_lt_is_Some_2 _ _ Hin) as [l Hl']. rewrite Hl'.
    by eapply prefix_lookup_Some.
  - intros r Hin. rewrite Forall_forall in Hvr. apply Hvr in Hin.
    destruct (lookup_lt_is_Some_2 _ _ Hin) as [l Hl']. rewrite Hl'.
    by eapply prefix_lookup_Some.
Qed.

(** A write through [b] changes no array, and no list but the two it
    reaches through the arrays of [b]. *)
Lemma insert_cell_frame ii jj xx b h :
  let h' := state_of (insert_cell ii jj xx b h) in
  row_arrays h' = row_arrays h /\ dat_arrays h' = dat_arrays h /\
  (forall r, r ∉ col_refs b h -> col_lists h' !! r = col_lists h !! r) /\
  (forall r, r ∉ val_refs b h -> val_lists h' !! r = val_lists h !! r).
Proof.
  unfold insert_cell, col_refs, val_refs.
  destruct (row_arrays h !! o_rows b) as [ra|]; [|done].
  destruct (dat_arrays h !! o_data b) as [da|]; [|done]. simpl.
  destruct (np_resolve (length ra) ii) as [kr|]; [|done].
  destruct (np_resolve (length da) ii) as [kd|]; [|done].
  destruct (ra !! kr) as [rr|] eqn:Hrr; [|done].
  destruct (da !! kd) as [dr|] eqn:Hdr; [|done].
  destruct (col_lists h !! rr) as [row|]; [|done].
  destruct (val_lists h !! dr) as [dat|]; [|done]. simpl.
  assert (forall rd : list Z * list T,
    let h' := Store (row_arrays h) (dat_arrays h) (<[rr := fst rd]> (col_lists h))
                    (<[dr := snd rd]> (val_lists h)) in
    row_arrays h' = row_arrays h /\ dat_arrays h' = dat_arrays h /\
    (forall r, r ∉ ra -> col_lists h' !! r = col_lists h !! r) /\
    (forall r, r ∉ da -> val_lists h' !! r = val_lists h !! r)) as Hput.
  { intros rd. simpl. split; [done|]. split; [done|].
    split; intros r Hr; apply list_lookup_insert_ne; intros ->; apply Hr;
      by eapply list_elem_of_lookup_2. }
  destruct (_insertat2 (snd (o_shape b)) row dat jj xx) as [rd|e rd]; apply Hput.
Qed.

(** Two objects that reach different lists: a write through one leaves the
    matrix of the other as it is. *)
Lemma insert_cell_apart ii jj xx b1 b2 h :
  (forall r, r ∈ col_refs b1 h -> r ∉ col_refs b2 h) ->
  (forall r, r ∈ val_refs b1 h -> r ∉ val_refs b2 h) ->
  contents b2 (state_of (insert_cell ii jj xx b1 h)) = contents b2 h.
Proof.
  intros Hc Hv.
  destruct (insert_cell_frame ii jj xx b1 h) as (Hra & Hda & Hcl & Hvl).
  apply contents_agree.
  - by rewrite Hra.
  - by rewrite Hda.
  - intros r Hr. apply Hcl. intros Hr1. by apply (Hc r).
  - intros r Hr. apply Hvl. intros Hr1. by apply (Hv r).
Qed.

(** The deep copy of the slots of an array whose slots are below [L0]: the
    lists there were stay, every slot of the copy is at or above [L0], and
    refers to a list equal to the one the slot of the original refers to. *)
Lemma deepcopy_slots_spec {A : Type} (L0 : nat) (slots : list nat) :
  forall (lists : list (list A)) (memo : list (nat * nat)),
  (L0 <= length lists)%nat ->
  (forall r r', memo_find memo r = Some r' ->
                (L0 <= r' < length lists)%nat /\
                ((r < L0)%nat -> lists !! r' = lists !! r)) ->
  lists `prefix_of` fst (deepcopy_slots lists memo slots) /\
  Forall (fun r' => (L0 <= r' < length (fst (deepcopy_slots lists memo slots)))%nat)
         (snd (deepcopy_slots lists memo slots)) /\
  Forall2 (fun r r' => (r < L0)%nat ->
                       fst (deepcopy_slots lists memo slots) !! r' = lists !! r)
          slots (snd (deepcopy_slots lists memo slots)).
Proof.
  induction slots as [|r slots IH]; intros lists memo HL Hmemo; simpl.
  - split; [done|]. split; constructor.
  - destruct (memo_find memo r) as [r'|] eqn:Hfind; simpl.
    + destruct (IH lists memo HL Hmemo) as (Hpre & Hout & Hcont).
      destruct (Hmemo r r' Hfind) as [Hr' Heq].
      pose proof (prefix_length _ _ Hpre) as Hlen.
      split; [done|]. split.
      * apply Forall_cons. split; [lia|done].
      * apply Forall2_cons. split; [|done]. intros Hr. rewrite <- Heq by done.
        destruct (lookup_lt_is_Some_2 lists r' ltac:(lia)) as [c Hc]. rewrite Hc.
        by eapply prefix_lookup_Some.
    + set (c := default [] (lists !! r)).
      set (lists1 := lists ++ [c]).
      assert (lists `prefix_of` lists1) as Hp1 by (by apply prefix_app_r).
      assert (forall x, (x < length lists)%nat -> lists1 !! x = lists !! x) as Hold
        by (intros x Hx; unfold lists1; by rewrite lookup_app_l by lia).
      assert (lists1 !! length lists = Some c) as Hnew.
      { unfold lists1. rewrite lookup_app_r by lia. by rewrite Nat.sub_diag. }
      assert (length lists1 = S (length lists)) as Hlen1
        by (unfold lists1; rewrite length_app; simpl; lia).
      destruct (IH lists1 ((r, length lists) :: memo)) as (Hpre & Hout & Hcont).
      { lia. }
      { intros x x'. simpl. rewrite Hlen1.
        destruct (Nat.eqb_spec r x) as [->|Hne].
        - intros [= <-]. split; [lia|]. intros Hx. rewrite Hnew, Hold by lia.
          unfold c. by destruct (lookup_lt_is_Some_2 lists x ltac:(lia)) as [cx ->].
        - intros Hx. destruct (Hmemo x x' Hx) as [Hx' Heq].
          split; [lia|]. intros Hlt. rewrite !Hold by lia. by apply Heq. }
      pose proof (prefix_length _ _ Hpre) as Hlen. rewrite Hlen1 in Hlen.
      split; [by etrans|]. split.
      * apply Forall_cons. split; [lia|done].
      * apply Forall2_cons. split.
        { intros Hr. rewrite (prefix_lookup_Some _ _ _ _ Hnew Hpre). unfold c.
          by destruct (lookup_lt_is_Some_2 lists r ltac:(lia)) as [cr ->]. }
        eapply Forall2_impl; [exact Hcont|]. simpl. intros x x' Hx Hlt.
        rewrite Hx by done. apply Hold. lia.
Qed.

Lemma mapM_through {B : Type} (f g : nat -> option B) (l l' : list nat) (k : list B) :
  mapM f l = Some k -> Forall2 (fun r r' => g r' = f r) l l' -> mapM g l' = Some k.
Proof.
  intros Hk Hll. apply mapM_Some in Hk. apply mapM_Some.
  revert k Hk. induction Hll as [|r r' l l' Hr _ IH]; intros k Hk.
  - by apply Forall2_nil_inv_l in Hk as ->.
  - apply Forall2_cons_inv_l in Hk as (v & k' & Hv & Hk' & ->).
    apply Forall2_cons. split; [congruence|by apply IH].
Qed.

Lemma lil_empty_extends M N h h' b :
  lil_empty M N h = Ok (h', b) ->
  extends h h' /\ o_shape b = (M, N) /\
  o_rows b = length (row_arrays h) /\ o_data b = length (dat_arrays h).
Proof.
  unfold lil_empty. destruct (M <? 0); [done|]. intros [= <- <-]. simpl.
  split; [|done]. repeat split; simpl; by apply prefix_app_r.
Qed.

(** [copy] of a valid object with a shape that the constructor takes: it
    returns an object of the same contents that reaches only lists and
    arrays the store did not have. *)
Lemma copy_spec b h :
  valid b h -> 0 <= fst (o_shape b) ->
  exists h' b',
    copy b h = Ok (h', b') /\ extends h h' /\ valid b' h' /\ fresh_for h b' h' /\
    contents b' h' = contents b h.
Proof.
  intros Hv HM. destruct (valid_refs b h Hv) as (Hr & Hd & Hcr & Hvr).
  destruct Hv as [m Hm]. pose proof Hm as Hm'.
  apply contents_Some in Hm' as (ra & da & Hra & Hda & Hrs & Hds & Hsh).
  unfold col_refs in Hcr. unfold val_refs in Hvr. rewrite Hra in Hcr. rewrite Hda in Hvr.
  simpl in Hcr, Hvr.
  unfold copy, lil_empty. destruct (Z.ltb_spec (fst (o_shape b)) 0); [lia|].
  cbn [mbind result_bind]. cbn [row_arrays dat_arrays col_lists val_lists o_shape].
  rewrite !lookup_app_l by done. rewrite Hra, Hda.
  set (n := Z.to_nat (fst (o_shape b))).
  set (cl1 := col_lists h ++ replicate n []).
  set (vl1 := val_lists h ++ replicate n []).
  destruct (deepcopy_slots_spec (length (col_lists h)) ra cl1 [])
    as (Hcp & Hcf & Hcc); [unfold cl1; rewrite length_app; lia|done|].
  destruct (deepcopy_slots_spec (length (val_lists h)) da vl1 [])
    as (Hvp & Hvf & Hvc); [unfold vl1; rewrite length_app; lia|done|].
  set (rc := deepcopy_slots cl1 [] ra) in *.
  set (dc := deepcopy_slots vl1 [] da) in *.
  eexists _, _. split; [reflexivity|].
  assert (col_lists h `prefix_of` fst rc) as Hcp'
    by (etrans; [|exact Hcp]; by apply prefix_app_r).
  assert (val_lists h `prefix_of` fst dc) as Hvp'
    by (etrans; [|exact Hvp]; by apply prefix_app_r).
  assert (contents
            (Obj (fst (o_shape b), snd (o_shape b))
                 (length (row_arrays h ++ [seq (length (col_lists h)) n]))
                 (length (dat_arrays h ++ [seq (length (val_lists h)) n])))
            (Store ((row_arrays h ++ [seq (length (col_lists h)) n]) ++ [snd rc])
                   ((dat_arrays h ++ [seq (length (val_lists h)) n]) ++ [snd dc])
                   (fst rc) (fst dc)) = Some m) as Hnew.
  { apply contents_Some. exists (snd rc), (snd dc). simpl.
    split; [by rewrite lookup_app_r, Nat.sub_diag by lia|].
    split; [by rewrite lookup_app_r, Nat.sub_diag by lia|].
    split; [|split; [|by destruct (o_shape b)]].
    - eapply mapM_through; [exact Hrs|].
      apply Forall2_same_length_lookup. split; [exact (Forall2_length _ _ _ Hcc)|].
      intros k r r' Hk Hk'. rewrite (Forall2_lookup_lr _ _ _ _ _ _ Hcc Hk Hk').
      + unfold cl1. apply lookup_app_l. eapply Forall_lookup_1 in Hcr; [|done]. done.
      + eapply Forall_lookup_1 in Hcr; [|done]. done.
    - eapply mapM_through; [exact Hds|].
      apply Forall2_same_length_lookup. split; [exact (Forall2_length _ _ _ Hvc)|].
      intros k r r' Hk Hk'. rewrite (Forall2_lookup_lr _ _ _ _ _ _ Hvc Hk Hk').
      + unfold vl1. apply lookup_app_l. eapply Forall_lookup_1 in Hvr; [|done]. done.
      + eapply Forall_lookup_1 in Hvr; [|done]. done. }
  split; [|split; [|split]].
  - repeat split; simpl; [| |done|done].
    + etrans; [|by apply prefix_app_r]. by apply prefix_app_r.
    + etrans; [|by apply prefix_app_r]. by apply prefix_app_r.
  - by exists m.
  - unfold fresh_for, col_refs, val_refs. simpl.
    rewrite !length_app. simpl.
    split; [lia|]. split; [lia|].
    rewrite !lookup_app_r by (rewrite length_app; simpl; lia).
    rewrite !length_app. simpl. rewrite !Nat.sub_diag. simpl.
    split; (eapply Forall_impl; [eassumption|]); simpl; intros; lia.
  - by rewrite Hnew, Hm.
Qed.

Lemma extends_refs b h h' :
  valid b h -> extends h h' ->
  col_refs b h' = col_refs b h /\ val_refs b h' = val_refs b h.
Proof.
  intros Hv (Hra & Hda & _). destruct (valid_refs b h Hv) as (Hr & Hd & _).
  unfold col_refs, val_refs.
  destruct (lookup_lt_is_Some_2 _ _ Hr) as [ra Hra']. rewrite Hra'.
  destruct (lookup_lt_is_Some_2 _ _ Hd) as [da Hda']. rewrite Hda'.
  by rewrite (prefix_lookup_Some _ _ _ _ Hra' Hra), (prefix_lookup_Some _ _ _ _ Hda' Hda).
Qed.

(** An object of the old store and an object that reaches only new lists:
    a write through either leaves the matrix of the other as it is. *)
Lemma fresh_apart b b' h h' ii jj xx :
  valid b h -> extends h h' -> fresh_for h b' h' ->
  contents b (state_of (insert_cell ii jj xx b' h')) = contents b h' /\
  contents b' (state_of (insert_cell ii jj xx b h')) = contents b' h'.
Proof.
  intros Hv Hext (_ & _ & Hfc & Hfv).
  destruct (valid_refs b h Hv) as (_ & _ & Hcr & Hvr).
  destruct (extends_refs b h h' Hv Hext) as [Hec Hev].
  rewrite Forall_forall in Hfc, Hfv, Hcr, Hvr.
  split; apply insert_cell_apart; intros r Hin Hin'.
  - apply Hfc in Hin. rewrite Hec in Hin'. apply Hcr in Hin'. lia.
  - apply Hfv in Hin. rewrite Hev in Hin'. apply Hvr in Hin'. lia.
  - apply Hfc in Hin'. rewrite Hec in Hin. apply Hcr in Hin. lia.
  - apply Hfv in Hin'. rewrite Hev in Hin. apply Hvr in Hin. lia.
Qed.

Lemma copy_returns_own_storage : returns_own_storage (copy (T := T)).
Proof.
  intros b h h' b' Hv Hcp.
  assert (0 <= fst (o_shape b)) as HM.
  { unfold copy, lil_empty in Hcp. by destruct (Z.ltb_spec (fst (o_shape b)) 0). }
  destruct (copy_spec b h Hv HM) as (h2 & b2 & Hcp2 & Hext & Hv2 & Hfr & _).
  rewrite Hcp in Hcp2. by injection Hcp2 as <- <-.
Qed.

Variable astype : obj -> store T -> result (store T * obj).

(** C8 (amended).  For a valid source matrix [s]:
    - the constructor with [copy=True] returns a matrix of the same
      contents, and afterwards a [set] on the new matrix leaves the rows
      and values of the source as they are, and a [set] on the source
      leaves those of the new matrix as they are;
    - the full-matrix write [self[:, :] = s] converts the source with
      [astype]; when [astype] returns a matrix of its own, a [set] on the
      target afterwards leaves the source as it is, and a [set] on the
      source leaves the target as it is.
    With [copy=False] and no dtype the constructor clones nothing: the new
    matrix holds the two references of the source. *)
Theorem constructor_copy_and_whole_write_clone (s : obj) (h : store T) :
  valid s h -> 0 <= fst (o_shape s) ->
  (exists h' n,
     lil_of_lil astype s false true h = Ok (h', n) /\
     contents n h' = contents s h /\ contents s h' = contents s h /\
     forall i j x,
       contents s (state_of (set n i j x h')) = contents s h' /\
       contents n (state_of (set s i j x h')) = contents n h') /\
  (returns_own_storage astype ->
   forall self h' self',
     setitem_whole astype self s h = Ok (h', self') ->
     contents s h' = contents s h /\
     forall i j x,
       contents s (state_of (set self' i j x h')) = contents s h' /\
       contents self' (state_of (set s i j x h')) = contents self' h') /\
  lil_of_lil astype s false false h = Ok (h, Obj (o_shape s) (o_rows s) (o_data s)).
Proof.
  intros Hv HM. split; [|split; [|reflexivity]].
  - destruct (copy_spec s h Hv HM) as (h' & n & Hcp & Hext & Hvn & Hfr & Hc).
    exists h', (Obj (o_shape n) (o_rows n) (o_data n)).
    unfold lil_of_lil. rewrite Hcp. cbn [mbind result_bind].
    assert (Obj (o_shape n) (o_rows n) (o_data n) = n) as -> by (by destruct n).
    split; [done|]. split; [done|]. split; [by apply extends_contents|].
    intros i j x. by apply fresh_apart with (h := h).
  - intros Hown self h' self' Hw. unfold setitem_whole, lil_of_lil, tolil in Hw.
    cbn [mbind result_bind] in Hw.
    destruct (astype s h) as [[h2 A]|e] eqn:HA; [|done].
    cbn [mbind result_bind] in Hw. injection Hw as <- <-.
    destruct (Hown s h h2 A Hv HA) as (Hext & HvA & Hfr).
    split; [by apply extends_contents|].
    intros i j x. apply fresh_apart with (h := h); [done|done|].
    destruct Hfr as (? & ? & ? & ?). by repeat split.
Qed.
End Store.

Lemma constructor_copy_and_whole_write_clone_witness :
  (exists h' n,
     lil_of_lil copy one_row false true one_row_store = Ok (h', n) /\
     contents one_row (state_of (set n 0 1 5%float h')) = contents one_row h') /\
  (exists h' self',
     setitem_whole copy other_row one_row one_row_store = Ok (h', self') /\
     contents one_row (state_of (set self' 0 1 5%float h')) = contents one_row h').
Proof.
  destruct (constructor_copy_and_whole_write_clone copy one_row one_row_store)
    as [(h' & n & Hn & _ & _ & Hset) [Hwhole _]].
  - by eexists.
  - simpl. lia.
  - split.
    + exists h', n. split; [exact Hn|]. apply (Hset 0 1 5%float).
    + eexists _, _. split; [reflexivity|].
      eapply (Hwhole copy_returns_own_storage other_row). reflexivity.
Defined.

(** The constructor with the default [copy=False] and no dtype: the new
    matrix holds the references of the source, and a [set] on it changes
    the rows and values of the source. *)
Lemma constructor_shares_without_copy :
  exists h' n,
    valid one_row one_row_store /\
    lil_of_lil copy one_row false false one_row_store = Ok (h', n) /\
    n = one_row /\
    contents one_row h' = Some (Lil (1, 2) [[0]] [[1%float]]) /\
    contents one_row (state_of (set n 0 1 5%float h')) =
      Some (Lil (1, 2) [[0; 1]] [[1%float; 5%float]]) /\
    contents one_row (state_of (set n 0 1 5%float h')) <> contents one_row h'.
Proof.
  eexists _, _. split; [by eexists|]. split; [reflexivity|]. split; [reflexivity|].
  split; [reflexivity|]. split; [reflexivity|]. vm_compute. congruence.
Qed.

Section Simulation.
Context {T : Type} `{DT : Dtype T}.
Implicit Types (h : store T) (b : obj).

Lemma mapM_insert {A : Type} (L : list A) (l : list nat) (k : list A)
  (i r : nat) (v : A) :
  NoDup l -> l !! i = Some r ->
  mapM (fun r => L !! r) l = Some k ->
  mapM (fun r' => <[r := v]> L !! r') l = Some (<[i := v]> k).
Proof.
  intros Hnd Hi Hk. apply mapM_Some in Hk. apply mapM_Some.
  apply Forall2_same_length_lookup. split.
  { rewrite length_insert. by eapply Forall2_length. }
  intros i' r' w Hi' Hw.
  destruct (Forall2_lookup_l _ _ _ _ _ Hk Hi') as (u & Hu & Hr').
  destruct (decide (i' = i)) as [->|Hne].
  - assert (r' = r) as -> by congruence.
    rewrite list_lookup_insert_eq in Hw by (by eapply lookup_lt_Some).
    rewrite list_lookup_insert_eq by (by eapply lookup_lt_Some). done.
  - rewrite list_lookup_insert_ne in Hw by done.
    rewrite list_lookup_insert_ne; [congruence|].
    intros ->. apply Hne. by eapply NoDup_lookup.
Qed.

(** On an object whose slots refer to lists of their own, the write on the
    store is the write on the matrix the object stands for. *)
Lemma insert_cell_simulates ii jj xx b h m :
  contents b h = Some m -> NoDup (col_refs b h) -> NoDup (val_refs b h) ->
  match insert_cell ii jj xx b h, lil_insert_cell ii jj xx m with
  | Done h', Done m' => contents b h' = Some m'
  | Failed e h', Failed e' m' => e = e' /\ contents b h' = Some m'
  | _, _ => False
  end.
Proof.
  intros Hm Hnc Hnv. pose proof Hm as Hm'.
  apply contents_Some in Hm' as (ra & da & Hra & Hda & Hrs & Hds & Hsh).
  unfold col_refs in Hnc. unfold val_refs in Hnv. rewrite Hra in Hnc. rewrite Hda in Hnv.
  simpl in Hnc, Hnv.
  pose proof (length_mapM _ _ _ Hrs) as Hlr. pose proof (length_mapM _ _ _ Hds) as Hld.
  unfold insert_cell, lil_insert_cell. rewrite Hra, Hda, <- Hlr, <- Hld.
  destruct (np_resolve (length ra) ii) as [kr|e] eqn:Ekr; [|done].
  destruct (np_resolve (length da) ii) as [kd|e] eqn:Ekd; [|done].
  assert (kr < length ra)%nat as Hkr.
  { unfold np_resolve in Ekr.
    destruct ((_ <? 0) || (_ <=? _)) eqn:E; [done|]. injection Ekr as <-.
    apply orb_false_iff in E as [E1 E2]. apply Z.ltb_ge in E1. apply Z.leb_gt in E2. lia. }
  assert (kd < length da)%nat as Hkd.
  { unfold np_resolve in Ekd.
    destruct ((_ <? 0) || (_ <=? _)) eqn:E; [done|]. injection Ekd as <-.
    apply orb_false_iff in E as [E1 E2]. apply Z.ltb_ge in E1. apply Z.leb_gt in E2. lia. }
  destruct (lookup_lt_is_Some_2 ra kr Hkr) as [rr Hrr].
  destruct (lookup_lt_is_Some_2 da kd Hkd) as [dr Hdr].
  pose proof Hrs as Hrs'. apply mapM_Some in Hrs'.
  pose proof Hds as Hds'. apply mapM_Some in Hds'.
  destruct (Forall2_lookup_l _ _ _ _ _ Hrs' Hrr) as (row & Hrow & Hcl).
  destruct (Forall2_lookup_l _ _ _ _ _ Hds' Hdr) as (dat & Hdat & Hvl).
  rewrite Hrr, Hdr, Hcl, Hvl, Hrow, Hdat, Hsh.
  assert (forall rd : list Z * list T,
    contents b (Store (row_arrays h) (dat_arrays h) (<[rr := fst rd]> (col_lists h))
                      (<[dr := snd rd]> (val_lists h))) =
    Some (Lil (o_shape b) (<[kr := fst rd]> (rows m)) (<[kd := snd rd]> (data m)))) as Hput.
  { intros rd. apply contents_Some. exists ra, da. simpl.
    split; [done|]. split; [done|].
    split; [by apply mapM_insert|]. split; [by apply mapM_insert|done]. }
  destruct (_insertat2 (snd (o_shape b)) row dat jj xx) as [rd|e rd]; by rewrite Hput.
Qed.
End Simulation.

Lemma insert_cell_simulates_witness :
  contents one_row
    (state_of (insert_cell 0 1 5%float one_row one_row_store)) =
  Some (state_of (lil_insert_cell 0 1 5%float (Lil (1, 2) [[0]] [[1%float]]))).
Proof.
  pose proof (insert_cell_simulates 0 1 5%float one_row one_row_store
                (Lil (1, 2) [[0]] [[1%float]])) as H.
  vm_compute in H. vm_compute. apply H; [reflexivity|apply NoDup_singleton..].
Defined.

(** *** One row as a view and as a copy *)

Section RowObjects.
Context {T : Type} `{DT : Dtype T}.
Implicit Types (h : store T) (b : obj).

Lemma alter_last {A : Type} (f : A -> A) (l : list A) (a : A) :
  alter f (length l) (l ++ [a]) = l ++ [f a].
Proof. rewrite alter_app_r_alt, Nat.sub_diag by done. done. Qed.

Lemma np_index_Ok {A : Type} (a : list A) (i : Z) :
  - Z.of_nat (length a) <= i < Z.of_nat (length a) ->
  exists v, a !! Z.to_nat (wrap (Z.of_nat (length a)) i) = Some v /\ np_index a i = Ok v.
Proof.
  intros Hi. pose proof (wrap_range _ _ Hi) as Hi'.
  destruct (lookup_lt_is_Some_2 a (Z.to_nat (wrap (Z.of_nat (length a)) i)) ltac:(lia))
    as [v Hv].
  exists v. split; [done|]. unfold np_index. rewrite np_resolve_wrap by done. simpl.
  by rewrite Hv.
Qed.

(** What [getrowview] and [getrow] find in the store for a row in range
    of a valid object. *)
Lemma row_in_store b h m (i : Z) :
  contents b h = Some m -> lil_inv m ->
  - fst (o_shape b) <= i < fst (o_shape b) ->
  exists ra da rr dr row dat,
    row_arrays h !! o_rows b = Some ra /\ dat_arrays h !! o_data b = Some da /\
    np_index ra i = Ok rr /\ np_index da i = Ok dr /\
    np_resolve (length ra) i = Ok (row_of m i) /\
    np_resolve (length da) i = Ok (row_of m i) /\
    ra !! row_of m i = Some rr /\ da !! row_of m i = Some dr /\
    col_lists h !! rr = Some row /\ val_lists h !! dr = Some dat /\
    rows m !! row_of m i = Some row /\ data m !! row_of m i = Some dat.
Proof.
  intros Hm [Hsh Hrows] Hi.
  apply contents_Some in Hm as (ra & da & Hra & Hda & Hrs & Hds & Hshape).
  pose proof (length_mapM _ _ _ Hrs) as Hlr. pose proof (length_mapM _ _ _ Hds) as Hld.
  pose proof (Forall2_length _ _ _ Hrows) as Hlen.
  rewrite <- Hshape in Hi.
  assert (Z.of_nat (length ra) = fst (shape m)) as Hla by lia.
  assert (Z.of_nat (length da) = fst (shape m)) as Hlb by lia.
  destruct (np_index_Ok ra i ltac:(lia)) as (rr & Hrr & Hir).
  destruct (np_index_Ok da i ltac:(lia)) as (dr & Hdr & Hid).
  rewrite Hla in Hrr. rewrite Hlb in Hdr. fold (row_of m i) in Hrr, Hdr.
  apply mapM_Some in Hrs, Hds.
  destruct (Forall2_lookup_l _ _ _ _ _ Hrs Hrr) as (row & Hrow & Hcl).
  destruct (Forall2_lookup_l _ _ _ _ _ Hds Hdr) as (dat & Hdat & Hvl).
  exists ra, da, rr, dr, row, dat.
  repeat split; try done.
  - rewrite np_resolve_wrap; rewrite Hla; [done|by apply wrap_range].
  - rewrite np_resolve_wrap; rewrite Hlb; [done|by apply wrap_range].
Qed.

(** X22.  [getrowview] returns a view.  For a valid matrix whose contents satisfy
    the invariant and a row index in range, the new object stands for the
    matrix that [getrow] describes, the source still stands for what it
    stood for, and a write [v[0, j] = x] through the view is the write
    [m[i, j] = x] to the source: the same store afterwards, the same
    exception if one is raised. *)
Theorem getrowview_writes_through b h m (i : Z) :
  contents b h = Some m -> lil_inv m ->
  - fst (o_shape b) <= i < fst (o_shape b) ->
  exists h1 v r,
    getrowview b i h = Ok (h1, v) /\
    lil_getrow m i = Ok r /\ contents v h1 = Some r /\
    contents b h1 = Some m /\
    forall j x, set v 0 j x h1 = set b i j x h1.
Proof.
  intros Hm Hinv Hi.
  destruct (row_in_store b h m i Hm Hinv Hi)
    as (ra & da & rr & dr & row & dat & Hra & Hda & Hir & Hid & Hkr & Hkd & Hrr & Hdr &
        Hcl & Hvl & Hrow & Hdat).
  pose proof (lookup_lt_Some _ _ _ Hra) as Hlra.
  pose proof (lookup_lt_Some _ _ _ Hda) as Hlda.
  pose proof (lookup_lt_Some _ _ _ Hcl) as Hlcl.
  pose proof (lookup_lt_Some _ _ _ Hvl) as Hlvl.
  pose proof Hm as Hshape. apply contents_Some in Hshape as (ra0 & da0 & _ & _ & _ & _ & Hshape).
  unfold getrowview, lil_empty. cbn [Z.ltb Z.compare mbind result_bind].
  cbn [row_arrays dat_arrays col_lists val_lists o_rows o_data Z.to_nat Pos.to_nat
       Pos.iter_op Nat.add seq replicate].
  rewrite !lookup_app_l by done. rewrite Hra, Hda, Hir. cbn [mbind result_bind].
  rewrite Hid. cbn [mbind result_bind]. rewrite !alter_last.
  set (h1 := Store (row_arrays h ++ [<[0%nat := rr]> [length (col_lists h)]])
                   (dat_arrays h ++ [<[0%nat := dr]> [length (val_lists h)]])
                   (col_lists h ++ [[]]) (val_lists h ++ [[]])).
  set (v := Obj (1, snd (o_shape b)) (length (row_arrays h)) (length (dat_arrays h))).
  exists h1, v, (Lil (1, snd (shape m)) [row] [dat]).
  split; [done|]. split.
  { apply contents_Some in Hm as (ra' & da' & Hra' & Hda' & Hrs & Hds & _).
    rewrite Hra in Hra'. rewrite Hda in Hda'. injection Hra' as <-. injection Hda' as <-.
    apply (getrow_found m i (row_of m i)); [| |done|done].
    - by rewrite <- (length_mapM _ _ _ Hrs).
    - by rewrite <- (length_mapM _ _ _ Hds). }
  split.
  { apply contents_Some. exists [rr], [dr]. unfold h1, v. simpl.
    rewrite !lookup_app_r, !Nat.sub_diag by lia. simpl.
    rewrite !lookup_app_l, Hcl, Hvl by done. by rewrite Hshape. }
  split.
  { rewrite <- Hm. apply extends_contents; [by eexists|].
    unfold h1. repeat split; simpl; by apply prefix_app_r. }
  intros j x. unfold set, insert_cell, h1, v.
  cbn [row_arrays dat_arrays col_lists val_lists o_rows o_data o_shape snd].
  rewrite !lookup_app_r, !Nat.sub_diag by lia.
  rewrite !lookup_app_l by done. rewrite Hra, Hda, Hkr, Hkd, Hrr, Hdr.
  cbn [lookup list_lookup list_insert insert length np_resolve].
  change (np_resolve 1 0) with (@Ok nat 0%nat). cbn [lookup list_lookup].
  by rewrite !lookup_app_l, Hcl, Hvl by done.
Qed.

(** X23.  [getrow] returns a copy.  Under the same conditions the new object
    stands for the matrix that [getrow] describes and reaches only lists
    of its own: a write to the copy leaves the source as it is, and a
    write to the source leaves the copy as it is. *)
Theorem getrow_copy_is_independent b h m (i : Z) :
  contents b h = Some m -> lil_inv m ->
  - fst (o_shape b) <= i < fst (o_shape b) ->
  exists h1 c r,
    getrow b i h = Ok (h1, c) /\
    lil_getrow m i = Ok r /\ contents c h1 = Some r /\
    contents b h1 = Some m /\
    forall ii jj x,
      contents b (state_of (set c ii jj x h1)) = Some m /\
      contents c (state_of (set b ii jj x h1)) = Some r.
Proof.
  intros Hm Hinv Hi.
  destruct (row_in_store b h m i Hm Hinv Hi)
    as (ra & da & rr & dr & row & dat & Hra & Hda & Hir & Hid & Hkr & Hkd & Hrr & Hdr &
        Hcl & Hvl & Hrow & Hdat).
  pose proof (lookup_lt_Some _ _ _ Hra) as Hlra.
  pose proof (lookup_lt_Some _ _ _ Hda) as Hlda.
  pose proof (lookup_lt_Some _ _ _ Hcl) as Hlcl.
  pose proof (lookup_lt_Some _ _ _ Hvl) as Hlvl.
  pose proof Hm as Hshape. apply contents_Some in Hshape as (ra0 & da0 & _ & _ & _ & _ & Hshape).
  unfold getrow, lil_empty. cbn [Z.ltb Z.compare mbind result_bind].
  cbn [row_arrays dat_arrays col_lists val_lists o_rows o_data Z.to_nat Pos.to_nat
       Pos.iter_op Nat.add seq replicate].
  rewrite !lookup_app_l by done. rewrite Hra, Hda, Hir. cbn [mbind result_bind].
  rewrite !lookup_app_l by done. rewrite Hcl, Hid. cbn [mbind result_bind].
  rewrite !lookup_app_l by done. rewrite Hvl, !alter_last.
  set (h1 := Store (row_arrays h ++
                      [<[0%nat := length (col_lists h ++ [[]])]> [length (col_lists h)]])
                   (dat_arrays h ++
                      [<[0%nat := length (val_lists h ++ [[]])]> [length (val_lists h)]])
                   ((col_lists h ++ [[]]) ++ [row]) ((val_lists h ++ [[]]) ++ [dat])).
  set (c := Obj (1, snd (o_shape b)) (length (row_arrays h)) (length (dat_arrays h))).
  set (r := Lil (1, snd (shape m)) [row] [dat]).
  assert (extends h h1) as Hext.
  { unfold h1. repeat split; simpl; try by apply prefix_app_r.
    - rewrite <- app_assoc. by apply prefix_app_r.
    - rewrite <- app_assoc. by apply prefix_app_r. }
  assert (fresh_for h c h1) as Hfresh.
  { unfold fresh_for, col_refs, val_refs, h1, c. simpl.
    rewrite !lookup_app_r, !Nat.sub_diag by lia. simpl. rewrite !length_app. simpl.
    repeat split; try lia; repeat constructor; lia. }
  assert (contents c h1 = Some r) as Hc.
  { apply contents_Some. exists [length (col_lists h ++ [[]])], [length (val_lists h ++ [[]])].
    unfold h1, c, r. simpl.
    rewrite !lookup_app_r, !Nat.sub_diag by lia. simpl. by rewrite Hshape. }
  assert (contents b h1 = Some m) as Hb.
  { rewrite <- Hm. apply extends_contents; [by eexists|done]. }
  exists h1, c, r. split; [done|]. split.
  { apply contents_Some in Hm as (ra' & da' & Hra' & Hda' & Hrs & Hds & _).
    rewrite Hra in Hra'. rewrite Hda in Hda'. injection Hra' as <-. injection Hda' as <-.
    apply (getrow_found m i (row_of m i)); [| |done|done].
    - by rewrite <- (length_mapM _ _ _ Hrs).
    - by rewrite <- (length_mapM _ _ _ Hds). }
  split; [done|]. split; [done|].
  intros ii jj x. rewrite <- Hb, <- Hc.
  apply fresh_apart with (h := h); [by eexists|done|done].
Qed.
End RowObjects.

Lemma getrowview_writes_through_witness :
  exists h1 v r,
    getrowview one_row 0 one_row_store = Ok (h1, v) /\
    lil_getrow (Lil (1, 2) [[0]] [[1%float]]) 0 = Ok r /\ contents v h1 = Some r /\
    contents one_row h1 = Some (Lil (1, 2) [[0]] [[1%float]]) /\
    forall j x, set v 0 j x h1 = set one_row 0 j x h1.
Proof.
  apply (getrowview_writes_through one_row one_row_store (Lil (1, 2) [[0]] [[1%float]]) 0).
  - reflexivity.
  - split; [reflexivity|]. repeat constructor.
  - simpl. lia.
Defined.

Lemma getrow_copy_is_independent_witness :
  exists h1 c r,
    getrow one_row 0 one_row_store = Ok (h1, c) /\
    lil_getrow (Lil (1, 2) [[0]] [[1%float]]) 0 = Ok r /\ contents c h1 = Some r /\
    contents one_row h1 = Some (Lil (1, 2) [[0]] [[1%float]]) /\
    forall ii jj x,
      contents one_row (state_of (set c ii jj x h1)) = Some (Lil (1, 2) [[0]] [[1%float]]) /\
      contents c (state_of (set one_row ii jj x h1)) = Some r.
Proof.
  apply (getrow_copy_is_independent one_row one_row_store (Lil (1, 2) [[0]] [[1%float]]) 0).
  - reflexivity.
  - split; [reflexivity|]. repeat constructor.
  - simpl. lia.
Defined.

End SharedFacts.
